(** * Batch JSON -> TOON conversion scripts: a shallow embedding

    Two variants of the batch converter live in the repository:

    - [Part000]: the variant with command-line options and run statistics
      ([src/unnamed/part_000]);
    - [Script]: the plain variant ([src/scripts/convert-json-to-toon.ts]).

    Both are sequential programs over the file system, the console and the
    process exit status.  They are embedded as computations in a small
    state-and-exception monad over an explicit [World]: a file system (a
    finite map from paths to nodes), a chronological trace of the platform
    calls the program makes, and the program's local mutable variable.

    The encoder ([encode] of [packages/toon/src]), [JSON.parse] and
    [util.parseArgs] are collaborators outside [src/]; they are taken as
    parameters (class [Externals]).  A small concrete instance is given at the
    end of the definitions, for closed examples only. *)

From stdpp Require Import base option list strings gmap pretty.
From Stdlib Require Import ZArith Ascii.

Open Scope string_scope.
Open Scope Z_scope.
Open Scope list_scope.

(** ** Strings as the scripts use them *)

Module Str.

(** ['\t'] and the double quote, which cannot be written inside a literal. *)
Definition tab : string := String "009"%char EmptyString.
Definition dquote : string := String "034"%char EmptyString.

Definition lower_ascii (c : ascii) : ascii :=
  let n := nat_of_ascii c in
  if ((65 <=? n)%nat && (n <=? 90)%nat)%bool then ascii_of_nat (n + 32) else c.

(** [String.prototype.toLowerCase], on the ASCII letters.  No character
    outside ASCII lower-cases to one of [j], [s], [o], [n] or [.], so for
    the [.json] test below this is exact. *)
Fixpoint toLowerCase (s : string) : string :=
  match s with
  | EmptyString => EmptyString
  | String c s' => String (lower_ascii c) (toLowerCase s')
  end.

(** [s.endsWith(suffix)] *)
Definition endsWith (s suffix : string) : bool :=
  let n := String.length s in
  let k := String.length suffix in
  if (k <=? n)%nat then String.eqb (String.substring (n - k) k s) suffix else false.

(** Index of the last ['.'] of [s], if any. *)
Fixpoint last_dot_from (i : nat) (s : string) : option nat :=
  match s with
  | EmptyString => None
  | String c s' =>
      match last_dot_from (S i) s' with
      | Some j => Some j
      | None => if Ascii.eqb c "."%char then Some i else None
      end
  end.
Definition last_dot (s : string) : option nat := last_dot_from 0 s.

(** [path.parse(base).name] for a [base] without separators: the part
    before the last dot, unless there is no dot, the only dot is the first
    character, or [base] is [..]. *)
Definition parse_name (base : string) : string :=
  match last_dot base with
  | None => base
  | Some O => base
  | Some i => if String.eqb base ".." then base else String.substring 0 i base
  end.

(** [path.basename(p, suffix)] on the last component [base] of [p]: the
    suffix is dropped when [base] ends with it and is longer than it. *)
Definition basename (base suffix : string) : string :=
  let n := String.length base in
  let k := String.length suffix in
  if ((0 <? k)%nat && (k <? n)%nat && endsWith base suffix)%bool
  then String.substring 0 (n - k) base
  else base.

Definition is_digit (c : ascii) : bool :=
  let n := nat_of_ascii c in ((48 <=? n)%nat && (n <=? 57)%nat)%bool.

Definition is_space (c : ascii) : bool :=
  let n := nat_of_ascii c in
  ((n =? 32)%nat || ((9 <=? n)%nat && (n <=? 13)%nat))%bool.

Fixpoint skip_spaces (s : string) : string :=
  match s with
  | String c s' => if is_space c then skip_spaces s' else s
  | EmptyString => s
  end.

(** The longest prefix of decimal digits, read as a number; [None] when
    the string does not start with a digit. *)
Fixpoint digits_prefix (acc : option Z) (s : string) : option Z :=
  match s with
  | String c s' =>
      if is_digit c
      then digits_prefix
             (Some (10 * default 0 acc + Z.of_nat (nat_of_ascii c - 48))) s'
      else acc
  | EmptyString => acc
  end.

(** [Number.parseInt(s, 10)]: leading white space is skipped, an optional
    sign is read, then the longest run of digits; whatever follows is
    ignored.  [None] stands for [NaN].  (Numbers are mathematical integers
    here; the rounding of doubles beyond 2^53 is not modelled, and [-0] is
    [0].) *)
Definition parseInt (s : string) : option Z :=
  match skip_spaces s with
  | String "-" s' => Z.opp <$> digits_prefix None s'
  | String "+" s' => digits_prefix None s'
  | s' => digits_prefix None s'
  end.

Fixpoint join (sep : string) (l : list string) : string :=
  match l with
  | [] => EmptyString
  | [x] => x
  | x :: l' => x +:+ sep +:+ join sep l'
  end.

End Str.

(** ** The file system

    Paths are lists of components below the root.  The model has regular
    files, directories and special nodes (sockets, FIFOs, dangling links,
    ...); it has no links that resolve, so a path names one node. *)

Abbreviation path := (list string).

Inductive node :=
| NFile (content : string) (readable : bool)
| NDir
| NOther (statable : bool).

Global Instance node_eq_dec : EqDecision node.
Proof. solve_decision. Defined.

Abbreviation FS := (gmap path node).

(** What [readdir(dir, { withFileTypes: true })] yields for one entry. *)
Record Dirent := mkDirent { name : string; dirent_isFile : bool }.

Module Fs.

(** The absolute path as the platform and the scripts print it. *)
Definition to_string (p : path) : string := "/" +:+ Str.join "/" p.

Definition is_file (n : node) : bool :=
  match n with NFile _ _ => true | _ => false end.

(** [child_name d k = Some c] when [k] is the immediate child [c] of [d]. *)
Fixpoint child_name (d k : path) : option string :=
  match d, k with
  | [], [c] => Some c
  | x :: d', y :: k' => if decide (x = y) then child_name d' k' else None
  | _, _ => None
  end.

Definition exists_ (p : path) (f : FS) : bool := bool_decide (is_Some (f !! p)).

(** [mkdir(p, { recursive: true })]: every missing directory on the way is
    created; a directory that is there already is left alone; a node of
    another kind in the way is an error. *)
Fixpoint mkdir_from (pre rest : path) (f : FS) : string + FS :=
  match rest with
  | [] => inr f
  | c :: rest' =>
      let p := pre ++ [c] in
      match f !! p with
      | None => mkdir_from p rest' (<[p := NDir]> f)
      | Some NDir => mkdir_from p rest' f
      | Some _ => inl ("EEXIST: file already exists, mkdir " +:+ to_string p)
      end
  end.
Definition mkdir_p (p : path) (f : FS) : string + FS := mkdir_from [] p f.

(** [rm(p, { recursive: true, force: true })]: [p] and everything below it
    disappear; a missing [p] is not an error. *)
Definition rm_rf (p : path) (f : FS) : FS :=
  filter (λ kv, ¬ p `prefix_of` kv.1) f.

Definition readdir (d : path) (f : FS) : string + list Dirent :=
  match f !! d with
  | Some NDir =>
      inr (omap (λ kv, c ← child_name d kv.1; Some (mkDirent c (is_file kv.2)))
                (map_to_list f))
  | Some _ => inl ("ENOTDIR: not a directory, scandir " +:+ to_string d)
  | None => inl ("ENOENT: no such file or directory, scandir " +:+ to_string d)
  end.

(** [stat(p)] followed by [isFile()] *)
Definition stat_isFile (p : path) (f : FS) : string + bool :=
  match f !! p with
  | Some (NOther false) => inl ("EACCES: permission denied, stat " +:+ to_string p)
  | Some n => inr (is_file n)
  | None => inl ("ENOENT: no such file or directory, stat " +:+ to_string p)
  end.

Definition readFile (p : path) (f : FS) : string + string :=
  match f !! p with
  | Some (NFile c true) => inr c
  | Some (NFile _ false) => inl ("EACCES: permission denied, open " +:+ to_string p)
  | Some NDir => inl "EISDIR: illegal operation on a directory, read"
  | Some (NOther _) => inl ("EACCES: permission denied, open " +:+ to_string p)
  | None => inl ("ENOENT: no such file or directory, open " +:+ to_string p)
  end.

Definition parent (p : path) : path := removelast p.

(** [path.relative(from, to)] *)
Fixpoint relative_parts (from to : path) : path :=
  match from, to with
  | x :: from', y :: to' =>
      if decide (x = y) then relative_parts from' to'
      else (const ".." <$> from) ++ to
  | _, _ => (const ".." <$> from) ++ to
  end.
Definition relative (from to : path) : string :=
  Str.join "/" (relative_parts from to).

(** [writeFile(p, data)]: the parent must be a directory; a regular file
    at [p] is overwritten, a missing one created. *)
Definition writeFile (p : path) (data : string) (f : FS) : string + FS :=
  match f !! parent p with
  | Some NDir =>
      match f !! p with
      | None => inr (<[p := NFile data true]> f)
      | Some (NFile _ r) => inr (<[p := NFile data r]> f)
      | Some NDir => inl ("EISDIR: illegal operation on a directory, open " +:+ to_string p)
      | Some (NOther _) => inl ("EACCES: permission denied, open " +:+ to_string p)
      end
  | _ => inl ("ENOENT: no such file or directory, open " +:+ to_string p)
  end.

End Fs.

(** ** Worlds, traces and the monad of the scripts *)

Inductive Level := LLog | LInfo | LWarn | LError.

(** One entry per platform call, in the order the calls are made; a call is
    recorded whether it succeeds or not.  [EvEncode src] marks the call of
    the encoder on the document read from [src]; [EvAssign l] records the
    value the program's local variable takes at an assignment. *)
Inductive Event (L : Type) :=
| EvMkdir (p : path)
| EvRm (p : path)
| EvExists (p : path)
| EvReaddir (p : path)
| EvStat (p : path)
| EvReadFile (p : path)
| EvWriteFile (p : path) (data : string)
| EvEncode (src : path)
| EvConsole (lvl : Level) (msg : string)
| EvAssign (l : L).
Arguments EvMkdir {L}.
Arguments EvRm {L}.
Arguments EvExists {L}.
Arguments EvReaddir {L}.
Arguments EvStat {L}.
Arguments EvReadFile {L}.
Arguments EvWriteFile {L}.
Arguments EvEncode {L}.
Arguments EvConsole {L}.
Arguments EvAssign {L}.

Record World (L : Type) := mkWorld {
  fs : FS;
  trace : list (Event L);
  locals : L
}.
Arguments mkWorld {L}.
Arguments fs {L}.
Arguments trace {L}.
Arguments locals {L}.

(** A computation returns, throws (the message of the error), or ends the
    process at once with [process.exit(code)]. *)
Inductive Result (A : Type) :=
| Ok (a : A)
| Throw (msg : string)
| Exit (code : nat).
Arguments Ok {A}.
Arguments Throw {A}.
Arguments Exit {A}.

Definition M (L A : Type) : Type := World L → Result A * World L.

Section Monad.
Context {L : Type}.

Definition ret {A} (a : A) : M L A := λ w, (Ok a, w).

Definition bind {A B} (m : M L A) (k : A → M L B) : M L B :=
  λ w, match m w with
       | (Ok a, w') => k a w'
       | (Throw e, w') => (Throw e, w')
       | (Exit c, w') => (Exit c, w')
       end.

Definition throw {A} (e : string) : M L A := λ w, (Throw e, w).

(** [process.exit(code)] *)
Definition exit {A} (code : nat) : M L A := λ w, (Exit code, w).

(** [try { m } catch (error) { h(message of error) }] *)
Definition try_catch {A} (m : M L A) (h : string → M L A) : M L A :=
  λ w, match m w with
       | (Throw e, w') => h e w'
       | r => r
       end.

Definition emit (ev : Event L) (w : World L) : World L :=
  mkWorld (fs w) (trace w ++ [ev]) (locals w).

Definition set_fs (f : FS) (w : World L) : World L :=
  mkWorld f (trace w) (locals w).

(** The value of a pure call that may throw. *)
Definition lift {A} (r : string + A) : M L A :=
  match r with inl e => throw e | inr a => ret a end.

(** A call that reads the file system. *)
Definition fs_read {A} (ev : Event L) (op : FS → string + A) : M L A :=
  λ w, lift (op (fs w)) (emit ev w).

(** A call that changes the file system. *)
Definition fs_write (ev : Event L) (op : FS → string + FS) : M L unit :=
  λ w, match op (fs w) with
       | inl e => (Throw e, emit ev w)
       | inr f' => (Ok tt, set_fs f' (emit ev w))
       end.

(** A pure call that may throw, with a mark in the trace. *)
Definition traced {A} (ev : Event L) (r : string + A) : M L A :=
  λ w, lift r (emit ev w).

Definition mkdir (p : path) : M L unit := fs_write (EvMkdir p) (Fs.mkdir_p p).
Definition rm (p : path) : M L unit := fs_write (EvRm p) (λ f, inr (Fs.rm_rf p f)).
Definition existsSync (p : path) : M L bool :=
  fs_read (EvExists p) (λ f, inr (Fs.exists_ p f)).
Definition readdir (p : path) : M L (list Dirent) := fs_read (EvReaddir p) (Fs.readdir p).
Definition stat_isFile (p : path) : M L bool := fs_read (EvStat p) (Fs.stat_isFile p).
Definition readFile (p : path) : M L string := fs_read (EvReadFile p) (Fs.readFile p).
Definition writeFile (p : path) (data : string) : M L unit :=
  fs_write (EvWriteFile p data) (Fs.writeFile p data).

Definition console (lvl : Level) (msg : string) : M L unit :=
  λ w, (Ok tt, emit (EvConsole lvl msg) w).

Definition get_locals : M L L := λ w, (Ok (locals w), w).

Definition assign (l : L) : M L unit :=
  λ w, (Ok tt, mkWorld (fs w) (trace w ++ [EvAssign l]) l).

(** [for (const x of l) body(x)] *)
Fixpoint for_of {A} (l : list A) (body : A → M L unit) : M L unit :=
  match l with
  | [] => ret tt
  | x :: l' => bind (body x) (λ _, for_of l' body)
  end.

(** [when c m]: [if (c) m] *)
Definition when (c : bool) (m : M L unit) : M L unit := if c then m else ret tt.

End Monad.

Global Instance M_ret {L} : MRet (M L) := @ret L.
Global Instance M_bind {L} : MBind (M L) := λ A B k m, bind m k.

(** The values the local variable has held, oldest first. *)
Definition assigned {L} (t : list (Event L)) : list L :=
  omap (λ ev, match ev with EvAssign l => Some l | _ => None end) t.

(** ** Vocabulary for statements about runs *)

(** [q] lies strictly inside directory [d]. *)
Definition under (d q : path) : Prop := ∃ n r, q = d ++ n :: r.

(** [q] lies on the way from [pre] (excluded) down to [pre ++ rest]. *)
Definition on_way (pre rest q : path) : Prop :=
  ∃ r1 r2, rest = r1 ++ r2 ∧ r1 ≠ [] ∧ q = pre ++ r1.

(** Nothing but directories, or nothing at all, on the way down to [p]:
    the condition under which [mkdir(p, { recursive: true })] succeeds. *)
Definition creatable (f : FS) (p : path) : Prop :=
  ∀ q, q `prefix_of` p → q ≠ [] → f !! q = None ∨ f !! q = Some NDir.

(** [creatable] and "nothing is inside [d]", as computations. *)
Definition creatableb (f : FS) (p : path) : bool :=
  forallb (λ k, match f !! take (S k) p with
                | None | Some NDir => true
                | _ => false
                end)
          (seq 0 (length p)).

Definition childless (f : FS) (d : path) : bool :=
  forallb (λ kv, bool_decide (Fs.child_name d kv.1 = None)) (map_to_list f).

(** A regular file is at [p]. *)
Definition is_regular (f : FS) (p : path) : bool :=
  match f !! p with Some n => Fs.is_file n | None => false end.

(** The name ends in [.json], letter case aside. *)
Definition json_suffix_ci (n : string) : Prop :=
  ∃ pre suf, n = pre +:+ suf ∧ Str.toLowerCase suf = ".json".

(** The paths whose node a successful call may change. *)
Definition touches {L : Type} (ev : Event L) (q : path) : Prop :=
  match ev with
  | EvMkdir p => q `prefix_of` p
  | EvRm p => p `prefix_of` q
  | EvWriteFile p _ => q = p
  | _ => False
  end.

(** From [w] to [w']: the trace grew by calls that [P] allows ([P] may look
    at the file system at [w]), and a path that none of them touches kept
    its node. *)
Definition tracked {L : Type} (P : FS → Event L → Prop) (w w' : World L) : Prop :=
  ∃ t, trace w' = trace w ++ t
       ∧ Forall (P (fs w)) t
       ∧ ∀ q, (∀ ev, ev ∈ t → ¬ touches ev q) → fs w' !! q = fs w !! q.

(** Whatever [m] does, it takes a world to one related to it by [R]. *)
Definition preserves {L A : Type} (R : World L → World L → Prop) (m : M L A) : Prop :=
  ∀ w r w', m w = (r, w') → R w w'.

Definition respects {L A : Type} (P : FS → Event L → Prop) (m : M L A) : Prop :=
  preserves (tracked P) m.

(** Reads name paths in [ind] or below, writes and removals paths in [outd]
    or below. *)
Definition well_targeted {L : Type} (ind outd : path) (ev : Event L) : Prop :=
  match ev with
  | EvReaddir p | EvStat p | EvReadFile p => ind `prefix_of` p
  | EvWriteFile p _ | EvRm p => outd `prefix_of` p
  | _ => True
  end.

(** From [w] to [w']: the trace grew, and not by [ev0]. *)
Definition without {L : Type} (ev0 : Event L) (w w' : World L) : Prop :=
  ∃ t, trace w' = trace w ++ t ∧ ev0 ∉ t.

(** The calls of the core transform: reading the content, encoding,
    writing the result. *)
Definition is_conversion_call {L : Type} (ev : Event L) : Prop :=
  match ev with
  | EvReadFile _ | EvEncode _ | EvWriteFile _ _ => True
  | _ => False
  end.

(** How the handling of one entry ends. *)
Inductive Outcome := Converted | Skipped | Failed (reason : string).

(** The value of a call that returned. *)
Definition returned {A} (r : string + A) : option A :=
  match r with inr a => Some a | inl _ => None end.

(** What a successful [writeFile] of [text] leaves where [nd] was: a new
    file, or the file that was there with its content replaced.  A
    directory or a special node makes the call fail, and stays. *)
Definition overwritten (text : string) (nd : option node) : option node :=
  match nd with
  | None => Some (NFile text true)
  | Some (NFile _ r) => Some (NFile text r)
  | other => other
  end.

(** [p] and every directory on the way to it are directories. *)
Definition made (f : FS) (p : path) : Prop :=
  ∀ q, q `prefix_of` p → q ≠ [] → f !! q = Some NDir.

(** The names of the nodes directly inside [d]. *)
Definition entry_names (f : FS) (d : path) : list string :=
  omap (λ kv, Fs.child_name d kv.1) (map_to_list f).

(** What handling the entry named [n] does to the file system, when
    [conv f n] is the text to write for it, if any: the text is written
    to [outd ++ [outname n]], and a write that fails changes nothing. *)
Definition write_effect (outd : path) (outname : string → string)
    (conv : FS → string → option string) (f : FS) (n : string) : FS :=
  match conv f n with
  | Some text =>
      match Fs.writeFile (outd ++ [outname n]) text f with
      | inr f' => f'
      | inl _ => f
      end
  | None => f
  end.

(** No two nodes directly inside [ind] share an output name. *)
Definition distinct_outputs (ind : path) (outname : string → string) (f : FS) : Prop :=
  ∀ n m, is_Some (f !! (ind ++ [n])) → is_Some (f !! (ind ++ [m])) →
         outname n = outname m → n = m.

Definition distinct_outputsb (ind : path) (outname : string → string) (f : FS) : bool :=
  let names := entry_names f ind in
  forallb (λ n, forallb (λ m, implb (String.eqb (outname n) (outname m))
                                (String.eqb n m)) names) names.

(** The paths [stat] was called on, in the order of the calls. *)
Definition stat_calls {L : Type} (t : list (Event L)) : list path :=
  omap (λ ev, match ev with EvStat p => Some p | _ => None end) t.

(** A trace without the lines of [console.info]. *)
Definition is_info {L : Type} (ev : Event L) : bool :=
  match ev with EvConsole LInfo _ => true | _ => false end.
Definition without_info {L : Type} (t : list (Event L)) : list (Event L) :=
  List.filter (λ ev, negb (is_info ev)) t.

(** Two worlds that differ in the lines of [console.info] only, and two
    computations that take such worlds to such worlds, with one result. *)
Definition same_but_info {L : Type} (w1 w2 : World L) : Prop :=
  fs w1 = fs w2 ∧ locals w1 = locals w2
  ∧ without_info (trace w1) = without_info (trace w2).

Definition agree_but_info {L A : Type} (m1 m2 : M L A) : Prop :=
  ∀ w1 w2, same_but_info w1 w2 →
    (m1 w1).1 = (m2 w2).1 ∧ same_but_info (m1 w1).2 (m2 w2).2.

(** From [w] to [w']: nothing inside [ind] has changed; and a node that
    was there is there still, as it was, unless it is a regular file at
    the output path of a readable regular file [n] of [ind] with an
    accepted name: then it is a regular file still, with the permissions
    it had. *)
Definition rewrites_outputs_only {L : Type} (ind outd : path)
    (accepted : string → bool) (outname : string → string)
    (w w' : World L) : Prop :=
  (∀ q, under ind q → fs w' !! q = fs w !! q)
  ∧ ∀ q nd, fs w !! q = Some nd →
      fs w' !! q = Some nd
      ∨ ∃ n c0 c r c',
          q = outd ++ [outname n]
          ∧ accepted n = true
          ∧ fs w !! (ind ++ [n]) = Some (NFile c0 true)
          ∧ nd = NFile c r
          ∧ fs w' !! q = Some (NFile c' r).

(** ** The collaborators outside [src/] *)

(** The options object handed to the encoder. *)
Record EncodeOptions := mkEncodeOptions {
  eo_delimiter : option string;
  eo_indent : option Z;
  eo_keyFolding : option string;
  eo_flattenDepth : option Z
}.

(** [values] of [util.parseArgs] for the options of [Part000]: the four
    string options may be absent, the two flags default to [false]. *)
Record ParsedValues := mkParsedValues {
  v_indent : option string;
  v_delimiter : option string;
  v_keyFolding : option string;
  v_flattenDepth : option string;
  v_clean : bool;
  v_verbose : bool
}.

Class Externals := {
  (** parsed JSON documents *)
  Doc : Type;
  (** [JSON.parse]: the document, or the message of the [SyntaxError] *)
  JSON_parse : string → string + Doc;
  (** [encode] of the TOON package: the text, or the message of its error *)
  encode : Doc → EncodeOptions → string + string;
  (** [util.parseArgs] with the option table of [Part000.parseCliOptions]:
      the values, or the message of the error it throws *)
  parseArgs : list string → string + ParsedValues
}.

(** How a process ends: a [process.exit(code)] gives [code], a natural end
    gives 0, and a rejection nobody handles gives 1. *)
Definition exit_status {A} (r : Result A) : nat :=
  match r with
  | Ok _ => 0%nat
  | Throw _ => 1%nat
  | Exit c => c
  end.

(** [main().catch(handler)], the last statement of either script, run to the
    end of the process: the exit status and the final world. *)
Definition run_process {L} (main : M L unit) (handler : string → M L unit)
    (w : World L) : nat * World L :=
  let r := try_catch main handler w in (exit_status r.1, r.2).

Definition newline : string := String "010"%char EmptyString.

(** * The variant with options and statistics ([src/unnamed/part_000]) *)

Module Part000.

Record CliOptions := mkCliOptions {
  indent : Z;
  delimiter : string;
  keyFolding : string;
  flattenDepth : option Z;
  clean : bool;
  verbose : bool
}.

Record ConversionStats := mkStats {
  processed : nat;
  converted : nat;
  skipped : nat;
  failed : nat
}.

(** [stats.processed += 1] and its three siblings, as values *)
Definition inc_processed (s : ConversionStats) : ConversionStats :=
  mkStats (S (processed s)) (converted s) (skipped s) (failed s).
Definition inc_converted (s : ConversionStats) : ConversionStats :=
  mkStats (processed s) (S (converted s)) (skipped s) (failed s).
Definition inc_skipped (s : ConversionStats) : ConversionStats :=
  mkStats (processed s) (converted s) (S (skipped s)) (failed s).
Definition inc_failed (s : ConversionStats) : ConversionStats :=
  mkStats (processed s) (converted s) (skipped s) (S (failed s)).

(** Modelled from the spec: [DELIMITERS] and [DEFAULT_DELIMITER] are
    constants of [packages/toon/src], which is not under [src/]; the spec
    gives the set as comma, tab and pipe with comma the default, and the
    error message of [parseCliOptions] lists the same three. *)
Definition DELIMITERS : list string := [","; Str.tab; "|"].
Definition DEFAULT_DELIMITER : string := ",".

Abbreviation Prog := (M ConversionStats).

Section Program.
Context `{Externals}.
(** [process.cwd()] *)
Variable cwd : path.

Definition INPUT_DIR : path := cwd ++ ["input_json"].
Definition OUTPUT_DIR : path := cwd ++ ["output_toon"].

Definition relativeFromCwd (target : path) : string :=
  let r := Fs.relative cwd target in
  if String.eqb r EmptyString then "." else r.

Definition parseCliOptions (argv : list string) : string + CliOptions :=
  match parseArgs argv with
  | inl e => inl e
  | inr values =>
  let indent :=
    match v_indent values with
    | Some s => if String.eqb s EmptyString then Some 2 else Str.parseInt s
    | None => Some 2
    end in
  match indent with
  | None => inl "`--indent` must be a non-negative integer"
  | Some indent =>
  if indent <? 0 then inl "`--indent` must be a non-negative integer" else
  let allowedDelimiters := DELIMITERS in
  let delimiter := default DEFAULT_DELIMITER (v_delimiter values) in
  if negb (bool_decide (delimiter ∈ allowedDelimiters)) then
    inl ("`--delimiter` must be one of: "
         +:+ Str.dquote +:+ "," +:+ Str.dquote +:+ ", "
         +:+ Str.dquote +:+ Str.tab +:+ Str.dquote +:+ ", "
         +:+ Str.dquote +:+ "|" +:+ Str.dquote)
  else
  let keyFolding := default "off" (v_keyFolding values) in
  if (negb (String.eqb keyFolding "off") && negb (String.eqb keyFolding "safe"))%bool then
    inl ("`--keyFolding` must be " +:+ Str.dquote +:+ "off" +:+ Str.dquote
         +:+ " or " +:+ Str.dquote +:+ "safe" +:+ Str.dquote)
  else
  (* [None]: undefined; [Some None]: NaN *)
  let flattenDepth := Str.parseInt <$> v_flattenDepth values in
  match flattenDepth with
  | Some None => inl "`--flattenDepth` must be a non-negative integer when provided"
  | Some (Some d) =>
      if d <? 0
      then inl "`--flattenDepth` must be a non-negative integer when provided"
      else inr (mkCliOptions indent delimiter keyFolding (Some d)
                  (v_clean values) (v_verbose values))
  | None =>
      inr (mkCliOptions indent delimiter keyFolding None
             (v_clean values) (v_verbose values))
  end
  end
  end.

Definition ensureWorkspace : Prog unit :=
  mkdir INPUT_DIR;;
  mkdir OUTPUT_DIR.

Definition emptyOutputDir : Prog unit :=
  rm OUTPUT_DIR;;
  mkdir OUTPUT_DIR.

Definition isProcessableFile (filePath : path) : Prog bool :=
  try_catch
    (stat_isFile filePath)
    (λ reason,
       console LWarn ("Unable to read " +:+ relativeFromCwd filePath +:+ ". " +:+ reason);;
       mret false).

Definition logSummary (stats : ConversionStats) : Prog unit :=
  console LLog (newline +:+ "Batch conversion summary:");;
  console LLog ("  Processed: " +:+ pretty (processed stats));;
  console LLog ("  Converted: " +:+ pretty (converted stats));;
  console LLog ("  Skipped:   " +:+ pretty (skipped stats));;
  console LLog ("  Failed:    " +:+ pretty (failed stats));;
  when (bool_decide (converted stats = 0%nat))
    (console LWarn "No files were converted. Ensure there are .json files in input_json.").

(** [stats.field += 1] on the [stats] object of [main] *)
Definition bump (inc : ConversionStats → ConversionStats) : Prog unit :=
  stats ← get_locals; assign (inc stats).

Definition is_json_name (n : string) : bool :=
  Str.endsWith (Str.toLowerCase n) ".json".

Definition outputName (n : string) : string := Str.parse_name n +:+ ".toon".

(** The body of the [for] loop of [main], for one [entry].  Entry names
    are single path components, so [path.join(dir, name)] is [dir] with
    [name] appended. *)
Definition process_entry (options : CliOptions) (entry : Dirent) : Prog unit :=
  let entryPath := INPUT_DIR ++ [name entry] in
  ok ← isProcessableFile entryPath;
  if negb ok then
    bump inc_skipped;;
    when (verbose options)
      (console LInfo ("Skipping " +:+ relativeFromCwd entryPath +:+ " (not a regular file)."))
  else
    bump inc_processed;;
    if negb (is_json_name (name entry)) then
      bump inc_skipped;;
      console LWarn ("Skipped " +:+ name entry +:+ ": not a .json file.")
    else
      try_catch
        (rawJson ← readFile entryPath;
         data ← lift (JSON_parse rawJson);
         toonOutput ←
           traced (EvEncode entryPath)
             (encode data
                (mkEncodeOptions (Some (delimiter options))
                   (Some (indent options))
                   (Some (keyFolding options))
                   (flattenDepth options)));
         let outputPath := OUTPUT_DIR ++ [outputName (name entry)] in
         writeFile outputPath toonOutput;;
         bump inc_converted;;
         when (verbose options)
           (console LInfo ("Converted " +:+ relativeFromCwd entryPath +:+ " → "
                           +:+ relativeFromCwd outputPath)))
        (λ reason,
           bump inc_failed;;
           console LError ("Failed to convert " +:+ name entry +:+ ". " +:+ reason)).

Definition main (argv : list string) : Prog unit :=
  options ← lift (parseCliOptions argv);
  ensureWorkspace;;
  when (clean options) emptyOutputDir;;
  assign (mkStats 0 0 0 0);;
  entries ← readdir INPUT_DIR;
  if bool_decide (entries = []) then
    console LWarn ("No files found in " +:+ relativeFromCwd INPUT_DIR
                   +:+ ". Add .json files and run again.")
  else
    for_of entries (process_entry options);;
    stats ← get_locals;
    logSummary stats.

(** [main().catch((error) => { console.error(message); process.exit(1) })] *)
Definition on_fatal (e : string) : Prog unit :=
  console LError e;;
  exit 1.

(** The whole process on arguments [argv], from file system [f]. *)
Definition run (argv : list string) (f : FS) : nat * World ConversionStats :=
  run_process (main argv) on_fatal (mkWorld f [] (mkStats 0 0 0 0)).

End Program.

(** ** Vocabulary for statements about this variant *)

Section Vocabulary.
Context `{Externals}.
Variable cwd : path.

(** [main] in two phases: everything before the enumeration of the input
    directory, and everything from it on ([main_phases] below). *)
Definition prepare (options : CliOptions) : Prog unit :=
  ensureWorkspace cwd;;
  when (clean options) (emptyOutputDir cwd);;
  assign (mkStats 0 0 0 0).

Definition convert_all (options : CliOptions) : Prog unit :=
  entries ← readdir (INPUT_DIR cwd);
  if bool_decide (entries = []) then
    console LWarn ("No files found in " +:+ relativeFromCwd cwd (INPUT_DIR cwd)
                   +:+ ". Add .json files and run again.")
  else
    for_of entries (process_entry cwd options);;
    stats ← get_locals;
    logSummary stats.

Definition summary_header : string := newline +:+ "Batch conversion summary:".

(** What [logSummary] prints. *)
Definition summary_lines (s : ConversionStats) : list (Event ConversionStats) :=
  [EvConsole LLog summary_header;
   EvConsole LLog ("  Processed: " +:+ pretty (processed s));
   EvConsole LLog ("  Converted: " +:+ pretty (converted s));
   EvConsole LLog ("  Skipped:   " +:+ pretty (skipped s));
   EvConsole LLog ("  Failed:    " +:+ pretty (failed s))] ++
  (if bool_decide (converted s = 0%nat)
   then [EvConsole LWarn
           "No files were converted. Ensure there are .json files in input_json."]
   else []).

Definition no_files_warning : Event ConversionStats :=
  EvConsole LWarn ("No files found in " +:+ relativeFromCwd cwd (INPUT_DIR cwd)
                   +:+ ". Add .json files and run again.").

(** The calls of [prepare]. *)
Definition prepare_trace (options : CliOptions) : list (Event ConversionStats) :=
  [EvMkdir (INPUT_DIR cwd); EvMkdir (OUTPUT_DIR cwd)] ++
  (if clean options then [EvRm (OUTPUT_DIR cwd); EvMkdir (OUTPUT_DIR cwd)] else []) ++
  [EvAssign (mkStats 0 0 0 0)].

(** The relation the claim on the counters states, and the weaker one
    that holds between two assignments of one iteration. *)
Definition boundary_inv (s : ConversionStats) : Prop :=
  (converted s + failed s ≤ processed s
   ∧ processed s ≤ converted s + failed s + skipped s)%nat.

Definition inner_inv (s : ConversionStats) : Prop :=
  (converted s + failed s ≤ processed s
   ∧ processed s ≤ converted s + failed s + skipped s + 1)%nat.

Definition outcomes (s : ConversionStats) : nat :=
  (converted s + skipped s + failed s)%nat.

(** From [w] to [w']: if the counters were in the relation of the claim,
    they are again, and every value they took on the way is in the
    weaker one. *)
Definition stats_kept (w w' : World ConversionStats) : Prop :=
  boundary_inv (locals w) →
  boundary_inv (locals w')
  ∧ ∃ t, trace w' = trace w ++ t ∧ Forall inner_inv (assigned t).

(** Entries by what the loop looks at: is a regular file at the path,
    and does the name end in [.json]. *)
Definition regular_entry (f : FS) (e : Dirent) : bool :=
  is_regular f (INPUT_DIR cwd ++ [name e]).
Definition json_entry (e : Dirent) : bool := is_json_name (name e).
Definition count (p : Dirent → bool) (es : list Dirent) : nat :=
  length (List.filter p es).

(** The calls from the enumeration on, and those of a whole run. *)
Definition loop_event (f : FS) (ev : Event ConversionStats) : Prop :=
  match ev with
  | EvReaddir p => p = INPUT_DIR cwd
  | EvStat p | EvReadFile p => ∃ n, p = INPUT_DIR cwd ++ [n]
  | EvEncode p =>
      ∃ n c, p = INPUT_DIR cwd ++ [n]
             ∧ f !! p = Some (NFile c true) ∧ is_json_name n = true
  | EvWriteFile p _ =>
      ∃ n c, p = OUTPUT_DIR cwd ++ [outputName n]
             ∧ f !! (INPUT_DIR cwd ++ [n]) = Some (NFile c true)
             ∧ is_json_name n = true
  | EvConsole _ _ | EvAssign _ => True
  | _ => False
  end.

Definition run_event (f : FS) (ev : Event ConversionStats) : Prop :=
  match ev with
  | EvMkdir p => p = INPUT_DIR cwd ∨ p = OUTPUT_DIR cwd
  | EvRm p => p = OUTPUT_DIR cwd
  | EvExists _ => False
  | _ => loop_event f ev
  end.

(** The calls before the enumeration. *)
Definition prepare_event (f : FS) (ev : Event ConversionStats) : Prop :=
  match ev with
  | EvMkdir p => p = INPUT_DIR cwd ∨ p = OUTPUT_DIR cwd
  | EvRm p => p = OUTPUT_DIR cwd
  | EvAssign _ => True
  | _ => False
  end.

Definition say_if (b : bool) (msg : string) : list (Event ConversionStats) :=
  if b then [EvConsole LInfo msg] else [].

(** The execution paths of [process_entry], one constructor each: the
    world an entry leaves behind and the outcome it stands for. *)
Section Table.
Variables (options : CliOptions) (entry : Dirent).
Variable w : World ConversionStats.

Let p := INPUT_DIR cwd ++ [name entry].
Let out := OUTPUT_DIR cwd ++ [outputName (name entry)].
Let s := locals w.
Let eopts :=
  mkEncodeOptions (Some (delimiter options)) (Some (indent options))
    (Some (keyFolding options)) (flattenDepth options).

Inductive entry_step : World ConversionStats → Outcome → Prop :=
| step_stat_error reason :
    Fs.stat_isFile p (fs w) = inl reason →
    entry_step
      (mkWorld (fs w)
         (trace w ++
            [EvStat p;
             EvConsole LWarn
               ("Unable to read " +:+ relativeFromCwd cwd p +:+ ". " +:+ reason);
             EvAssign (inc_skipped s)] ++
            say_if (verbose options)
              ("Skipping " +:+ relativeFromCwd cwd p +:+ " (not a regular file)."))
         (inc_skipped s))
      Skipped
| step_not_file :
    Fs.stat_isFile p (fs w) = inr false →
    entry_step
      (mkWorld (fs w)
         (trace w ++
            [EvStat p; EvAssign (inc_skipped s)] ++
            say_if (verbose options)
              ("Skipping " +:+ relativeFromCwd cwd p +:+ " (not a regular file)."))
         (inc_skipped s))
      Skipped
| step_not_json :
    Fs.stat_isFile p (fs w) = inr true →
    is_json_name (name entry) = false →
    entry_step
      (mkWorld (fs w)
         (trace w ++
            [EvStat p; EvAssign (inc_processed s);
             EvAssign (inc_skipped (inc_processed s));
             EvConsole LWarn ("Skipped " +:+ name entry +:+ ": not a .json file.")])
         (inc_skipped (inc_processed s)))
      Skipped
| step_read_error reason :
    Fs.stat_isFile p (fs w) = inr true →
    is_json_name (name entry) = true →
    Fs.readFile p (fs w) = inl reason →
    entry_step
      (mkWorld (fs w)
         (trace w ++
            [EvStat p; EvAssign (inc_processed s); EvReadFile p;
             EvAssign (inc_failed (inc_processed s));
             EvConsole LError
               ("Failed to convert " +:+ name entry +:+ ". " +:+ reason)])
         (inc_failed (inc_processed s)))
      (Failed reason)
| step_parse_error rawJson reason :
    Fs.stat_isFile p (fs w) = inr true →
    is_json_name (name entry) = true →
    Fs.readFile p (fs w) = inr rawJson →
    JSON_parse rawJson = inl reason →
    entry_step
      (mkWorld (fs w)
         (trace w ++
            [EvStat p; EvAssign (inc_processed s); EvReadFile p;
             EvAssign (inc_failed (inc_processed s));
             EvConsole LError
               ("Failed to convert " +:+ name entry +:+ ". " +:+ reason)])
         (inc_failed (inc_processed s)))
      (Failed reason)
| step_encode_error rawJson data reason :
    Fs.stat_isFile p (fs w) = inr true →
    is_json_name (name entry) = true →
    Fs.readFile p (fs w) = inr rawJson →
    JSON_parse rawJson = inr data →
    encode data eopts = inl reason →
    entry_step
      (mkWorld (fs w)
         (trace w ++
            [EvStat p; EvAssign (inc_processed s); EvReadFile p; EvEncode p;
             EvAssign (inc_failed (inc_processed s));
             EvConsole LError
               ("Failed to convert " +:+ name entry +:+ ". " +:+ reason)])
         (inc_failed (inc_processed s)))
      (Failed reason)
| step_write_error rawJson data toonOutput reason :
    Fs.stat_isFile p (fs w) = inr true →
    is_json_name (name entry) = true →
    Fs.readFile p (fs w) = inr rawJson →
    JSON_parse rawJson = inr data →
    encode data eopts = inr toonOutput →
    Fs.writeFile out toonOutput (fs w) = inl reason →
    entry_step
      (mkWorld (fs w)
         (trace w ++
            [EvStat p; EvAssign (inc_processed s); EvReadFile p; EvEncode p;
             EvWriteFile out toonOutput;
             EvAssign (inc_failed (inc_processed s));
             EvConsole LError
               ("Failed to convert " +:+ name entry +:+ ". " +:+ reason)])
         (inc_failed (inc_processed s)))
      (Failed reason)
| step_converted rawJson data toonOutput f' :
    Fs.stat_isFile p (fs w) = inr true →
    is_json_name (name entry) = true →
    Fs.readFile p (fs w) = inr rawJson →
    JSON_parse rawJson = inr data →
    encode data eopts = inr toonOutput →
    Fs.writeFile out toonOutput (fs w) = inr f' →
    entry_step
      (mkWorld f'
         (trace w ++
            [EvStat p; EvAssign (inc_processed s); EvReadFile p; EvEncode p;
             EvWriteFile out toonOutput;
             EvAssign (inc_converted (inc_processed s))] ++
            say_if (verbose options)
              ("Converted " +:+ relativeFromCwd cwd p +:+ " → "
               +:+ relativeFromCwd cwd out))
         (inc_converted (inc_processed s)))
      Converted.
End Table.

(** The options object [process_entry] hands to the encoder. *)
Definition encoder_options (options : CliOptions) : EncodeOptions :=
  mkEncodeOptions (Some (delimiter options)) (Some (indent options))
    (Some (keyFolding options)) (flattenDepth options).

(** The text the loop has to write for the entry named [n]: the encoding
    of the document in the file, when the entry is a readable regular
    file with a [.json] name whose content parses and encodes. *)
Definition conversion (options : CliOptions) (f : FS) (n : string) : option string :=
  let p := INPUT_DIR cwd ++ [n] in
  if (is_regular f p && is_json_name n)%bool then
    rawJson ← returned (Fs.readFile p f);
    data ← returned (JSON_parse rawJson);
    returned (encode data (encoder_options options))
  else None.

Definition outputPath (n : string) : path := OUTPUT_DIR cwd ++ [outputName n].

(** What handling the entry named [n] does to the file system. *)
Definition entry_effect (options : CliOptions) : FS → string → FS :=
  write_effect (OUTPUT_DIR cwd) outputName (conversion options).

(** Every [writeFile] puts the encoding of an entry at its output path. *)
Definition write_is_encoding (options : CliOptions) (f : FS)
    (ev : Event ConversionStats) : Prop :=
  match ev with
  | EvWriteFile p text => ∃ n, p = outputPath n ∧ conversion options f n = Some text
  | _ => True
  end.

(** Options that differ in [verbose] only. *)
Definition same_but_verbose (o1 o2 : CliOptions) : Prop :=
  indent o1 = indent o2 ∧ delimiter o1 = delimiter o2
  ∧ keyFolding o1 = keyFolding o2 ∧ flattenDepth o1 = flattenDepth o2
  ∧ clean o1 = clean o2.

End Vocabulary.

End Part000.

(** * The plain variant ([src/scripts/convert-json-to-toon.ts]) *)

Module Script.

Record ConversionResult := mkResult {
  success : bool;
  inputFile : string;
  outputFile : option string;
  error : option string
}.

(** The local variable of [main] is the [results] array. *)
Abbreviation Prog := (M (list ConversionResult)).

Section Program.
Context `{Externals}.
(** [process.cwd()] *)
Variable cwd : path.

Definition INPUT_DIR : path := cwd ++ ["input_json"].
Definition OUTPUT_DIR : path := cwd ++ ["output_toon"].

Definition convertJsonToToon (inputPath outputPath : path) : Prog unit :=
  jsonContent ← readFile inputPath;
  data ← try_catch
           (lift (JSON_parse jsonContent))
           (λ e, throw ("Failed to parse JSON: " +:+ e));
  toonOutput ←
    traced (EvEncode inputPath)
      (encode data (mkEncodeOptions None (Some 2) (Some "off") None));
  writeFile outputPath toonOutput.

Definition getJsonFiles (dir : path) : Prog (list path) :=
  entries ← readdir dir;
  mret ((λ entry, dir ++ [name entry]) <$>
          filter (λ entry, dirent_isFile entry && Str.endsWith (name entry) ".json")
                 entries).

(** [results.push(r)] *)
Definition push (r : ConversionResult) : Prog unit :=
  results ← get_locals; assign (results ++ [r]).

(** The body of the conversion loop of [main], for one [inputFile]. *)
Definition convert_file (inputFile : path) : Prog unit :=
  let baseName := Str.basename (List.last inputFile EmptyString) ".json" in
  let outputFile := OUTPUT_DIR ++ [baseName +:+ ".toon"] in
  let relativeInput := Fs.relative cwd inputFile in
  let relativeOutput := Fs.relative cwd outputFile in
  try_catch
    (convertJsonToToon inputFile outputFile;;
     push (mkResult true relativeInput (Some relativeOutput) None);;
     console LLog ("   ✅ " +:+ relativeInput +:+ " → " +:+ relativeOutput))
    (λ errorMessage,
       push (mkResult false relativeInput None (Some errorMessage));;
       console LError ("   ❌ " +:+ relativeInput +:+ ": " +:+ errorMessage)).

Definition main : Prog unit :=
  console LLog ("🚀 Starting batch JSON to TOON conversion..." +:+ newline);;
  inputExists ← existsSync INPUT_DIR;
  when (negb inputExists)
    (console LError ("❌ Input directory does not exist: " +:+ Fs.to_string INPUT_DIR);;
     console LLog "   Please create the input_json directory and add JSON files.";;
     exit 1);;
  outputExists ← existsSync OUTPUT_DIR;
  when (negb outputExists)
    (mkdir OUTPUT_DIR;;
     console LLog ("📁 Created output directory: " +:+ Fs.to_string OUTPUT_DIR));;
  jsonFiles ← getJsonFiles INPUT_DIR;
  if bool_decide (length jsonFiles = 0%nat) then
    console LLog "📭 No JSON files found in input_json directory.";;
    console LLog "   Add .json files to the input_json directory and run again."
  else
    console LLog ("📂 Found " +:+ pretty (length jsonFiles)
                  +:+ " JSON file(s) to convert:" +:+ newline);;
    assign [];;
    for_of jsonFiles convert_file;;
    results ← get_locals;
    let successCount := length (filter (λ r, success r = true) results) in
    let failCount := length (filter (λ r, success r = false) results) in
    console LLog (newline +:+ "📊 Conversion Summary:");;
    console LLog ("   ✅ Successful: " +:+ pretty successCount);;
    when (bool_decide (0 < failCount)%nat)
      (console LLog ("   ❌ Failed: " +:+ pretty failCount));;
    console LLog (newline +:+ "🎉 Batch conversion complete!");;
    when (bool_decide (0 < failCount)%nat)
      (exit 1).

(** [main().catch((error) => { console.error('❌ Fatal error:', message);
    process.exit(1) })] *)
Definition on_fatal (e : string) : Prog unit :=
  console LError ("❌ Fatal error: " +:+ e);;
  exit 1.

(** The whole process, from file system [f]. *)
Definition run (f : FS) : nat * World (list ConversionResult) :=
  run_process main on_fatal (mkWorld f [] []).

End Program.

(** ** Vocabulary for statements about this variant *)

Section Vocabulary.
Context `{Externals}.
Variable cwd : path.

(** [main] in two phases: everything before the enumeration of the input
    directory, and everything from it on ([main_phases] below). *)
Definition prepare : Prog unit :=
  console LLog ("🚀 Starting batch JSON to TOON conversion..." +:+ newline);;
  inputExists ← existsSync (INPUT_DIR cwd);
  when (negb inputExists)
    (console LError ("❌ Input directory does not exist: "
                     +:+ Fs.to_string (INPUT_DIR cwd));;
     console LLog "   Please create the input_json directory and add JSON files.";;
     exit 1);;
  outputExists ← existsSync (OUTPUT_DIR cwd);
  when (negb outputExists)
    (mkdir (OUTPUT_DIR cwd);;
     console LLog ("📁 Created output directory: " +:+ Fs.to_string (OUTPUT_DIR cwd))).

Definition summarise : Prog unit :=
  results ← get_locals;
  let successCount := length (filter (λ r, success r = true) results) in
  let failCount := length (filter (λ r, success r = false) results) in
  console LLog (newline +:+ "📊 Conversion Summary:");;
  console LLog ("   ✅ Successful: " +:+ pretty successCount);;
  when (bool_decide (0 < failCount)%nat)
    (console LLog ("   ❌ Failed: " +:+ pretty failCount));;
  console LLog (newline +:+ "🎉 Batch conversion complete!");;
  when (bool_decide (0 < failCount)%nat)
    (exit 1).

Definition convert_all : Prog unit :=
  jsonFiles ← getJsonFiles (INPUT_DIR cwd);
  if bool_decide (length jsonFiles = 0%nat) then
    console LLog "📭 No JSON files found in input_json directory.";;
    console LLog "   Add .json files to the input_json directory and run again."
  else
    console LLog ("📂 Found " +:+ pretty (length jsonFiles)
                  +:+ " JSON file(s) to convert:" +:+ newline);;
    assign [];;
    for_of jsonFiles (convert_file cwd);;
    summarise.

Definition summary_header : string := newline +:+ "📊 Conversion Summary:".

(** What the script prints on its way to the enumeration, and when it
    finds nothing to convert. *)
Definition greeting : Event (list ConversionResult) :=
  EvConsole LLog ("🚀 Starting batch JSON to TOON conversion..." +:+ newline).

Definition missing_input_lines : list (Event (list ConversionResult)) :=
  [EvConsole LError ("❌ Input directory does not exist: "
                     +:+ Fs.to_string (INPUT_DIR cwd));
   EvConsole LLog "   Please create the input_json directory and add JSON files."].

Definition created_line : Event (list ConversionResult) :=
  EvConsole LLog ("📁 Created output directory: " +:+ Fs.to_string (OUTPUT_DIR cwd)).

Definition no_json_lines : list (Event (list ConversionResult)) :=
  [EvConsole LLog "📭 No JSON files found in input_json directory.";
   EvConsole LLog "   Add .json files to the input_json directory and run again."].

Definition failures (results : list ConversionResult) : nat :=
  length (filter (λ r, success r = false) results).

(** What [summarise] prints. *)
Definition summary_lines (results : list ConversionResult)
    : list (Event (list ConversionResult)) :=
  [EvConsole LLog summary_header;
   EvConsole LLog ("   ✅ Successful: "
                   +:+ pretty (length (filter (λ r, success r = true) results)))] ++
  (if bool_decide (0 < failures results)%nat
   then [EvConsole LLog ("   ❌ Failed: " +:+ pretty (failures results))]
   else []) ++
  [EvConsole LLog (newline +:+ "🎉 Batch conversion complete!")].

(** The calls of a run. *)
Definition run_event (f : FS) (ev : Event (list ConversionResult)) : Prop :=
  match ev with
  | EvExists p => p = INPUT_DIR cwd ∨ p = OUTPUT_DIR cwd
  | EvMkdir p => p = OUTPUT_DIR cwd
  | EvReaddir p => p = INPUT_DIR cwd
  | EvReadFile p => ∃ n, p = INPUT_DIR cwd ++ [n]
  | EvEncode p =>
      ∃ n c, p = INPUT_DIR cwd ++ [n]
             ∧ f !! p = Some (NFile c true) ∧ Str.endsWith n ".json" = true
  | EvWriteFile p _ =>
      ∃ n c, p = OUTPUT_DIR cwd ++ [Str.basename n ".json" +:+ ".toon"]
             ∧ f !! (INPUT_DIR cwd ++ [n]) = Some (NFile c true)
             ∧ Str.endsWith n ".json" = true
  | EvConsole _ _ | EvAssign _ => True
  | _ => False
  end.

(** The execution paths of [convert_file], one constructor each. *)
Section Table.
Variable inputFile : path.
Variable w : World (list ConversionResult).

Let out :=
  OUTPUT_DIR cwd ++ [Str.basename (List.last inputFile EmptyString) ".json" +:+ ".toon"].
Let relIn := Fs.relative cwd inputFile.
Let relOut := Fs.relative cwd out.
Let results := locals w.
Let eopts := mkEncodeOptions None (Some 2) (Some "off") None.
Let failure (reason : string) := mkResult false relIn None (Some reason).

Inductive file_step : World (list ConversionResult) → Outcome → Prop :=
| file_read_error reason :
    Fs.readFile inputFile (fs w) = inl reason →
    file_step
      (mkWorld (fs w)
         (trace w ++
            [EvReadFile inputFile;
             EvAssign (results ++ [failure reason]);
             EvConsole LError ("   ❌ " +:+ relIn +:+ ": " +:+ reason)])
         (results ++ [failure reason]))
      (Failed reason)
| file_parse_error jsonContent e :
    Fs.readFile inputFile (fs w) = inr jsonContent →
    JSON_parse jsonContent = inl e →
    let reason := "Failed to parse JSON: " +:+ e in
    file_step
      (mkWorld (fs w)
         (trace w ++
            [EvReadFile inputFile;
             EvAssign (results ++ [failure reason]);
             EvConsole LError ("   ❌ " +:+ relIn +:+ ": " +:+ reason)])
         (results ++ [failure reason]))
      (Failed reason)
| file_encode_error jsonContent data reason :
    Fs.readFile inputFile (fs w) = inr jsonContent →
    JSON_parse jsonContent = inr data →
    encode data eopts = inl reason →
    file_step
      (mkWorld (fs w)
         (trace w ++
            [EvReadFile inputFile; EvEncode inputFile;
             EvAssign (results ++ [failure reason]);
             EvConsole LError ("   ❌ " +:+ relIn +:+ ": " +:+ reason)])
         (results ++ [failure reason]))
      (Failed reason)
| file_write_error jsonContent data toonOutput reason :
    Fs.readFile inputFile (fs w) = inr jsonContent →
    JSON_parse jsonContent = inr data →
    encode data eopts = inr toonOutput →
    Fs.writeFile out toonOutput (fs w) = inl reason →
    file_step
      (mkWorld (fs w)
         (trace w ++
            [EvReadFile inputFile; EvEncode inputFile;
             EvWriteFile out toonOutput;
             EvAssign (results ++ [failure reason]);
             EvConsole LError ("   ❌ " +:+ relIn +:+ ": " +:+ reason)])
         (results ++ [failure reason]))
      (Failed reason)
| file_converted jsonContent data toonOutput f' :
    Fs.readFile inputFile (fs w) = inr jsonContent →
    JSON_parse jsonContent = inr data →
    encode data eopts = inr toonOutput →
    Fs.writeFile out toonOutput (fs w) = inr f' →
    file_step
      (mkWorld f'
         (trace w ++
            [EvReadFile inputFile; EvEncode inputFile;
             EvWriteFile out toonOutput;
             EvAssign (results ++ [mkResult true relIn (Some relOut) None]);
             EvConsole LLog ("   ✅ " +:+ relIn +:+ " → " +:+ relOut)])
         (results ++ [mkResult true relIn (Some relOut) None]))
      Converted.
End Table.

(** The entries [getJsonFiles] keeps. *)
Definition json_file (e : Dirent) : bool :=
  dirent_isFile e && Str.endsWith (name e) ".json".

(** The options object [convertJsonToToon] hands to the encoder. *)
Definition encoder_options : EncodeOptions :=
  mkEncodeOptions None (Some 2) (Some "off") None.

Definition outputName (n : string) : string := Str.basename n ".json" +:+ ".toon".

Definition outputPath (n : string) : path := OUTPUT_DIR cwd ++ [outputName n].

(** The text the loop has to write for the entry named [n]: the encoding
    of the document in the file, when the entry is a readable regular
    file whose name ends in [.json] and whose content parses and
    encodes. *)
Definition conversion (f : FS) (n : string) : option string :=
  let p := INPUT_DIR cwd ++ [n] in
  if (is_regular f p && Str.endsWith n ".json")%bool then
    jsonContent ← returned (Fs.readFile p f);
    data ← returned (JSON_parse jsonContent);
    returned (encode data encoder_options)
  else None.

(** What handling the entry named [n] does to the file system. *)
Definition entry_effect : FS → string → FS :=
  write_effect (OUTPUT_DIR cwd) outputName conversion.

(** Every [writeFile] puts the encoding of an entry at its output path. *)
Definition write_is_encoding (f : FS) (ev : Event (list ConversionResult)) : Prop :=
  match ev with
  | EvWriteFile p text => ∃ n, p = outputPath n ∧ conversion f n = Some text
  | _ => True
  end.

End Vocabulary.

End Script.

(** * A concrete instance of the collaborators, for closed examples

    [Ref.JSON_parse] follows the JSON grammar on ASCII text;
    [Ref.parseArgs] follows [util.parseArgs] in strict mode for the option
    table of [Part000]; [Ref.encode] is a stand-in for the TOON encoder: it
    renders flat objects as [key: value] lines and rejects everything else.
    The theorems on the scripts do not depend on this instance. *)

Module Ref.

#[local] Set Warnings "-register-all".

Inductive json :=
| JNull
| JBool (b : bool)
| JNum (lexeme : string)
| JStr (s : string)
| JArr (items : list json)
| JObj (members : list (string * json)).

Definition is_ws (c : ascii) : bool :=
  let n := nat_of_ascii c in
  ((n =? 32) || (n =? 9) || (n =? 10) || (n =? 13))%nat%bool.

Fixpoint skip_ws (s : string) : string :=
  match s with
  | String c s' => if is_ws c then skip_ws s' else s
  | EmptyString => s
  end.

Fixpoint take_digits (s : string) : string * string :=
  match s with
  | String c s' =>
      if Str.is_digit c
      then let '(d, r) := take_digits s' in (String c d, r)
      else (EmptyString, s)
  | EmptyString => (EmptyString, s)
  end.

Definition is_hex (c : ascii) : bool :=
  let n := nat_of_ascii c in
  (Str.is_digit c || ((65 <=? n) && (n <=? 70)) || ((97 <=? n) && (n <=? 102)))%nat%bool.

(** The characters of a string literal after its opening quote. *)
Fixpoint string_body (s : string) : option (string * string) :=
  match s with
  | EmptyString => None
  | String "034" r => Some (EmptyString, r)
  | String "092" (String e r) =>
      let keep (c : ascii) :=
        '(t, r') ← string_body r; Some (String c t, r') in
      match e with
      | "034"%char => keep "034"%char
      | "092"%char => keep "092"%char
      | "/"%char => keep "/"%char
      | "b"%char => keep "008"%char
      | "f"%char => keep "012"%char
      | "n"%char => keep "010"%char
      | "r"%char => keep "013"%char
      | "t"%char => keep "009"%char
      | "u"%char =>
          match r with
          | String a (String b (String c (String d r')) as r3) =>
              if (is_hex a && is_hex b && is_hex c && is_hex d)%bool
              then '(t, r'') ← string_body r';
                   Some (String "092" (String "u" (String a (String b (String c (String d t))))), r'')
              else None
          | _ => None
          end
      | _ => None
      end
  | String c r =>
      if (nat_of_ascii c <? 32)%nat then None
      else '(t, r') ← string_body r; Some (String c t, r')
  end.

(** A number: [-? int frac? exp?]; the lexeme is kept as it is. *)
Definition number (s : string) : option (string * string) :=
  let '(sign, s1) :=
    match s with String "-" r => ("-", r) | _ => (EmptyString, s) end in
  let '(int, s2) := take_digits s1 in
  if String.eqb int EmptyString then None
  else if (String.prefix "0" int && (1 <? String.length int)%nat)%bool then None
  else
    '(frac, s3) ←
      match s2 with
      | String "." r =>
          let '(d, r') := take_digits r in
          if String.eqb d EmptyString then None else Some ("." +:+ d, r')
      | _ => Some (EmptyString, s2)
      end;
    '(exp, s4) ←
      match s3 with
      | String e r =>
          if (Ascii.eqb e "e" || Ascii.eqb e "E")%bool then
            let '(sg, r1) :=
              match r with
              | String "+" r' => ("+", r')
              | String "-" r' => ("-", r')
              | _ => (EmptyString, r)
              end in
            let '(d, r2) := take_digits r1 in
            if String.eqb d EmptyString then None
            else Some (String e sg +:+ d, r2)
          else Some (EmptyString, s3)
      | _ => Some (EmptyString, s3)
      end;
    Some (sign +:+ int +:+ frac +:+ exp, s4).

Definition literal (word : string) (v : json) (s : string) : option (json * string) :=
  if String.prefix word s
  then Some (v, String.substring (String.length word)
                  (String.length s - String.length word) s)
  else None.

(** One value, then the rest of the input.  [fuel] bounds the nesting
    and the number of items; the length of the input is always enough. *)
Fixpoint value (fuel : nat) (s : string) : option (json * string) :=
  match fuel with
  | O => None
  | S fuel =>
      match skip_ws s with
      | String "{" r =>
          match skip_ws r with
          | String "}" r' => Some (JObj [], r')
          | r' => '(ms, r'') ← members fuel r'; Some (JObj ms, r'')
          end
      | String "[" r =>
          match skip_ws r with
          | String "]" r' => Some (JArr [], r')
          | r' => '(xs, r'') ← elements fuel r'; Some (JArr xs, r'')
          end
      | String "034" r => '(t, r') ← string_body r; Some (JStr t, r')
      | String "t" _ as s' => literal "true" (JBool true) s'
      | String "f" _ as s' => literal "false" (JBool false) s'
      | String "n" _ as s' => literal "null" JNull s'
      | s' => '(n, r) ← number s'; Some (JNum n, r)
      end
  end
with elements (fuel : nat) (s : string) : option (list json * string) :=
  match fuel with
  | O => None
  | S fuel =>
      '(x, r) ← value fuel s;
      match skip_ws r with
      | String "," r' => '(xs, r'') ← elements fuel r'; Some (x :: xs, r'')
      | String "]" r' => Some ([x], r')
      | _ => None
      end
  end
with members (fuel : nat) (s : string) : option (list (string * json) * string) :=
  match fuel with
  | O => None
  | S fuel =>
      match skip_ws s with
      | String "034" r =>
          '(k, r1) ← string_body r;
          match skip_ws r1 with
          | String ":" r2 =>
              '(x, r3) ← value fuel r2;
              match skip_ws r3 with
              | String "," r4 => '(ms, r5) ← members fuel r4; Some ((k, x) :: ms, r5)
              | String "}" r4 => Some ([(k, x)], r4)
              | _ => None
              end
          | _ => None
          end
      | _ => None
      end
  end.

Definition JSON_parse (s : string) : string + json :=
  match value (S (String.length s)) s with
  | Some (v, r) =>
      if String.eqb (skip_ws r) EmptyString then inr v
      else inl "Unexpected non-whitespace character after JSON"
  | None => inl "Unexpected token in JSON"
  end.

Definition primitive (v : json) : option string :=
  match v with
  | JNull => Some "null"
  | JBool true => Some "true"
  | JBool false => Some "false"
  | JNum n => Some n
  | JStr s => Some s
  | _ => None
  end.

Fixpoint lines (ms : list (string * json)) : option (list string) :=
  match ms with
  | [] => Some []
  | (k, v) :: ms' =>
      t ← primitive v; ls ← lines ms'; Some ((k +:+ ": " +:+ t) :: ls)
  end.

Definition encode (d : json) (o : EncodeOptions) : string + string :=
  match d with
  | JObj ms =>
      match lines ms with
      | Some ls => inr (Str.join newline ls)
      | None => inl "nested values are not supported by this encoder"
      end
  | _ =>
      match primitive d with
      | Some t => inr t
      | None => inl "arrays are not supported by this encoder"
      end
  end.

Definition empty_values : ParsedValues :=
  mkParsedValues None None None None false false.

(** Store the value of string option [opt]; [None] for an unknown name. *)
Definition set_string (opt value : string) (v : ParsedValues) : option ParsedValues :=
  let '(mkParsedValues i d k f c b) := v in
  if String.eqb opt "indent" then Some (mkParsedValues (Some value) d k f c b)
  else if String.eqb opt "delimiter" then Some (mkParsedValues i (Some value) k f c b)
  else if String.eqb opt "keyFolding" then Some (mkParsedValues i d (Some value) f c b)
  else if String.eqb opt "flattenDepth" then Some (mkParsedValues i d k (Some value) c b)
  else None.

Definition set_flag (opt : string) (v : ParsedValues) : option ParsedValues :=
  let '(mkParsedValues i d k f c b) := v in
  if String.eqb opt "clean" then Some (mkParsedValues i d k f true b)
  else if String.eqb opt "verbose" then Some (mkParsedValues i d k f c true)
  else None.

Definition option_like (s : string) : bool :=
  ((1 <? String.length s)%nat && String.prefix "-" s)%bool.

Fixpoint all_v (s : string) : bool :=
  match s with
  | EmptyString => true
  | String c s' => (Ascii.eqb c "v" && all_v s')%bool
  end.

(** Split [name=value] at the first [=] found from position 1 on. *)
Fixpoint split_eq (first : bool) (s : string) : option (string * string) :=
  match s with
  | EmptyString => None
  | String c s' =>
      if (negb first && Ascii.eqb c "=")%bool then Some (EmptyString, s')
      else '(n, v) ← split_eq false s'; Some (String c n, v)
  end.

Fixpoint parse_from (args : list string) (v : ParsedValues) : string + ParsedValues :=
  match args with
  | [] => inr v
  | arg :: rest =>
      if String.eqb arg "--" then
        match rest with
        | [] => inr v
        | p :: _ => inl ("Unexpected argument '" +:+ p +:+ "'. This command does not take positional arguments")
        end
      else if (String.prefix "--" arg)%bool then
        let body := String.substring 2 (String.length arg - 2) arg in
        match split_eq true body with
        | Some (opt, value) =>
            match set_string opt value v with
            | Some v' => parse_from rest v'
            | None =>
                match set_flag opt v with
                | Some _ => inl ("Option '--" +:+ opt +:+ "' does not take an argument")
                | None => inl ("Unknown option '--" +:+ opt +:+ "'")
                end
            end
        | None =>
            match set_flag body v with
            | Some v' => parse_from rest v'
            | None =>
                match set_string body EmptyString v with
                | None => inl ("Unknown option '--" +:+ body +:+ "'")
                | Some _ =>
                    match rest with
                    | [] => inl ("Option '--" +:+ body +:+ " <value>' argument missing")
                    | value :: rest' =>
                        if option_like value
                        then inl ("Option '--" +:+ body +:+ " <value>' argument is ambiguous.")
                        else match set_string body value v with
                             | Some v' => parse_from rest' v'
                             | None => inl ("Unknown option '--" +:+ body +:+ "'")
                             end
                    end
                end
            end
        end
      else if option_like arg then
        if all_v (String.substring 1 (String.length arg - 1) arg)
        then match set_flag "verbose" v with
             | Some v' => parse_from rest v'
             | None => inl "Unknown option"
             end
        else inl ("Unknown option '" +:+ arg +:+ "'")
      else inl ("Unexpected argument '" +:+ arg +:+ "'. This command does not take positional arguments")
  end.

Definition parseArgs (argv : list string) : string + ParsedValues :=
  parse_from argv empty_values.

Definition externals : Externals :=
  Build_Externals json JSON_parse encode parseArgs.

End Ref.

(** * Concrete worlds for the closed examples *)

Module Examples.

Definition cwd : path := ["work"].

Definition valid_json : string := "{" +:+ Str.dquote +:+ "x" +:+ Str.dquote +:+ ":1}".
Definition invalid_json : string := "{x:}".

(** Only the working directory. *)
Definition fs_bare : FS := {[ ["work"] := NDir ]}.

(** An empty input directory. *)
Definition fs_empty_input : FS := <[ ["work"; "input_json"] := NDir ]> fs_bare.

(** [input_json] holds [a.json] (valid) and [b.json] (invalid). *)
Definition fs_scenario : FS :=
  <[ ["work"; "input_json"; "a.json"] := NFile valid_json true ]>
    (<[ ["work"; "input_json"; "b.json"] := NFile invalid_json true ]> fs_empty_input).

(** [input_json] holds the invalid [b.json] alone. *)
Definition fs_one_bad : FS :=
  <[ ["work"; "input_json"; "b.json"] := NFile invalid_json true ]> fs_empty_input.

(** [input_json] holds the valid [a.json] alone. *)
Definition fs_one_good : FS :=
  <[ ["work"; "input_json"; "a.json"] := NFile valid_json true ]> fs_empty_input.

(** The scenario, with a stale [old.toon] and a stale directory in
    [output_toon]. *)
Definition fs_stale : FS :=
  <[ ["work"; "output_toon"; "old.toon"] := NFile "stale" true ]>
    (<[ ["work"; "output_toon"; "sub"; "deep.toon"] := NFile "stale" true ]>
       (<[ ["work"; "output_toon"; "sub"] := NDir ]>
          (<[ ["work"; "output_toon"] := NDir ]> fs_scenario))).

(** A directory, a text file, a socket and an upper-case [.JSON] next to
    the two files of the scenario. *)
Definition fs_mixed : FS :=
  <[ ["work"; "input_json"; "nested"] := NDir ]>
    (<[ ["work"; "input_json"; "notes.txt"] := NFile "hello" true ]>
       (<[ ["work"; "input_json"; "sock"] := NOther false ]>
          (<[ ["work"; "input_json"; "C.JSON"] := NFile valid_json true ]> fs_scenario))).

(** [input_json] holds [locked.json] alone, which may not be read. *)
Definition fs_locked : FS :=
  <[ ["work"; "input_json"; "locked.json"] := NFile valid_json false ]> fs_empty_input.

Definition part000 (argv : list string) (f : FS) :=
  @Part000.run Ref.externals cwd argv f.

Definition script (f : FS) := @Script.run Ref.externals cwd f.

End Examples.

(** * Facts about the file system *)

Section FsFacts.
Implicit Types (f : FS) (p q d : path).

Lemma child_name_spec d k c : Fs.child_name d k = Some c ↔ k = d ++ [c].
Proof.
  revert k. induction d as [|x d IH]; intros k; simpl.
  - destruct k as [|y [|z k]]; split; intros; simplify_eq/=; done.
  - destruct k as [|y k]; [split; intros; simplify_eq/=|].
    case_decide; subst; rewrite ?IH; split; intros; simplify_eq/=; done.
Qed.

Lemma rm_rf_lookup p q f :
  Fs.rm_rf p f !! q = if decide (p `prefix_of` q) then None else f !! q.
Proof.
  unfold Fs.rm_rf. case_decide as Hp.
  - apply map_lookup_filter_None. right. intros n _ Hn. simpl in Hn. done.
  - destruct (f !! q) as [n|] eqn:E.
    + apply map_lookup_filter_Some. done.
    + apply map_lookup_filter_None. by left.
Qed.

Lemma on_way_cons pre c rest q :
  on_way pre (c :: rest) q ↔ q = pre ++ [c] ∨ on_way (pre ++ [c]) rest q.
Proof.
  unfold on_way. split.
  - intros (r1 & r2 & Hr & Hne & ->). destruct r1 as [|x r1]; [done|].
    simplify_eq/=. destruct r1 as [|y r1]; [by left|right].
    exists (y :: r1), r2. by rewrite <-app_assoc.
  - intros [->|(r1 & r2 & -> & Hne & ->)].
    + by exists [c], rest.
    + exists (c :: r1), r2. by rewrite <-app_assoc.
Qed.

Lemma on_way_nil pre q : ¬ on_way pre [] q.
Proof. intros (r1 & r2 & Hr & Hne & _). by destruct r1. Qed.

Lemma on_way_root p q : on_way [] p q ↔ q `prefix_of` p ∧ q ≠ [].
Proof.
  unfold on_way. split.
  - intros (r1 & r2 & -> & Hne & ->). split; [by exists r2|done].
  - intros [[r2 ->] Hne]. by exists q, r2.
Qed.

Lemma on_way_not_self pre rest : ¬ on_way pre rest pre.
Proof.
  intros (r1 & r2 & _ & Hne & Heq). destruct r1; [done|].
  apply (f_equal length) in Heq. rewrite length_app in Heq. simpl in Heq. lia.
Qed.

Lemma mkdir_from_spec pre rest f f' :
  Fs.mkdir_from pre rest f = inr f' →
  (∀ q, on_way pre rest q → f' !! q = Some NDir ∧ (f !! q = None ∨ f !! q = Some NDir))
  ∧ (∀ q, ¬ on_way pre rest q → f' !! q = f !! q).
Proof.
  revert pre f. induction rest as [|c rest IH]; intros pre f; simpl.
  - intros [= ->]. split; [|done]. intros q []%on_way_nil.
  - pose proof (on_way_not_self (pre ++ [c]) rest) as Hself.
    destruct (f !! (pre ++ [c])) as [[| |]|] eqn:E; try done.
    + intros [Hon Hoff]%IH. split.
      * intros q [->|Hq]%on_way_cons; [|by apply Hon].
        rewrite (Hoff _ Hself). eauto.
      * intros q Hq. apply Hoff. intros Hw. apply Hq, on_way_cons. by right.
    + intros [Hon Hoff]%IH. split.
      * intros q [->|Hq]%on_way_cons.
        -- rewrite (Hoff _ Hself), lookup_insert_eq. eauto.
        -- destruct (Hon _ Hq) as [-> Hf]. split; [done|].
           rewrite lookup_insert_ne in Hf; [done|]. by intros <-.
      * intros q Hq. rewrite Hoff.
        -- apply lookup_insert_ne. intros <-. apply Hq, on_way_cons. by left.
        -- intros Hw. apply Hq, on_way_cons. by right.
Qed.

Lemma mkdir_from_ok pre rest f :
  (∀ q, on_way pre rest q → f !! q = None ∨ f !! q = Some NDir) →
  ∃ f', Fs.mkdir_from pre rest f = inr f'.
Proof.
  revert pre f. induction rest as [|c rest IH]; intros pre f Hc; simpl; [eauto|].
  pose proof (on_way_not_self (pre ++ [c]) rest) as Hself.
  assert (on_way pre (c :: rest) (pre ++ [c])) as Hc0 by (apply on_way_cons; by left).
  destruct (Hc _ Hc0) as [E|E]; rewrite E.
  - apply IH. intros q Hq. rewrite lookup_insert_ne; [|by intros <-].
    apply Hc, on_way_cons. by right.
  - apply IH. intros q Hq. apply Hc, on_way_cons. by right.
Qed.

(** [mkdir -p] succeeds exactly when nothing but directories is in the
    way; it then makes every directory on the way, and changes no node
    that was there. *)
Lemma mkdir_p_ok p f : creatable f p → ∃ f', Fs.mkdir_p p f = inr f'.
Proof.
  intros Hc. apply mkdir_from_ok. intros q [??]%on_way_root. by apply Hc.
Qed.

Lemma mkdir_p_spec p f f' :
  Fs.mkdir_p p f = inr f' →
  creatable f p
  ∧ (∀ q, q `prefix_of` p → q ≠ [] → f' !! q = Some NDir)
  ∧ (∀ q, ¬ q `prefix_of` p → f' !! q = f !! q)
  ∧ (∀ q, is_Some (f !! q) → f' !! q = f !! q).
Proof.
  intros [Hon Hoff]%mkdir_from_spec. split_and!.
  - intros q ??. by apply Hon, on_way_root.
  - intros q ??. by apply Hon, on_way_root.
  - intros q Hq. apply Hoff. by intros [??]%on_way_root.
  - intros q Hq. destruct (decide (q `prefix_of` p ∧ q ≠ [])) as [Hw|Hw].
    + apply on_way_root, Hon in Hw as [-> [E|E]]; [|done].
      rewrite E in Hq. by destruct Hq.
    + apply Hoff. by rewrite on_way_root.
Qed.

Lemma mkdir_p_creatable p q f f' :
  Fs.mkdir_p p f = inr f' → creatable f q → creatable f' q.
Proof.
  intros (_ & Hon & Hoff & _)%mkdir_p_spec Hc r Hr Hne.
  destruct (decide (r `prefix_of` p)) as [Hp|Hp].
  - right. by apply Hon.
  - rewrite (Hoff _ Hp). by apply Hc.
Qed.

(** The entries of a directory: one per child, no name twice. *)
Lemma readdir_spec d f es :
  Fs.readdir d f = inr es →
  f !! d = Some NDir
  ∧ (∀ e, e ∈ es ↔ ∃ n, f !! (d ++ [name e]) = Some n ∧ dirent_isFile e = Fs.is_file n)
  ∧ NoDup (name <$> es).
Proof.
  unfold Fs.readdir. destruct (f !! d) as [[| |]|] eqn:Ed; try done.
  intros [= <-]. split; [done|]. split.
  - intros e. rewrite list_elem_of_omap. split.
    + intros ([k n] & Hk%elem_of_map_to_list & He). simpl in He.
      destruct (Fs.child_name d k) as [c|] eqn:Ec; simplify_eq/=.
      apply child_name_spec in Ec as ->. eauto.
    + intros (n & Hn & Hf). exists (d ++ [name e], n). split.
      * by apply elem_of_map_to_list.
      * simpl. pose proof (proj2 (child_name_spec d (d ++ [name e]) (name e)) eq_refl) as ->.
        simpl. destruct e. simpl in *. by rewrite Hf.
  - pose proof (NoDup_fst_map_to_list f) as Hnd.
    induction (map_to_list f) as [|[k n] l IH]; simpl; [constructor|].
    simpl in Hnd. apply NoDup_cons in Hnd as [Hk Hnd].
    destruct (Fs.child_name d k) as [c|] eqn:Ec; simpl; [|by apply IH].
    apply child_name_spec in Ec as ->.
    apply NoDup_cons. split; [|by apply IH].
    intros (e & He1 & He2)%list_elem_of_fmap.
    apply list_elem_of_omap in He2 as ([k' n'] & Hin & He). simpl in He.
    destruct (Fs.child_name d k') as [c'|] eqn:Ec'; simplify_eq/=.
    apply child_name_spec in Ec' as ->.
    apply Hk. apply list_elem_of_fmap. by exists (d ++ [c'], n').
Qed.

Lemma readdir_ok d f : f !! d = Some NDir → ∃ es, Fs.readdir d f = inr es.
Proof. unfold Fs.readdir. intros ->. eauto. Qed.

Lemma readdir_nil d f :
  f !! d = Some NDir → (∀ n, f !! (d ++ [n]) = None) → Fs.readdir d f = inr [].
Proof.
  intros Hd Hn. destruct (readdir_ok d f Hd) as [es Hes]. rewrite Hes.
  destruct es as [|e es]; [done|].
  apply readdir_spec in Hes as (_ & Hin & _).
  destruct (proj1 (Hin e)) as (n & Hsome & _); [by left|].
  by rewrite Hn in Hsome.
Qed.

Lemma stat_isFile_regular p f : Fs.stat_isFile p f = inr true ↔ is_regular f p = true.
Proof.
  unfold Fs.stat_isFile, is_regular.
  destruct (f !! p) as [[| |[|]]|]; simpl; split; intros; simplify_eq; done.
Qed.

Lemma readFile_Some p f c : Fs.readFile p f = inr c ↔ f !! p = Some (NFile c true).
Proof.
  unfold Fs.readFile.
  destruct (f !! p) as [[? [|]| |]|]; split; intros; simplify_eq; done.
Qed.

(** A successful write changes the node at its path, and no other. *)
Lemma writeFile_spec p data f f' :
  Fs.writeFile p data f = inr f' →
  (∃ r, f' !! p = Some (NFile data r)) ∧ ∀ q, q ≠ p → f' !! q = f !! q.
Proof.
  unfold Fs.writeFile.
  destruct (f !! Fs.parent p) as [[| |]|]; try done.
  destruct (f !! p) as [[c r| |]|]; intros; simplify_eq.
  - split; [exists r; apply lookup_insert_eq|]. intros q Hq. by apply lookup_insert_ne.
  - split; [exists true; apply lookup_insert_eq|]. intros q Hq. by apply lookup_insert_ne.
Qed.

Lemma under_prefix d q : under d q → d `prefix_of` q.
Proof. intros (n & r & ->). by eexists. Qed.

Lemma under_not_prefix d q : under d q → ¬ q `prefix_of` d.
Proof.
  intros (n & r & ->) [k Hk]. apply (f_equal length) in Hk.
  rewrite !length_app in Hk. simpl in Hk. lia.
Qed.

Lemma under_child d n : under d (d ++ [n]).
Proof. by exists n, []. Qed.

(** Two different children of one directory [c]: nothing is inside both,
    and no ancestor of one is inside the other. *)
Lemma siblings_apart (c : path) a b q :
  a ≠ b → under (c ++ [a]) q → ¬ (c ++ [b]) `prefix_of` q.
Proof.
  intros Hab (n & r & ->) [k Hk]. rewrite <-!app_assoc in Hk.
  apply app_inv_head in Hk. simplify_eq/=.
Qed.

Lemma siblings_not_prefix (c : path) a b q :
  a ≠ b → under (c ++ [a]) q → ¬ q `prefix_of` (c ++ [b]).
Proof.
  intros Hab (n & r & ->) [k Hk]. apply (f_equal length) in Hk.
  rewrite !length_app in Hk. simpl in Hk. lia.
Qed.

Lemma creatableb_spec f p : creatableb f p = true → creatable f p.
Proof.
  unfold creatableb. rewrite forallb_forall. intros Hall q [k ->] Hne.
  destruct q as [|x q]; [done|].
  specialize (Hall (length q)).
  rewrite <-(length_cons x q), take_app_length in Hall.
  assert (In (length q) (seq 0 (length ((x :: q) ++ k)))) as Hk.
  { apply in_seq. rewrite length_app. simpl. lia. }
  specialize (Hall Hk).
  destruct (f !! (x :: q)) as [[| |]|] eqn:E; auto; discriminate Hall.
Qed.

Lemma childless_spec f d : childless f d = true → ∀ n, f !! (d ++ [n]) = None.
Proof.
  unfold childless. rewrite forallb_forall. intros Hall n.
  destruct (f !! (d ++ [n])) as [nd|] eqn:E; [|done].
  apply elem_of_map_to_list, list_elem_of_In, Hall in E.
  apply bool_decide_eq_true in E. simpl in E.
  by rewrite (proj2 (child_name_spec d (d ++ [n]) n)) in E.
Qed.

End FsFacts.

(** * Rules for [preserves]

    The rules follow the structure of a program; [R] is reflexive and
    transitive. *)

Section Preserves.
Context {L : Type}.
Variable R : World L → World L → Prop.
Hypothesis R_refl : ∀ w, R w w.
Hypothesis R_trans : ∀ w1 w2 w3, R w1 w2 → R w2 w3 → R w1 w3.

Lemma preserves_ret {A} (a : A) : preserves R (ret a).
Proof. intros w r w' [= <- <-]. apply R_refl. Qed.

Lemma preserves_throw {A} (e : string) : preserves R (@throw L A e).
Proof. intros w r w' [= <- <-]. apply R_refl. Qed.

Lemma preserves_exit {A} (c : nat) : preserves R (@exit L A c).
Proof. intros w r w' [= <- <-]. apply R_refl. Qed.

Lemma preserves_lift {A} (x : string + A) : preserves R (lift x).
Proof. destruct x; [apply preserves_throw|apply preserves_ret]. Qed.

Lemma preserves_get_locals : preserves R get_locals.
Proof. intros w r w' [= <- <-]. apply R_refl. Qed.

Lemma preserves_bind {A B} (m : M L A) (k : A → M L B) :
  preserves R m → (∀ a, preserves R (k a)) → preserves R (m ≫= k).
Proof.
  intros Hm Hk w r w'. unfold mbind, M_bind, bind.
  destruct (m w) as [[a|e|c] w1] eqn:E; intros Hr.
  - eapply R_trans; [by eapply Hm|by eapply Hk].
  - simplify_eq. by eapply Hm.
  - simplify_eq. by eapply Hm.
Qed.

(** The same, with what is known about the value [m] returns. *)
Lemma preserves_bind_val {A B} (Q : A → Prop) (m : M L A) (k : A → M L B) :
  (∀ w a w', m w = (Ok a, w') → Q a) →
  preserves R m → (∀ a, Q a → preserves R (k a)) → preserves R (m ≫= k).
Proof.
  intros HQ Hm Hk w r w'. unfold mbind, M_bind, bind.
  destruct (m w) as [[a|e|c] w1] eqn:E; intros Hr.
  - eapply R_trans; [by eapply Hm|]. eapply Hk; [|done]. by eapply HQ.
  - simplify_eq. by eapply Hm.
  - simplify_eq. by eapply Hm.
Qed.

Lemma preserves_try_catch {A} (m : M L A) (h : string → M L A) :
  preserves R m → (∀ e, preserves R (h e)) → preserves R (try_catch m h).
Proof.
  intros Hm Hh w r w'. unfold try_catch.
  destruct (m w) as [[a|e|c] w1] eqn:E; intros Hr.
  - simplify_eq. by eapply Hm.
  - eapply R_trans; [by eapply Hm|by eapply Hh].
  - simplify_eq. by eapply Hm.
Qed.

Lemma preserves_when (c : bool) (m : M L unit) : preserves R m → preserves R (when c m).
Proof. destruct c; [done|]. intros _. apply preserves_ret. Qed.

Lemma preserves_for_of {A} (l : list A) (body : A → M L unit) :
  (∀ x, x ∈ l → preserves R (body x)) → preserves R (for_of l body).
Proof.
  induction l as [|x l IH]; intros Hb; simpl; [apply preserves_ret|].
  apply (preserves_bind (body x) (λ _, for_of l body)).
  - apply Hb. by left.
  - intros _. apply IH. intros y Hy. apply Hb. by right.
Qed.

(** The last world of a process is related to its first. *)
Lemma preserves_run_process (main : M L unit) (handler : string → M L unit)
    (w : World L) :
  preserves R main → (∀ e, preserves R (handler e)) →
  R w (run_process main handler w).2.
Proof.
  intros Hm Hh. unfold run_process. simpl.
  destruct (try_catch main handler w) as [r w'] eqn:E. simpl.
  eapply preserves_try_catch; eauto.
Qed.

(** A loop runs its body on the items one after the other. *)
Lemma for_of_app {A} (l1 l2 : list A) (body : A → M L unit) (w : World L) :
  for_of (l1 ++ l2) body w =
  match for_of l1 body w with
  | (Ok _, w1) => for_of l2 body w1
  | (Throw e, w1) => (Throw e, w1)
  | (Exit c, w1) => (Exit c, w1)
  end.
Proof.
  revert w. induction l1 as [|x l1 IH]; intros w; simpl; [done|].
  unfold bind. destruct (body x w) as [[[]|e|c] w1]; [apply IH|done..].
Qed.

End Preserves.

(** * Tracking what a computation does

    [respects P m]: whatever [m] does, its calls satisfy [P] and account for
    every change of the file system.  [P] must not depend on what the
    tracked calls change. *)

Section Tracking.
Context {L : Type}.
Variable P : FS → Event L → Prop.
Variable IN : path.

Hypothesis P_frame :
  ∀ f f' ev, (∀ q, under IN q → f' !! q = f !! q) → P f ev → P f' ev.
Hypothesis P_safe : ∀ f ev q, P f ev → under IN q → ¬ touches ev q.

Lemma tracked_refl w : tracked P w w.
Proof. exists []. rewrite app_nil_r. split_and!; [done|constructor|done]. Qed.

Lemma tracked_input w w' q : tracked P w w' → under IN q → fs w' !! q = fs w !! q.
Proof.
  intros (t & _ & HP & Hfs) Hq. apply Hfs. intros ev Hev.
  rewrite Forall_forall in HP. eapply P_safe; eauto.
Qed.

Lemma tracked_trans w1 w2 w3 : tracked P w1 w2 → tracked P w2 w3 → tracked P w1 w3.
Proof.
  intros H12 H23. pose proof (λ q, tracked_input _ _ q H12) as Hin.
  destruct H12 as (t1 & Ht1 & HP1 & Hfs1), H23 as (t2 & Ht2 & HP2 & Hfs2).
  exists (t1 ++ t2). split_and!.
  - by rewrite Ht2, Ht1, app_assoc.
  - apply Forall_app. split; [done|].
    eapply Forall_impl; [exact HP2|]. intros ev. apply P_frame.
    intros q Hq. symmetry. by apply Hin.
  - intros q Hq. rewrite Hfs2, Hfs1; [done|..];
      intros ev Hev; apply Hq, elem_of_app; auto.
Qed.

Lemma tracked_step (w : World L) (ev : Event L) (f' : FS) (l' : L) :
  P (fs w) ev →
  (∀ q, ¬ touches ev q → f' !! q = fs w !! q) →
  tracked P w (mkWorld f' (trace w ++ [ev]) l').
Proof.
  intros HP Hfs. exists [ev]. split_and!; [done|by constructor|].
  intros q Hq. apply Hfs, Hq. by left.
Qed.

Lemma respects_console (lvl : Level) (msg : string) :
  (∀ f, P f (EvConsole lvl msg)) → respects P (console lvl msg).
Proof. intros HP w r w' [= <- <-]. by apply tracked_step. Qed.

Lemma respects_assign (l : L) : (∀ f, P f (EvAssign l)) → respects P (assign l).
Proof. intros HP w r w' [= <- <-]. by apply tracked_step. Qed.

Lemma respects_fs_read {A} (ev : Event L) (op : FS → string + A) :
  (∀ f, P f ev) → respects P (fs_read ev op).
Proof.
  intros HP w r w'. unfold fs_read, lift, throw, ret.
  destruct (op (fs w)); intros [= <- <-]; by apply tracked_step.
Qed.

Lemma respects_mkdir (p : path) : (∀ f, P f (EvMkdir p)) → respects P (mkdir p).
Proof.
  intros HP w r w'. unfold mkdir, fs_write.
  destruct (Fs.mkdir_p p (fs w)) as [e|f'] eqn:E; intros [= <- <-].
  - by apply tracked_step.
  - apply tracked_step; [done|]. simpl. intros q Hq.
    apply mkdir_p_spec in E as (_ & _ & Hoff & _). by apply Hoff.
Qed.

Lemma respects_rm (p : path) : (∀ f, P f (EvRm p)) → respects P (rm p).
Proof.
  intros HP w r w'. unfold rm, fs_write. intros [= <- <-].
  apply tracked_step; [done|]. simpl. intros q Hq.
  rewrite rm_rf_lookup. by case_decide.
Qed.

End Tracking.

(** * Runs that do not make a given call *)

Section Without.
Context {L : Type}.
Variable ev0 : Event L.

Lemma without_refl (w : World L) : without ev0 w w.
Proof. exists []. rewrite app_nil_r. split; [done|]. by intros ?%elem_of_nil. Qed.

Lemma without_trans (w1 w2 w3 : World L) :
  without ev0 w1 w2 → without ev0 w2 w3 → without ev0 w1 w3.
Proof.
  intros (t1 & Ht1 & H1) (t2 & Ht2 & H2). exists (t1 ++ t2).
  rewrite Ht2, Ht1, app_assoc. split; [done|].
  by intros [?|?]%elem_of_app.
Qed.

Lemma without_step (w : World L) (ev : Event L) (f' : FS) (l' : L) :
  ev ≠ ev0 → without ev0 w (mkWorld f' (trace w ++ [ev]) l').
Proof.
  intros Hne. exists [ev]. split; [done|].
  intros Hin%list_elem_of_In. simpl in Hin. destruct Hin as [Hin|[]]. done.
Qed.

Lemma console_without (lvl : Level) (msg : string) :
  EvConsole lvl msg ≠ ev0 → preserves (without ev0) (console lvl msg).
Proof. intros Hne w r w' [= <- <-]. by apply without_step. Qed.

Lemma assign_without (l : L) : EvAssign l ≠ ev0 → preserves (without ev0) (assign l).
Proof. intros Hne w r w' [= <- <-]. by apply without_step. Qed.

Lemma fs_read_without {A} (ev : Event L) (op : FS → string + A) :
  ev ≠ ev0 → preserves (without ev0) (fs_read ev op).
Proof.
  intros Hne w r w'. unfold fs_read, lift, throw, ret.
  destruct (op (fs w)); intros [= <- <-]; by apply without_step.
Qed.

Lemma fs_write_without (ev : Event L) (op : FS → string + FS) :
  ev ≠ ev0 → preserves (without ev0) (fs_write ev op).
Proof.
  intros Hne w r w'. unfold fs_write, set_fs, emit.
  destruct (op (fs w)); intros [= <- <-]; simpl; by apply without_step.
Qed.

End Without.

(** * Facts about names *)

Section StrFacts.
Implicit Types (s pre suf : string).

Lemma length_append s1 s2 :
  String.length (s1 +:+ s2) = (String.length s1 + String.length s2)%nat.
Proof. induction s1 as [|c s1 IH]; simpl; [done|]. by rewrite IH. Qed.

Lemma substring_all s : String.substring 0 (String.length s) s = s.
Proof. induction s as [|c s IH]; simpl; [done|]. by rewrite IH. Qed.

Lemma substring_suffix pre suf :
  String.substring (String.length pre) (String.length suf) (pre +:+ suf) = suf.
Proof. induction pre as [|c pre IH]; simpl; [apply substring_all|done]. Qed.

(** A string cut after its first [m] characters. *)
Lemma split_at s (m : nat) :
  (m ≤ String.length s)%nat →
  ∃ a b, s = a +:+ b ∧ String.length a = m
         ∧ String.substring m (String.length s - m) s = b.
Proof.
  revert m. induction s as [|c s IH]; intros [|m] Hm; simpl in *; try lia.
  - by exists EmptyString, EmptyString.
  - exists EmptyString, (String c s). by rewrite substring_all.
  - destruct (IH m) as (a & b & -> & Ha & Hb); [lia|].
    exists (String c a), b. simpl. by rewrite Ha.
Qed.

Lemma append_inv_suffix s1 s2 t1 t2 :
  s1 +:+ s2 = t1 +:+ t2 → String.length s2 = String.length t2 → s2 = t2.
Proof.
  revert t1. induction s1 as [|c s1 IH]; intros [|d t1]; simpl; intros Heq Hlen.
  - done.
  - apply (f_equal String.length) in Heq.
    rewrite ?length_append in Heq. simpl in Heq. rewrite ?length_append in Heq. lia.
  - apply (f_equal String.length) in Heq.
    rewrite ?length_append in Heq. simpl in Heq. rewrite ?length_append in Heq. lia.
  - simplify_eq. eauto.
Qed.

(** [endsWith] is what its name says. *)
Lemma endsWith_spec s suf : Str.endsWith s suf = true ↔ ∃ pre, s = pre +:+ suf.
Proof.
  unfold Str.endsWith. split.
  - destruct (Nat.leb_spec (String.length suf) (String.length s)) as [Hle|]; [|done].
    intros Heq%String.eqb_eq.
    destruct (split_at s (String.length s - String.length suf)) as (a & b & Hs & Ha & Hb);
      [lia|].
    exists a. rewrite Hs at 1. f_equal.
    replace (String.length s - (String.length s - String.length suf))%nat
      with (String.length suf) in Hb by lia.
    congruence.
  - intros [pre ->]. rewrite length_append.
    destruct (Nat.leb_spec (String.length suf) (String.length pre + String.length suf))
      as [_|]; [|lia].
    replace (String.length pre + String.length suf - String.length suf)%nat
      with (String.length pre) by lia.
    rewrite substring_suffix. apply String.eqb_refl.
Qed.

Lemma toLowerCase_append s1 s2 :
  Str.toLowerCase (s1 +:+ s2) = Str.toLowerCase s1 +:+ Str.toLowerCase s2.
Proof. induction s1 as [|c s1 IH]; simpl; [done|]. by rewrite IH. Qed.

Lemma toLowerCase_length s : String.length (Str.toLowerCase s) = String.length s.
Proof. induction s as [|c s IH]; simpl; [done|]. by rewrite IH. Qed.

(** The test of [Part000] on names is the one the specification words:
    some suffix of the name lower-cases to [.json]. *)
Lemma is_json_name_spec n : Part000.is_json_name n = true ↔ json_suffix_ci n.
Proof.
  unfold Part000.is_json_name, json_suffix_ci. rewrite endsWith_spec. split.
  - intros [pre' Heq].
    assert (5 ≤ String.length n)%nat as Hlen.
    { rewrite <-toLowerCase_length, Heq, length_append. simpl. lia. }
    destruct (split_at n (String.length n - 5)) as (a & b & Hs & Ha & _); [lia|].
    exists a, b. split; [done|].
    rewrite Hs, toLowerCase_append in Heq.
    apply append_inv_suffix in Heq; [done|].
    rewrite toLowerCase_length. apply (f_equal String.length) in Hs.
    rewrite length_append in Hs. simpl. lia.
  - intros (pre & suf & -> & Hsuf). exists (Str.toLowerCase pre).
    by rewrite toLowerCase_append, Hsuf.
Qed.

(** The test of [Script], which compares letter case too, is stricter. *)
Lemma endsWith_json_ci n : Str.endsWith n ".json" = true → Part000.is_json_name n = true.
Proof.
  intros [pre ->]%endsWith_spec. apply is_json_name_spec. by exists pre, ".json".
Qed.

Lemma relative_parts_below (c r : path) : Fs.relative_parts c (c ++ r) = r.
Proof. induction c as [|x c IH]; simpl; [by destruct r|]. by rewrite decide_True. Qed.

Lemma relative_child (c : path) n : Fs.relative c (c ++ [n]) = n.
Proof. unfold Fs.relative. by rewrite relative_parts_below. Qed.

End StrFacts.

(** * The variant with options and statistics *)

Module Part000Facts.
Import Part000.

Section Facts.
Context `{Externals}.
Variable cwd : path.

Local Abbreviation IN := (INPUT_DIR cwd).
Local Abbreviation OUT := (OUTPUT_DIR cwd).

Lemma in_not_under_out q : under IN q → ¬ OUT `prefix_of` q.
Proof. apply siblings_apart. done. Qed.

Lemma in_child_ne_out_child n m : IN ++ [n] ≠ OUT ++ [m].
Proof.
  intros Heq. apply (in_not_under_out (IN ++ [n])); [apply under_child|].
  rewrite Heq. by exists [m].
Qed.

Lemma out_not_prefix_in : ¬ OUT `prefix_of` IN.
Proof.
  intros [k Hk]. unfold INPUT_DIR, OUTPUT_DIR in Hk.
  rewrite <-app_assoc in Hk. apply app_inv_head in Hk. simplify_eq/=.
Qed.

Lemma in_not_prefix_out : ¬ IN `prefix_of` OUT.
Proof.
  intros [k Hk]. unfold INPUT_DIR, OUTPUT_DIR in Hk.
  rewrite <-app_assoc in Hk. apply app_inv_head in Hk. simplify_eq/=.
Qed.

(** ** The execution table of [process_entry] *)

Lemma process_entry_table options entry w :
  ∃ w' o, process_entry cwd options entry w = (Ok tt, w')
          ∧ entry_step cwd options entry w w' o.
Proof.
  unfold process_entry, isProcessableFile, bump.
  unfold mbind, M_bind, mret, M_ret, bind, try_catch, stat_isFile, readFile, writeFile,
    fs_read, fs_write, traced, lift, console, get_locals, assign, when, ret, throw, emit, set_fs.
  simpl.
  destruct (Fs.stat_isFile _ (fs w)) as [e|[|]] eqn:Estat; simpl.
  - destruct (verbose options) eqn:Ev; simpl;
      eexists _, _; (split; [reflexivity|]).
    all: rewrite <-!app_assoc; simpl.
    all: pose proof (step_stat_error cwd options entry w e Estat) as Hs;
      rewrite Ev in Hs; exact Hs.
  - destruct (is_json_name (name entry)) eqn:Ejson; simpl.
    + destruct (Fs.readFile _ (fs w)) as [e|rawJson] eqn:Eread; simpl.
      { eexists _, _; split; [reflexivity|]. rewrite <-!app_assoc; simpl.
        by apply step_read_error. }
      destruct (JSON_parse rawJson) as [e|data] eqn:Eparse; simpl.
      { eexists _, _; split; [reflexivity|]. rewrite <-!app_assoc; simpl.
        by eapply step_parse_error. }
      destruct (encode data _) as [e|toonOutput] eqn:Eenc; simpl.
      { eexists _, _; split; [reflexivity|]. rewrite <-!app_assoc; simpl.
        by eapply step_encode_error. }
      destruct (Fs.writeFile _ toonOutput (fs w)) as [e|f'] eqn:Ewrite; simpl.
      { eexists _, _; split; [reflexivity|]. rewrite <-!app_assoc; simpl.
        by eapply step_write_error. }
      destruct (verbose options) eqn:Ev; simpl;
        eexists _, _; (split; [reflexivity|]).
      all: rewrite <-!app_assoc; simpl.
      all: pose proof (step_converted cwd options entry w rawJson data toonOutput f'
                         Estat Ejson Eread Eparse Eenc Ewrite) as Hs;
        rewrite Ev in Hs; exact Hs.
    + eexists _, _; split; [reflexivity|]. rewrite <-!app_assoc; simpl.
      by apply step_not_json.
  - destruct (verbose options) eqn:Ev; simpl;
      eexists _, _; (split; [reflexivity|]).
    all: rewrite <-!app_assoc; simpl.
    all: pose proof (step_not_file cwd options entry w Estat) as Hs;
      rewrite Ev in Hs; exact Hs.
Qed.

(** ** The calls of the loop and of a run *)

Lemma loop_event_frame f f' ev :
  (∀ q, under IN q → f' !! q = f !! q) → loop_event cwd f ev → loop_event cwd f' ev.
Proof.
  intros Hf. destruct ev; simpl; try done.
  - intros (n & c & -> & Hn & Hj). exists n, c. split_and!; [done| |done].
    rewrite Hf; [done|apply under_child].
  - intros (n & c & -> & Hn & Hj). exists n, c. split_and!; [done| |done].
    rewrite Hf; [done|apply under_child].
Qed.

Lemma loop_event_safe f ev q : loop_event cwd f ev → under IN q → ¬ touches ev q.
Proof.
  destruct ev; simpl; try done; try (by intros _ _ []).
  intros (n & c & -> & _) Hq ->. apply (in_not_under_out _ Hq). by eexists.
Qed.

Lemma loop_event_run f ev : loop_event cwd f ev → run_event cwd f ev.
Proof. by destruct ev. Qed.

Lemma run_event_frame f f' ev :
  (∀ q, under IN q → f' !! q = f !! q) → run_event cwd f ev → run_event cwd f' ev.
Proof.
  intros Hf. pose proof (loop_event_frame f f' ev Hf) as Hl.
  by destruct ev.
Qed.

Lemma run_event_safe f ev q : run_event cwd f ev → under IN q → ¬ touches ev q.
Proof.
  destruct ev; simpl; try done; try (by intros _ _ []).
  - intros [->| ->] Hq; [by apply under_not_prefix|].
    by apply (siblings_not_prefix _ "input_json").
  - intros -> Hq. by apply in_not_under_out.
  - intros Hev. by apply (loop_event_safe f (EvWriteFile p data) q).
Qed.

Lemma tracked_loop_run w w' : tracked (loop_event cwd) w w' → tracked (run_event cwd) w w'.
Proof.
  intros (t & Ht & HP & Hfs). exists t. split_and!; [done| |done].
  eapply Forall_impl; [exact HP|]. apply loop_event_run.
Qed.

(** What one entry does is within [loop_event]. *)
Lemma entry_step_tracked options entry w w' o :
  entry_step cwd options entry w w' o → tracked (loop_event cwd) w w'.
Proof.
  intros Hstep. destruct Hstep as
    [reason Hstat|Hstat|Hstat Hjson|reason Hstat Hjson Hread
    |raw reason Hstat Hjson Hread Hparse
    |raw data reason Hstat Hjson Hread Hparse Henc
    |raw data text reason Hstat Hjson Hread Hparse Henc Hwrite
    |raw data text f' Hstat Hjson Hread Hparse Henc Hwrite];
    try apply readFile_Some in Hread.
  all: eexists; split_and!; [reflexivity| |].
  all: try (simpl; intros q _; reflexivity).
  all: repeat first [apply Forall_cons; split | apply Forall_app; split
                    | apply Forall_nil; exact I ].
  all: try (destruct (verbose options); simpl;
            repeat first [apply Forall_cons; split | apply Forall_nil; exact I]).
  all: simpl; eauto 6.
  all: intros q Hq; apply writeFile_spec in Hwrite as [_ Hoff]; apply Hoff.
  all: intros ->.
  all: apply (Hq (EvWriteFile (OUT ++ [outputName (name entry)]) text)); [|done].
  all: rewrite ?elem_of_app, !elem_of_cons; tauto.
Qed.

Lemma process_entry_respects options entry :
  respects (loop_event cwd) (process_entry cwd options entry).
Proof.
  intros w r w' Hrun.
  destruct (process_entry_table options entry w) as (w1 & o & Heq & Hstep).
  rewrite Heq in Hrun. simplify_eq. by eapply entry_step_tracked.
Qed.

Lemma loop_refl w : tracked (loop_event cwd) w w.
Proof. apply tracked_refl. Qed.

Lemma loop_trans w1 w2 w3 :
  tracked (loop_event cwd) w1 w2 → tracked (loop_event cwd) w2 w3 →
  tracked (loop_event cwd) w1 w3.
Proof. apply (tracked_trans _ IN); [apply loop_event_frame|apply loop_event_safe]. Qed.

Lemma run_refl w : tracked (run_event cwd) w w.
Proof. apply tracked_refl. Qed.

Lemma run_trans w1 w2 w3 :
  tracked (run_event cwd) w1 w2 → tracked (run_event cwd) w2 w3 →
  tracked (run_event cwd) w1 w3.
Proof. apply (tracked_trans _ IN); [apply run_event_frame|apply run_event_safe]. Qed.

Lemma loop_respects options entries :
  respects (loop_event cwd) (for_of entries (process_entry cwd options)).
Proof.
  apply preserves_for_of; [apply loop_refl|apply loop_trans|].
  intros entry _. apply process_entry_respects.
Qed.

(** ** A whole run *)

Lemma main_phases argv w :
  main cwd argv w =
  match parseCliOptions argv with
  | inl e => (Throw e, w)
  | inr options => (prepare cwd options ≫= λ _, convert_all cwd options) w
  end.
Proof.
  unfold main, prepare, convert_all, mbind, M_bind, bind, lift, throw, ret.
  destruct (parseCliOptions argv) as [e|options]; [done|].
  destruct (ensureWorkspace cwd w) as [[[]|e|c] w1]; [|done..].
  destruct (when (clean options) (emptyOutputDir cwd) w1) as [[[]|e|c] w2]; [|done..].
  done.
Qed.

Ltac respects_run :=
  repeat first
    [ apply (preserves_bind _ run_trans); [|intros ?]
    | apply (preserves_try_catch _ run_trans); [|intros ?]
    | apply (preserves_when _ run_refl)
    | apply (preserves_lift _ run_refl)
    | apply (preserves_ret _ run_refl)
    | apply (preserves_get_locals _ run_refl)
    | apply (preserves_exit _ run_refl)
    | apply respects_mkdir; intros ?; simpl; tauto
    | apply respects_rm; intros ?; simpl; tauto
    | apply respects_fs_read; intros ?; simpl; tauto
    | apply respects_console; intros ?; exact I
    | apply respects_assign; intros ?; exact I ].

Lemma prepare_respects options : respects (run_event cwd) (prepare cwd options).
Proof. unfold prepare, ensureWorkspace, emptyOutputDir. respects_run. Qed.

Lemma convert_all_respects options : respects (run_event cwd) (convert_all cwd options).
Proof.
  unfold convert_all, logSummary, readdir. respects_run.
  case_bool_decide; respects_run.
  intros w r w' Hrun. by apply tracked_loop_run, (loop_respects options a w r).
Qed.

Lemma main_respects argv : respects (run_event cwd) (main cwd argv).
Proof.
  intros w r w'. rewrite main_phases.
  destruct (parseCliOptions argv) as [e|options].
  - intros [= <- <-]. apply tracked_refl.
  - revert w r w'. apply (preserves_bind _ run_trans).
    + apply prepare_respects.
    + intros _. apply convert_all_respects.
Qed.

Lemma on_fatal_respects e : respects (run_event cwd) (on_fatal e).
Proof. unfold on_fatal. respects_run. Qed.

(** Every call of a run is one [run_event] allows, and the calls account
    for every difference between the first and the last file system. *)
Lemma run_tracked argv f :
  Forall (run_event cwd f) (trace (run cwd argv f).2)
  ∧ ∀ q, (∀ ev, ev ∈ trace (run cwd argv f).2 → ¬ touches ev q) →
         fs (run cwd argv f).2 !! q = f !! q.
Proof.
  destruct (preserves_run_process _ run_trans
              (main cwd argv) on_fatal (mkWorld f [] (mkStats 0 0 0 0))
              (main_respects argv) on_fatal_respects) as (t & Ht & HP & Hfs).
  unfold run. simpl in *. rewrite Ht. done.
Qed.

(** ** The counters *)

Lemma assigned_app {L} (t1 t2 : list (Event L)) :
  assigned (t1 ++ t2) = assigned t1 ++ assigned t2.
Proof. apply omap_app. Qed.

Lemma assigned_say_if b msg : assigned (say_if b msg) = [].
Proof. by destruct b. Qed.

Lemma not_regular_stat f p r :
  Fs.stat_isFile p f = r → r ≠ inr true → is_regular f p = false.
Proof.
  intros <- Hr. destruct (is_regular f p) eqn:E; [|done].
  by apply stat_isFile_regular in E.
Qed.

(** What one entry does to the counters, by the kind of the entry. *)
Lemma entry_step_stats options entry w w' o :
  entry_step cwd options entry w w' o →
  ∃ t, trace w' = trace w ++ t ∧
    ((regular_entry cwd (fs w) entry = false ∧ o = Skipped
      ∧ locals w' = inc_skipped (locals w)
      ∧ assigned t = [inc_skipped (locals w)])
     ∨ (regular_entry cwd (fs w) entry = true ∧ json_entry entry = false
        ∧ o = Skipped
        ∧ locals w' = inc_skipped (inc_processed (locals w))
        ∧ assigned t = [inc_processed (locals w); locals w'])
     ∨ (regular_entry cwd (fs w) entry = true ∧ json_entry entry = true
        ∧ o = Converted
        ∧ locals w' = inc_converted (inc_processed (locals w))
        ∧ assigned t = [inc_processed (locals w); locals w'])
     ∨ (regular_entry cwd (fs w) entry = true ∧ json_entry entry = true
        ∧ (∃ reason, o = Failed reason)
        ∧ locals w' = inc_failed (inc_processed (locals w))
        ∧ assigned t = [inc_processed (locals w); locals w'])).
Proof.
  unfold regular_entry, json_entry.
  intros Hstep. destruct Hstep as
    [reason Hstat|Hstat|Hstat Hjson|reason Hstat Hjson Hread
    |raw reason Hstat Hjson Hread Hparse
    |raw data reason Hstat Hjson Hread Hparse Henc
    |raw data text reason Hstat Hjson Hread Hparse Henc Hwrite
    |raw data text f' Hstat Hjson Hread Hparse Henc Hwrite].
  all: try (apply stat_isFile_regular in Hstat).
  all: try (eapply not_regular_stat in Hstat; [|done]).
  all: eexists; split; [reflexivity|]; simpl.
  all: rewrite ?assigned_app, ?assigned_say_if; simpl.
  - left. done.
  - left. done.
  - right; left. done.
  - right; right; right. eauto 10.
  - right; right; right. eauto 10.
  - right; right; right. eauto 10.
  - right; right; right. eauto 10.
  - right; right; left. done.
Qed.

Lemma stats_kept_refl w : stats_kept w w.
Proof. intros Hb. split; [done|]. exists []. by rewrite app_nil_r. Qed.

Lemma stats_kept_trans w1 w2 w3 : stats_kept w1 w2 → stats_kept w2 w3 → stats_kept w1 w3.
Proof.
  intros H12 H23 Hb. destruct (H12 Hb) as (Hb2 & t1 & Ht1 & Hi1).
  destruct (H23 Hb2) as (Hb3 & t2 & Ht2 & Hi2). split; [done|].
  exists (t1 ++ t2). rewrite Ht2, Ht1, app_assoc, assigned_app.
  split; [done|]. by apply Forall_app.
Qed.

Lemma process_entry_stats_kept options entry :
  preserves stats_kept (process_entry cwd options entry).
Proof.
  intros w r w' Hrun.
  destruct (process_entry_table options entry w) as (w1 & o & Heq & Hstep).
  rewrite Heq in Hrun. simplify_eq.
  apply entry_step_stats in Hstep as (t & Ht & Hcases).
  intros [Hlo Hhi].
  assert (∀ P Q : Prop, P → (P → Q) → P ∧ Q) as Hand by tauto.
  destruct Hcases as [(_ & _ & Hl & Ha)|[(_ & _ & _ & Hl & Ha)
    |[(_ & _ & _ & Hl & Ha)|(_ & _ & _ & Hl & Ha)]]].
  all: split; [rewrite Hl; unfold boundary_inv; simpl; lia|].
  all: exists t; split; [done|]; rewrite Ha, ?Hl.
  all: repeat (apply Forall_cons; split); try apply Forall_nil; try exact I.
  all: unfold inner_inv; simpl; lia.
Qed.

(** A step that assigns nothing keeps the counters. *)
Lemma stats_kept_quiet (w : World ConversionStats) (f' : FS)
    (ev : Event ConversionStats) :
  assigned [ev] = [] → stats_kept w (mkWorld f' (trace w ++ [ev]) (locals w)).
Proof. intros Hev Hb. split; [done|]. exists [ev]. by rewrite Hev. Qed.

Lemma fs_read_stats_kept {A} (ev : Event ConversionStats) (op : FS → string + A) :
  assigned [ev] = [] → preserves stats_kept (fs_read ev op).
Proof.
  intros Hev w r w'. unfold fs_read, lift, throw, ret.
  destruct (op (fs w)); intros [= <- <-]; by apply stats_kept_quiet.
Qed.

Lemma fs_write_stats_kept (ev : Event ConversionStats) (op : FS → string + FS) :
  assigned [ev] = [] → preserves stats_kept (fs_write ev op).
Proof.
  intros Hev w r w'. unfold fs_write, set_fs, emit.
  destruct (op (fs w)); intros [= <- <-]; simpl; by apply stats_kept_quiet.
Qed.

Lemma console_stats_kept lvl msg : preserves stats_kept (console lvl msg).
Proof. intros w r w' [= <- <-]. by apply stats_kept_quiet. Qed.

Lemma assign_zero_stats_kept : preserves stats_kept (assign (mkStats 0 0 0 0)).
Proof.
  intros w r w' [= <- <-] _. split; [unfold boundary_inv; simpl; lia|].
  exists [EvAssign (mkStats 0 0 0 0)]. split; [done|].
  apply Forall_cons. split; [unfold inner_inv; simpl; lia|apply Forall_nil; exact I].
Qed.

Ltac stats_run :=
  repeat first
    [ apply (preserves_bind _ stats_kept_trans); [|intros ?]
    | apply (preserves_try_catch _ stats_kept_trans); [|intros ?]
    | apply (preserves_when _ stats_kept_refl)
    | apply (preserves_lift _ stats_kept_refl)
    | apply (preserves_ret _ stats_kept_refl)
    | apply (preserves_get_locals _ stats_kept_refl)
    | apply (preserves_exit _ stats_kept_refl)
    | apply fs_read_stats_kept; reflexivity
    | apply fs_write_stats_kept; reflexivity
    | apply console_stats_kept
    | apply assign_zero_stats_kept ].

Lemma main_stats_kept argv : preserves stats_kept (main cwd argv).
Proof.
  unfold main, ensureWorkspace, emptyOutputDir, logSummary, mkdir, rm, readdir.
  stats_run. case_bool_decide; stats_run.
  apply preserves_for_of; [apply stats_kept_refl|apply stats_kept_trans|].
  intros entry _. apply process_entry_stats_kept.
Qed.

Lemma on_fatal_stats_kept e : preserves stats_kept (on_fatal e).
Proof. unfold on_fatal. stats_run. Qed.

(** In every run, every value the counters take is within [inner_inv],
    and the last one within [boundary_inv]. *)
Lemma run_stats argv f :
  boundary_inv (locals (run cwd argv f).2)
  ∧ Forall inner_inv (assigned (trace (run cwd argv f).2)).
Proof.
  destruct (preserves_run_process _ stats_kept_trans
              (main cwd argv) on_fatal (mkWorld f [] (mkStats 0 0 0 0))
              (main_stats_kept argv) on_fatal_stats_kept) as (Hb & t & Ht & Hi).
  { unfold boundary_inv. simpl. lia. }
  unfold run. simpl in *. by rewrite Ht.
Qed.

(** The loop never stops early: no entry makes it throw or exit. *)
Lemma loop_total options entries w :
  ∃ w', for_of entries (process_entry cwd options) w = (Ok tt, w').
Proof.
  revert w. induction entries as [|e es IH]; intros w; simpl; [by eexists|].
  destruct (process_entry_table options e w) as (w1 & o & Heq & _).
  unfold bind. rewrite Heq. apply IH.
Qed.

(** ** The phases of a run, executed *)

Lemma logSummary_spec stats w :
  logSummary stats w =
  (Ok tt, mkWorld (fs w) (trace w ++ summary_lines stats) (locals w)).
Proof.
  unfold logSummary, summary_lines, mbind, M_bind, bind, console, when, emit, ret.
  simpl. case_bool_decide; simpl; by rewrite <-!app_assoc.
Qed.

Lemma creatable_rm_rf f : creatable f OUT → creatable (Fs.rm_rf OUT f) OUT.
Proof.
  intros Hc q Hq Hne. rewrite rm_rf_lookup. case_decide; [by left|by apply Hc].
Qed.

(** [ensureWorkspace] succeeds when both directories can be made; both
    are directories then, and no node that was there has changed. *)
Lemma ensureWorkspace_spec w :
  creatable (fs w) IN → creatable (fs w) OUT →
  ∃ f1, ensureWorkspace cwd w
        = (Ok tt, mkWorld f1 (trace w ++ [EvMkdir IN; EvMkdir OUT]) (locals w))
        ∧ f1 !! IN = Some NDir ∧ f1 !! OUT = Some NDir
        ∧ creatable f1 OUT
        ∧ (∀ q, is_Some (fs w !! q) → f1 !! q = fs w !! q)
        ∧ (∀ q, ¬ q `prefix_of` IN → ¬ q `prefix_of` OUT → f1 !! q = fs w !! q).
Proof.
  intros Hin Hout.
  destruct (mkdir_p_ok _ _ Hin) as [f0 Hf0].
  pose proof (mkdir_p_creatable _ _ _ _ Hf0 Hout) as Hout0.
  destruct (mkdir_p_ok _ _ Hout0) as [f1 Hf1].
  exists f1. unfold ensureWorkspace, mkdir, fs_write, mbind, M_bind, bind, emit, set_fs.
  simpl. rewrite Hf0. simpl. rewrite Hf1. simpl. rewrite <-app_assoc. simpl.
  split; [done|].
  apply mkdir_p_spec in Hf0 as (_ & Hon0 & Hoff0 & Hkeep0).
  pose proof (mkdir_p_creatable _ _ _ _ Hf1 Hout0) as Hout1.
  apply mkdir_p_spec in Hf1 as (_ & Hon1 & Hoff1 & Hkeep1).
  assert (f0 !! IN = Some NDir) as HIN.
  { apply Hon0; [done|]. unfold INPUT_DIR. by destruct cwd. }
  split_and!.
  - rewrite Hkeep1; [done|]. by rewrite HIN.
  - apply Hon1; [done|]. unfold OUTPUT_DIR. by destruct cwd.
  - done.
  - intros q Hq. rewrite Hkeep1, Hkeep0; [done..|]. by rewrite Hkeep0.
  - intros q Hq1 Hq2. by rewrite Hoff1, Hoff0.
Qed.

Lemma ensureWorkspace_fails w :
  ¬ (creatable (fs w) IN ∧ creatable (fs w) OUT) →
  ∃ e w1, ensureWorkspace cwd w = (Throw e, w1).
Proof.
  intros Hno. unfold ensureWorkspace, mkdir, fs_write, mbind, M_bind, bind, emit, set_fs.
  simpl. destruct (Fs.mkdir_p IN (fs w)) as [e|f0] eqn:Hf0; [eauto|]. simpl.
  destruct (Fs.mkdir_p OUT f0) as [e|f1] eqn:Hf1; [eauto|]. exfalso. apply Hno.
  apply mkdir_p_spec in Hf0 as (Hc0 & Hon0 & Hoff0 & _).
  apply mkdir_p_spec in Hf1 as (Hc1 & _). split; [done|].
  intros q Hq Hne. destruct (decide (q `prefix_of` IN)) as [Hp|Hp].
  - by apply Hc0.
  - rewrite <-(Hoff0 _ Hp). by apply Hc1.
Qed.

(** [emptyOutputDir] succeeds whatever is at the output directory, and
    even if nothing is: it leaves an empty directory there. *)
Lemma emptyOutputDir_spec w :
  creatable (Fs.rm_rf OUT (fs w)) OUT →
  ∃ f1, emptyOutputDir cwd w
        = (Ok tt, mkWorld f1 (trace w ++ [EvRm OUT; EvMkdir OUT]) (locals w))
        ∧ f1 !! OUT = Some NDir
        ∧ (∀ q, under OUT q → f1 !! q = None)
        ∧ (∀ q, ¬ OUT `prefix_of` q → is_Some (fs w !! q) → f1 !! q = fs w !! q)
        ∧ (∀ q, ¬ OUT `prefix_of` q → ¬ q `prefix_of` OUT → f1 !! q = fs w !! q).
Proof.
  intros Hc. destruct (mkdir_p_ok _ _ Hc) as [f1 Hf1].
  exists f1. unfold emptyOutputDir, rm, mkdir, fs_write, mbind, M_bind, bind, emit, set_fs.
  simpl. rewrite Hf1. simpl. rewrite <-app_assoc. simpl. split; [done|].
  apply mkdir_p_spec in Hf1 as (_ & Hon & Hoff & Hkeep). split_and!.
  - apply Hon; [done|]. unfold OUTPUT_DIR. by destruct cwd.
  - intros q Hq. rewrite Hoff by (by apply under_not_prefix).
    rewrite rm_rf_lookup, decide_True; [done|by apply under_prefix].
  - intros q Hq Hsome. rewrite Hkeep; rewrite rm_rf_lookup, decide_False; done.
  - intros q Hq1 Hq2. by rewrite Hoff, rm_rf_lookup, decide_False.
Qed.

(** [prepare] succeeds when both directories can be made.  Afterwards
    both are directories, the counters are zero, nothing inside the
    input directory has changed, and with [--clean] nothing is inside
    the output directory. *)
Lemma prepare_spec options w :
  creatable (fs w) IN → creatable (fs w) OUT →
  ∃ f1, prepare cwd options w
        = (Ok tt, mkWorld f1 (trace w ++ prepare_trace cwd options) (mkStats 0 0 0 0))
        ∧ f1 !! IN = Some NDir ∧ f1 !! OUT = Some NDir
        ∧ (∀ q, under IN q → f1 !! q = fs w !! q)
        ∧ (clean options = true → ∀ q, under OUT q → f1 !! q = None)
        ∧ (clean options = false → ∀ q, is_Some (fs w !! q) → f1 !! q = fs w !! q).
Proof.
  intros Hin Hout.
  destruct (ensureWorkspace_spec w Hin Hout)
    as (f0 & Hrun0 & HIN0 & HOUT0 & Hc0 & Hkeep0 & Hoff0).
  assert (∀ q, under IN q → f0 !! q = fs w !! q) as Hunder0.
  { intros q Hq. apply Hoff0; [by apply under_not_prefix|].
    by apply (siblings_not_prefix _ "input_json"). }
  unfold prepare, prepare_trace.
  unfold mbind, M_bind, bind at 1. rewrite Hrun0.
  destruct (clean options) eqn:Hclean; simpl.
  - set (w0 := mkWorld f0 _ _).
    destruct (emptyOutputDir_spec w0) as (f1 & Hrun1 & HOUT1 & Hempty & Hkeep1 & Hoff1).
    { by apply creatable_rm_rf. }
    exists f1. unfold bind. rewrite Hrun1. unfold assign. simpl.
    rewrite <-!app_assoc. simpl. split; [done|]. split_and!; try done.
    + rewrite Hkeep1; simpl; [done|apply out_not_prefix_in|by rewrite HIN0].
    + intros q Hq. rewrite Hoff1; simpl.
      * by apply Hunder0.
      * by apply in_not_under_out.
      * by apply (siblings_not_prefix _ "input_json").
  - exists f0. unfold bind, ret, assign. simpl. rewrite <-!app_assoc. simpl.
    split; [done|]. split_and!; try done.
Qed.

(** From the enumeration on, nothing can fail: the entries are listed,
    each is handled, and the summary is printed; or there is no entry
    and the warning is. *)
Lemma convert_all_spec options w :
  fs w !! IN = Some NDir →
  ∃ entries, Fs.readdir IN (fs w) = inr entries ∧
    let w0 := mkWorld (fs w) (trace w ++ [EvReaddir IN]) (locals w) in
    if bool_decide (entries = []) then
      convert_all cwd options w
      = (Ok tt, mkWorld (fs w) (trace w0 ++ [no_files_warning cwd]) (locals w))
    else
      ∃ w1, for_of entries (process_entry cwd options) w0 = (Ok tt, w1)
            ∧ convert_all cwd options w
              = (Ok tt, mkWorld (fs w1) (trace w1 ++ summary_lines (locals w1))
                          (locals w1)).
Proof.
  intros HIN. destruct (readdir_ok _ _ HIN) as [entries Hentries].
  exists entries. split; [done|]. simpl.
  unfold convert_all, readdir, fs_read, mbind, M_bind, bind, lift, ret.
  rewrite Hentries. simpl. case_bool_decide; [done|].
  set (w0 := emit _ w).
  destruct (loop_total options entries w0) as [w1 Hw1].
  exists w1. split; [done|]. rewrite Hw1. unfold get_locals. simpl.
  apply logSummary_spec.
Qed.

Lemma prepare_event_run f ev : prepare_event cwd f ev → run_event cwd f ev.
Proof. by destruct ev. Qed.

Lemma prepare_event_frame f f' ev :
  (∀ q, under IN q → f' !! q = f !! q) → prepare_event cwd f ev → prepare_event cwd f' ev.
Proof. by destruct ev. Qed.

Lemma prepare_event_safe f ev q : prepare_event cwd f ev → under IN q → ¬ touches ev q.
Proof. intros Hev. apply (run_event_safe f). by apply prepare_event_run. Qed.

Lemma prepare_trans w1 w2 w3 :
  tracked (prepare_event cwd) w1 w2 → tracked (prepare_event cwd) w2 w3 →
  tracked (prepare_event cwd) w1 w3.
Proof.
  apply (tracked_trans _ IN); [apply prepare_event_frame|apply prepare_event_safe].
Qed.

Lemma prepare_only_prepares options : respects (prepare_event cwd) (prepare cwd options).
Proof.
  unfold prepare, ensureWorkspace, emptyOutputDir.
  repeat first
    [ apply (preserves_bind _ prepare_trans); [|intros ?]
    | apply (preserves_when _ (tracked_refl _))
    | apply respects_mkdir; intros ?; simpl; tauto
    | apply respects_rm; intros ?; simpl; tauto
    | apply respects_assign; intros ?; exact I ].
Qed.

(** A run whose options are valid and whose directories can be made:
    [prepare] succeeds, the entries are listed, and then either the
    warning or the loop and the summary follow; the exit status is 0. *)
Lemma run_spec argv options f :
  parseCliOptions argv = inr options →
  creatable f IN → creatable f OUT →
  ∃ f1 entries,
    prepare cwd options (mkWorld f [] (mkStats 0 0 0 0))
    = (Ok tt, mkWorld f1 (prepare_trace cwd options) (mkStats 0 0 0 0))
    ∧ f1 !! IN = Some NDir ∧ f1 !! OUT = Some NDir
    ∧ (∀ q, under IN q → f1 !! q = f !! q)
    ∧ (clean options = true → ∀ q, under OUT q → f1 !! q = None)
    ∧ (clean options = false → ∀ q, is_Some (f !! q) → f1 !! q = f !! q)
    ∧ Fs.readdir IN f1 = inr entries
    ∧ let w1 := mkWorld f1 (prepare_trace cwd options ++ [EvReaddir IN])
                  (mkStats 0 0 0 0) in
      if bool_decide (entries = []) then
        run cwd argv f
        = (0%nat, mkWorld f1 (trace w1 ++ [no_files_warning cwd]) (mkStats 0 0 0 0))
      else
        ∃ w2, for_of entries (process_entry cwd options) w1 = (Ok tt, w2)
              ∧ run cwd argv f
                = (0%nat, mkWorld (fs w2) (trace w2 ++ summary_lines (locals w2))
                            (locals w2)).
Proof.
  intros Hparse Hin Hout.
  destruct (prepare_spec options (mkWorld f [] (mkStats 0 0 0 0)) Hin Hout)
    as (f1 & Hprep & HIN & HOUT & Hunder & Hclean & Hkeep).
  simpl in Hprep.
  set (w0 := mkWorld f1 (prepare_trace cwd options) (mkStats 0 0 0 0)) in *.
  destruct (convert_all_spec options w0 HIN) as (entries & Hentries & Hconv).
  exists f1, entries. split_and!; try done.
  simpl in Hconv |- *. unfold run, run_process, try_catch.
  rewrite main_phases, Hparse. unfold mbind, M_bind, bind. rewrite Hprep.
  case_bool_decide.
  - by rewrite Hconv.
  - destruct Hconv as (w2 & Hloop & Hconv). exists w2. by rewrite Hconv.
Qed.

(** A run that ends with another status than 0 has not printed the
    summary; one that has printed it ends with status 0. *)
Lemma summary_exit_status argv f :
  EvConsole LLog summary_header ∈ trace (run cwd argv f).2 →
  (run cwd argv f).1 = 0%nat.
Proof.
  unfold run, run_process, try_catch.
  rewrite main_phases. destruct (parseCliOptions argv) as [e|options]; simpl.
  { intros Hin. apply list_elem_of_In in Hin. simpl in Hin.
    destruct Hin as [Hin|[]]. discriminate Hin. }
  unfold mbind, M_bind, bind.
  destruct (prepare cwd options _) as [[[]|e|c] w1] eqn:Hprep.
  - apply prepare_only_prepares in Hprep as (t1 & Ht1 & HP1 & _). simpl in Ht1.
    unfold convert_all, mbind, M_bind, bind, readdir, fs_read, lift, throw, ret.
    destruct (Fs.readdir IN (fs w1)) as [e|entries] eqn:Hreaddir; simpl.
    + rewrite Ht1. intros Hin. exfalso.
      rewrite <-app_assoc in Hin. apply elem_of_app in Hin as [Hin|Hin].
      * rewrite Forall_forall in HP1. by apply HP1 in Hin.
      * apply list_elem_of_In in Hin. simpl in Hin.
        destruct Hin as [Hin|[Hin|[]]]; discriminate Hin.
    + case_bool_decide; [done|].
      destruct (loop_total options entries (emit (EvReaddir IN) w1)) as [w2 Hw2].
      rewrite Hw2. unfold get_locals. rewrite logSummary_spec. done.
  - apply prepare_only_prepares in Hprep as (t1 & Ht1 & HP1 & _). simpl in Ht1.
    simpl. rewrite Ht1. intros Hin. exfalso.
    apply elem_of_app in Hin as [Hin|Hin].
    * rewrite Forall_forall in HP1. by apply HP1 in Hin.
    * apply list_elem_of_In in Hin. simpl in Hin.
      destruct Hin as [Hin|[]]; discriminate Hin.
  - apply prepare_only_prepares in Hprep as (t1 & Ht1 & HP1 & _). simpl in Ht1.
    simpl. rewrite Ht1. intros Hin. exfalso.
    rewrite Forall_forall in HP1. by apply HP1 in Hin.
Qed.

(** ** The loop, entry by entry *)

Lemma count_cons p e es :
  count p (e :: es) = ((if p e then 1 else 0) + count p es)%nat.
Proof. unfold count. simpl. by destruct (p e). Qed.

(** The counters after the loop, from the kinds of the entries.  The
    kinds are read in [f0], with which the file system agrees inside the
    input directory all along. *)
Lemma loop_counts options f0 entries w :
  (∀ q, under IN q → fs w !! q = f0 !! q) →
  ∃ w', for_of entries (process_entry cwd options) w = (Ok tt, w')
    ∧ (∀ q, under IN q → fs w' !! q = f0 !! q)
    ∧ processed (locals w')
      = (processed (locals w) + count (regular_entry cwd f0) entries)%nat
    ∧ skipped (locals w')
      = (skipped (locals w)
         + count (λ e, negb (regular_entry cwd f0 e) || negb (json_entry e)) entries)%nat
    ∧ (converted (locals w') + failed (locals w'))%nat
      = (converted (locals w) + failed (locals w)
         + count (λ e, regular_entry cwd f0 e && json_entry e) entries)%nat
    ∧ outcomes (locals w') = (outcomes (locals w) + length entries)%nat.
Proof.
  revert w. induction entries as [|e es IH]; intros w Hfs; simpl.
  { exists w. unfold count. simpl. split_and!; try done; lia. }
  destruct (process_entry_table options e w) as (w1 & o & Heq & Hstep).
  pose proof (entry_step_tracked _ _ _ _ _ Hstep) as Htr.
  assert (∀ q, under IN q → fs w1 !! q = f0 !! q) as Hfs1.
  { intros q Hq. rewrite <-Hfs by done.
    by apply (tracked_input _ IN (loop_event_safe) w w1 q). }
  destruct (IH w1 Hfs1) as (w' & Hloop & Hfs' & Hp & Hs & Hcf & Ho).
  exists w'. unfold bind. rewrite Heq. split; [done|]. split; [done|].
  rewrite !count_cons.
  assert (regular_entry cwd f0 e = regular_entry cwd (fs w) e) as ->.
  { unfold regular_entry, is_regular. rewrite Hfs; [done|apply under_child]. }
  apply entry_step_stats in Hstep as (t & _ & Hcases).
  unfold outcomes in *.
  destruct Hcases as [(-> & _ & Hl & _)|[(-> & -> & _ & Hl & _)
    |[(-> & -> & _ & Hl & _)|(-> & -> & _ & Hl & _)]]].
  all: rewrite Hl in Hp, Hs, Hcf, Ho; simpl in *; lia.
Qed.

(** ** The options *)

(** A run whose options are refused touches nothing: it reports the
    error and exits with status 1. *)
Lemma invalid_options_before_io argv e f :
  parseCliOptions argv = inl e →
  run cwd argv f = (1%nat, mkWorld f [EvConsole LError e] (mkStats 0 0 0 0)).
Proof.
  intros Hparse. unfold run, run_process, try_catch.
  by rewrite main_phases, Hparse.
Qed.

(** What [parseCliOptions] makes of [--indent]: absent or empty, it is
    2; otherwise it is what [parseInt] reads at the front of the value,
    and the options are refused when that is nothing or negative. *)
Lemma parseCliOptions_indent argv values :
  parseArgs argv = inr values →
  let read :=
    match v_indent values with
    | Some s => if String.eqb s EmptyString then Some 2 else Str.parseInt s
    | None => Some 2
    end in
  match read with
  | Some n =>
      if n <? 0
      then parseCliOptions argv = inl "`--indent` must be a non-negative integer"
      else ∀ options, parseCliOptions argv = inr options → indent options = n
  | None => parseCliOptions argv = inl "`--indent` must be a non-negative integer"
  end.
Proof.
  intros Hargs. unfold parseCliOptions. rewrite Hargs. simpl.
  destruct (match v_indent values with
            | Some s => if String.eqb s EmptyString then Some 2 else Str.parseInt s
            | None => Some 2
            end) as [n|]; [|done].
  destruct (n <? 0) eqn:Hn; [done|].
  intros options. repeat case_match; intros; simplify_eq; done.
Qed.

Lemma parseCliOptions_indent_nonneg argv options :
  parseCliOptions argv = inr options → 0 ≤ indent options.
Proof.
  unfold parseCliOptions. repeat case_match; intros; simplify_eq; simpl; lia.
Qed.

End Facts.
End Part000Facts.

(** * The plain variant *)

Module ScriptFacts.
Import Script.

Section Facts.
Context `{Externals}.
Variable cwd : path.

Local Abbreviation IN := (INPUT_DIR cwd).
Local Abbreviation OUT := (OUTPUT_DIR cwd).

Lemma script_in_not_under_out q : under IN q → ¬ OUT `prefix_of` q.
Proof. apply siblings_apart. done. Qed.

(** ** The execution table of [convert_file] *)

Lemma convert_file_table inputFile w :
  ∃ w' o, convert_file cwd inputFile w = (Ok tt, w') ∧ file_step cwd inputFile w w' o.
Proof.
  unfold convert_file, convertJsonToToon, push.
  unfold mbind, M_bind, mret, M_ret, bind, try_catch, readFile, writeFile,
    fs_read, fs_write, traced, lift, console, get_locals, assign, ret, throw, emit, set_fs.
  simpl.
  destruct (Fs.readFile inputFile (fs w)) as [e|jsonContent] eqn:Eread; simpl.
  { eexists _, _; split; [reflexivity|]. rewrite <-!app_assoc; simpl.
    by apply file_read_error. }
  destruct (JSON_parse jsonContent) as [e|data] eqn:Eparse; simpl.
  { eexists _, _; split; [reflexivity|]. rewrite <-!app_assoc; simpl.
    by eapply file_parse_error. }
  destruct (encode data _) as [e|toonOutput] eqn:Eenc; simpl.
  { eexists _, _; split; [reflexivity|]. rewrite <-!app_assoc; simpl.
    by eapply file_encode_error. }
  destruct (Fs.writeFile _ toonOutput (fs w)) as [e|f'] eqn:Ewrite; simpl.
  { eexists _, _; split; [reflexivity|]. rewrite <-!app_assoc; simpl.
    by eapply file_write_error. }
  eexists _, _; split; [reflexivity|]. rewrite <-!app_assoc; simpl.
  by eapply file_converted.
Qed.

Lemma script_loop_total files w : ∃ w', for_of files (convert_file cwd) w = (Ok tt, w').
Proof.
  revert w. induction files as [|x l IH]; intros w; simpl; [by eexists|].
  destruct (convert_file_table x w) as (w1 & o & Heq & _).
  unfold bind. rewrite Heq. apply IH.
Qed.

(** ** The calls of a run *)

Lemma script_event_frame f f' ev :
  (∀ q, under IN q → f' !! q = f !! q) → run_event cwd f ev → run_event cwd f' ev.
Proof.
  intros Hf. destruct ev; simpl; try done.
  - intros (n & c & -> & Hn & Hj). exists n, c. split_and!; [done| |done].
    rewrite Hf; [done|apply under_child].
  - intros (n & c & -> & Hn & Hj). exists n, c. split_and!; [done| |done].
    rewrite Hf; [done|apply under_child].
Qed.

Lemma script_event_safe f ev q : run_event cwd f ev → under IN q → ¬ touches ev q.
Proof.
  destruct ev; simpl; try done; try (by intros _ _ []).
  - intros -> Hq. by apply (siblings_not_prefix _ "input_json").
  - intros (n & c & -> & _) Hq ->. apply (script_in_not_under_out _ Hq). by eexists.
Qed.

Lemma script_refl w : tracked (run_event cwd) w w.
Proof. apply tracked_refl. Qed.

Lemma script_trans w1 w2 w3 :
  tracked (run_event cwd) w1 w2 → tracked (run_event cwd) w2 w3 →
  tracked (run_event cwd) w1 w3.
Proof. apply (tracked_trans _ IN); [apply script_event_frame|apply script_event_safe]. Qed.

(** What one file of the input directory with a [.json] name does is
    within [run_event]. *)
Lemma file_step_tracked n w w' o :
  Str.endsWith n ".json" = true →
  file_step cwd (IN ++ [n]) w w' o → tracked (run_event cwd) w w'.
Proof.
  intros Hn Hstep.
  assert (List.last (IN ++ [n]) EmptyString = n) as Hlast by apply last_last.
  destruct Hstep as
    [reason Hread|raw e Hread Hparse|raw data reason Hread Hparse Henc
    |raw data text reason Hread Hparse Henc Hwrite
    |raw data text f' Hread Hparse Henc Hwrite];
    try apply readFile_Some in Hread.
  all: rewrite ?Hlast in *.
  all: eexists; split_and!; [reflexivity| |].
  all: try (simpl; intros q _; reflexivity).
  all: repeat first [apply Forall_cons; split | apply Forall_nil; exact I ].
  all: simpl; eauto 6.
  intros q Hq. apply writeFile_spec in Hwrite as [_ Hoff]. apply Hoff.
  intros ->.
  apply (Hq (EvWriteFile (OUT ++ [Str.basename n ".json" +:+ ".toon"]) text)); [|done].
  rewrite !elem_of_cons; tauto.
Qed.

Lemma convert_file_respects n :
  Str.endsWith n ".json" = true →
  respects (run_event cwd) (convert_file cwd (IN ++ [n])).
Proof.
  intros Hn w r w' Hrun.
  destruct (convert_file_table (IN ++ [n]) w) as (w1 & o & Heq & Hstep).
  rewrite Heq in Hrun. simplify_eq. by eapply file_step_tracked.
Qed.

(** The files [getJsonFiles] keeps: the regular files of the directory
    whose name ends in [.json]. *)
Lemma json_files_spec (entries : list Dirent) x :
  x ∈ (λ entry, IN ++ [name entry]) <$>
        filter (λ entry, dirent_isFile entry && Str.endsWith (name entry) ".json")
               entries →
  ∃ e, e ∈ entries ∧ x = IN ++ [name e]
       ∧ dirent_isFile e = true ∧ Str.endsWith (name e) ".json" = true.
Proof.
  intros (e & -> & [He Hin]%list_elem_of_filter)%list_elem_of_fmap.
  apply andb_prop_elim in He as [H1 H2].
  exists e. split_and!; try done; by apply Is_true_eq_true.
Qed.

Ltac script_respects_run :=
  repeat first
    [ apply (preserves_bind _ script_trans); [|intros ?]
    | apply (preserves_try_catch _ script_trans); [|intros ?]
    | apply (preserves_when _ script_refl)
    | apply (preserves_lift _ script_refl)
    | apply (preserves_ret _ script_refl)
    | apply (preserves_get_locals _ script_refl)
    | apply (preserves_exit _ script_refl)
    | apply respects_mkdir; intros ?; simpl; tauto
    | apply respects_fs_read; intros ?; simpl; tauto
    | apply respects_console; intros ?; exact I
    | apply respects_assign; intros ?; exact I ].

Lemma getJsonFiles_value w files w' :
  getJsonFiles IN w = (Ok files, w') →
  ∀ x, x ∈ files → ∃ n, x = IN ++ [n] ∧ Str.endsWith n ".json" = true.
Proof.
  unfold getJsonFiles, readdir, fs_read, mbind, M_bind, bind, lift, throw, ret, mret, M_ret.
  destruct (Fs.readdir IN (fs w)) as [e|entries]; [done|].
  intros [= <- _] x (e & _ & -> & _ & Hn)%json_files_spec. eauto.
Qed.

Lemma getJsonFiles_respects : respects (run_event cwd) (getJsonFiles IN).
Proof. unfold getJsonFiles, readdir. script_respects_run. Qed.

Lemma script_main_phases w : main cwd w = (prepare cwd ≫= λ _, convert_all cwd) w.
Proof.
  unfold main, prepare, convert_all, summarise, mbind, M_bind, bind.
  destruct (console LLog _ w) as [[[]|e|c] w1]; [|done..].
  destruct (existsSync IN w1) as [[inputExists|e|c] w2]; [|done..].
  destruct (when (negb inputExists) _ w2) as [[[]|e|c] w3]; [|done..].
  destruct (existsSync OUT w3) as [[outputExists|e|c] w4]; [|done..].
  destruct (when (negb outputExists) _ w4) as [[[]|e|c] w5]; [|done..].
  done.
Qed.

Lemma script_prepare_respects : respects (run_event cwd) (prepare cwd).
Proof. unfold prepare, existsSync. script_respects_run. Qed.

Lemma script_convert_all_respects : respects (run_event cwd) (convert_all cwd).
Proof.
  unfold convert_all.
  apply (preserves_bind_val _ script_trans _ _ _ getJsonFiles_value);
    [apply getJsonFiles_respects|].
  intros files Hfiles. unfold summarise. case_bool_decide; script_respects_run.
  apply preserves_for_of; [apply script_refl|apply script_trans|].
  intros x (n & -> & Hn)%Hfiles. by apply convert_file_respects.
Qed.

Lemma script_main_respects : respects (run_event cwd) (main cwd).
Proof.
  intros w r w'. rewrite script_main_phases. revert w r w'.
  apply (preserves_bind _ script_trans).
  - apply script_prepare_respects.
  - intros _. apply script_convert_all_respects.
Qed.

Lemma script_on_fatal_respects e : respects (run_event cwd) (on_fatal e).
Proof. unfold on_fatal. script_respects_run. Qed.

(** Every call of a run is one [run_event] allows, and the calls account
    for every difference between the first and the last file system. *)
Lemma script_run_tracked f :
  Forall (run_event cwd f) (trace (run cwd f).2)
  ∧ ∀ q, (∀ ev, ev ∈ trace (run cwd f).2 → ¬ touches ev q) →
         fs (run cwd f).2 !! q = f !! q.
Proof.
  destruct (preserves_run_process _ script_trans
              (main cwd) on_fatal (mkWorld f [] [])
              script_main_respects script_on_fatal_respects) as (t & Ht & HP & Hfs).
  unfold run. simpl in *. rewrite Ht. done.
Qed.

(** ** The phases of a run, executed *)

Lemma exists_true (f : FS) (p : path) : is_Some (f !! p) → Fs.exists_ p f = true.
Proof. intros Hp. unfold Fs.exists_. by apply bool_decide_eq_true. Qed.

Lemma exists_false (f : FS) (p : path) : f !! p = None → Fs.exists_ p f = false.
Proof.
  intros Hp. unfold Fs.exists_. apply bool_decide_eq_false. rewrite Hp.
  by intros [? ?].
Qed.

(** Nothing at the path of the input directory: the script says so and
    exits with status 1; it creates nothing. *)
Lemma prepare_missing_input w :
  fs w !! IN = None →
  prepare cwd w
  = (Exit 1, mkWorld (fs w)
               (trace w ++ [greeting; EvExists IN] ++ missing_input_lines cwd)
               (locals w)).
Proof.
  intros Hin. unfold prepare, existsSync, fs_read, mbind, M_bind, bind, console, when,
    lift, ret, exit, emit. simpl. rewrite (exists_false _ _ Hin). simpl.
  by rewrite <-!app_assoc.
Qed.

Lemma prepare_both_exist w :
  is_Some (fs w !! IN) → is_Some (fs w !! OUT) →
  prepare cwd w
  = (Ok tt, mkWorld (fs w) (trace w ++ [greeting; EvExists IN; EvExists OUT]) (locals w)).
Proof.
  intros Hin Hout. unfold prepare, existsSync, fs_read, mbind, M_bind, bind, console,
    when, lift, ret, exit, emit. simpl.
  rewrite (exists_true _ _ Hin). simpl. rewrite (exists_true _ _ Hout). simpl.
  by rewrite <-!app_assoc.
Qed.

(** Nothing at the path of the output directory: it is made, with the
    directories on the way, and no node that was there changes. *)
Lemma prepare_creates_output w :
  is_Some (fs w !! IN) → fs w !! OUT = None → creatable (fs w) OUT →
  ∃ f1, prepare cwd w
        = (Ok tt, mkWorld f1
                    (trace w ++ [greeting; EvExists IN; EvExists OUT; EvMkdir OUT;
                                 created_line cwd])
                    (locals w))
        ∧ f1 !! OUT = Some NDir
        ∧ (∀ q, is_Some (fs w !! q) → f1 !! q = fs w !! q)
        ∧ (∀ q, ¬ q `prefix_of` OUT → f1 !! q = fs w !! q).
Proof.
  intros Hin Hout Hc. destruct (mkdir_p_ok _ _ Hc) as [f1 Hf1]. exists f1.
  unfold prepare, existsSync, mkdir, fs_read, fs_write, mbind, M_bind, bind, console,
    when, lift, ret, exit, emit, set_fs. simpl.
  rewrite (exists_true _ _ Hin). simpl. rewrite (exists_false _ _ Hout). simpl.
  rewrite Hf1. simpl. rewrite <-!app_assoc. simpl. split; [done|].
  apply mkdir_p_spec in Hf1 as (_ & Hon & Hoff & Hkeep). split; [|done].
  apply Hon; [done|]. unfold OUTPUT_DIR. by destruct cwd.
Qed.

Lemma prepare_cannot_create w :
  is_Some (fs w !! IN) → fs w !! OUT = None → ¬ creatable (fs w) OUT →
  ∃ e w1, prepare cwd w = (Throw e, w1).
Proof.
  intros Hin Hout Hc.
  unfold prepare, existsSync, mkdir, fs_read, fs_write, mbind, M_bind, bind, console,
    when, lift, ret, exit, emit, set_fs. simpl.
  rewrite (exists_true _ _ Hin). simpl. rewrite (exists_false _ _ Hout). simpl.
  destruct (Fs.mkdir_p OUT (fs w)) as [e|f1] eqn:Hf1; [eauto|].
  by apply mkdir_p_spec in Hf1 as (? & _).
Qed.

(** An input directory without entries: the script says there is
    nothing to convert, and returns. *)
Lemma convert_all_empty w :
  fs w !! IN = Some NDir → (∀ n, fs w !! (IN ++ [n]) = None) →
  convert_all cwd w
  = (Ok tt, mkWorld (fs w) (trace w ++ [EvReaddir IN] ++ no_json_lines) (locals w)).
Proof.
  intros Hin Hnone.
  unfold convert_all, getJsonFiles, readdir, fs_read, mbind, M_bind, bind, console,
    lift, ret, mret, M_ret, emit. simpl.
  rewrite (readdir_nil _ _ Hin Hnone). simpl. by rewrite <-!app_assoc.
Qed.

(** ** The exit status *)

Lemma summarise_spec w :
  summarise w
  = (if bool_decide (0 < failures (locals w))%nat then Exit 1 else Ok tt,
     mkWorld (fs w) (trace w ++ summary_lines (locals w)) (locals w)).
Proof.
  unfold summarise, summary_lines, failures, mbind, M_bind, bind, get_locals, console,
    when, exit, ret, emit. simpl.
  case_bool_decide; simpl; by rewrite <-!app_assoc.
Qed.

Local Abbreviation header := (EvConsole LLog summary_header).

Ltac quiet_run :=
  repeat first
    [ apply (preserves_bind _ (without_trans header)); [|intros ?]
    | apply (preserves_try_catch _ (without_trans header)); [|intros ?]
    | apply (preserves_when _ (without_refl header))
    | apply (preserves_lift _ (without_refl header))
    | apply (preserves_ret _ (without_refl header))
    | apply (preserves_throw _ (without_refl header))
    | apply (preserves_get_locals _ (without_refl header))
    | apply (preserves_exit _ (without_refl header))
    | apply fs_read_without; discriminate
    | apply fs_write_without; discriminate
    | apply console_without; discriminate
    | apply assign_without; discriminate ].

Lemma prepare_quiet : preserves (without header) (prepare cwd).
Proof. unfold prepare, existsSync, mkdir. quiet_run. Qed.

Lemma getJsonFiles_quiet : preserves (without header) (getJsonFiles IN).
Proof. unfold getJsonFiles, readdir. quiet_run. Qed.

(** Once the summary is printed, the exit status is 1 if a conversion
    failed and 0 if none did. *)
Lemma script_summary_exit_status f :
  header ∈ trace (run cwd f).2 →
  (run cwd f).1
  = if bool_decide (0 < failures (locals (run cwd f).2))%nat then 1%nat else 0%nat.
Proof.
  unfold run, run_process, try_catch. rewrite script_main_phases.
  unfold mbind, M_bind, bind.
  destruct (prepare cwd _) as [[[]|e|c] w1] eqn:Hprep;
    apply prepare_quiet in Hprep as (t1 & Ht1 & Hq1); simpl in Ht1.
  2:{ simpl. rewrite Ht1. intros [Hin|Hin%list_elem_of_In]%elem_of_app; [done|].
      simpl in Hin. destruct Hin as [Hin|[]]. discriminate Hin. }
  2:{ simpl. by rewrite Ht1. }
  unfold convert_all, mbind, M_bind, bind.
  destruct (getJsonFiles IN w1) as [[files|e|c] w2] eqn:Hfiles;
    apply getJsonFiles_quiet in Hfiles as (t2 & Ht2 & Hq2).
  2:{ simpl. rewrite Ht2, Ht1. simpl.
      intros [[Hin|Hin]%elem_of_app|Hin%list_elem_of_In]%elem_of_app; [done..|].
      simpl in Hin. destruct Hin as [Hin|[]]. discriminate Hin. }
  2:{ simpl. rewrite Ht2, Ht1. simpl. by intros [Hin|Hin]%elem_of_app. }
  case_bool_decide.
  { unfold console, emit. simpl. rewrite Ht2, Ht1. simpl.
    intros [[[Hin|Hin]%elem_of_app|Hin%list_elem_of_In]%elem_of_app
           |Hin%list_elem_of_In]%elem_of_app; [done..| |].
    all: simpl in Hin; destruct Hin as [Hin|[]]; discriminate Hin. }
  unfold console, assign, emit. simpl.
  set (w3 := mkWorld _ _ _).
  destruct (script_loop_total files w3) as [w4 Hloop]. rewrite Hloop.
  rewrite summarise_spec. intros _. simpl.
  destruct (bool_decide (0 < failures (locals w4))%nat) eqn:E; simpl; by rewrite E.
Qed.

End Facts.
End ScriptFacts.

(** * The claims *)

Section Claims.
Context `{Externals}.
Variable cwd : path.

(** ** Reads stay in the input directory, writes in the output directory *)

Lemma part000_event_targets f ev :
  Part000.run_event cwd f ev →
  well_targeted (Part000.INPUT_DIR cwd) (Part000.OUTPUT_DIR cwd) ev.
Proof.
  destruct ev; simpl; try done.
  - by intros ->.
  - by intros ->.
  - intros [n ->]. by eexists.
  - intros [n ->]. by eexists.
  - intros (n & c & -> & _). by eexists.
Qed.

Lemma script_event_targets f ev :
  Script.run_event cwd f ev →
  well_targeted (Script.INPUT_DIR cwd) (Script.OUTPUT_DIR cwd) ev.
Proof.
  destruct ev; simpl; try done.
  - by intros ->.
  - intros [n ->]. by eexists.
  - intros (n & c & -> & _). by eexists.
Qed.

(** C10. No run of either variant creates, changes or removes a node
    inside the input directory: after the run every path strictly inside
    it holds what it held before.  Every [readdir], [stat] and [readFile]
    of the run names the input directory or a path inside it, and every
    [writeFile] and [rm] names the output directory or a path inside it. *)
Theorem input_directory_untouched (argv : list string) (f : FS) :
  (∀ q, under (Part000.INPUT_DIR cwd) q → fs (Part000.run cwd argv f).2 !! q = f !! q)
  ∧ Forall (well_targeted (Part000.INPUT_DIR cwd) (Part000.OUTPUT_DIR cwd))
      (trace (Part000.run cwd argv f).2)
  ∧ (∀ q, under (Script.INPUT_DIR cwd) q → fs (Script.run cwd f).2 !! q = f !! q)
  ∧ Forall (well_targeted (Script.INPUT_DIR cwd) (Script.OUTPUT_DIR cwd))
      (trace (Script.run cwd f).2).
Proof.
  destruct (Part000Facts.run_tracked cwd argv f) as [HP Hfs].
  destruct (ScriptFacts.script_run_tracked cwd f) as [HP' Hfs'].
  split_and!.
  - intros q Hq. apply Hfs. intros ev Hev.
    rewrite Forall_forall in HP. eapply Part000Facts.run_event_safe; eauto.
  - eapply Forall_impl; [exact HP|]. intros ev. apply part000_event_targets.
  - intros q Hq. apply Hfs'. intros ev Hev.
    rewrite Forall_forall in HP'. eapply ScriptFacts.script_event_safe; eauto.
  - eapply Forall_impl; [exact HP'|]. intros ev. apply script_event_targets.
Qed.

(** ** Skipped entries *)

(** C4. An entry of the input directory that is not a regular file, or
    whose name does not end in [.json] whatever the letter case, is
    skipped by [Part000]: handling it succeeds, adds one to [skipped] and
    nothing to [converted] or [failed], leaves the file system alone, and
    neither reads the entry nor calls the encoder nor writes.  In no run of
    either variant is the encoder called on such an entry. *)
Theorem skipped_entries_never_encoded (argv : list string) (f : FS) (entry : Dirent) :
  let p := Part000.INPUT_DIR cwd ++ [name entry] in
  is_regular f p = false ∨ ¬ json_suffix_ci (name entry) →
  (∀ options (w : World Part000.ConversionStats),
     fs w !! p = f !! p →
     ∃ w' t,
       Part000.process_entry cwd options entry w = (Ok tt, w')
       ∧ Part000.entry_step cwd options entry w w' Skipped
       ∧ fs w' = fs w
       ∧ Part000.skipped (locals w') = S (Part000.skipped (locals w))
       ∧ Part000.converted (locals w') = Part000.converted (locals w)
       ∧ Part000.failed (locals w') = Part000.failed (locals w)
       ∧ trace w' = trace w ++ t
       ∧ Forall (λ ev, ¬ is_conversion_call ev) t)
  ∧ (EvEncode p ∉ trace (Part000.run cwd argv f).2)
  ∧ (EvEncode p ∉ trace (Script.run cwd f).2).
Proof.
  intros p Hskip.
  assert (¬ (is_regular f p = true ∧ Part000.is_json_name (name entry) = true)) as Hno.
  { intros [Hreg Hjson]. destruct Hskip as [Hs|Hs]; [congruence|].
    by apply Hs, is_json_name_spec. }
  split_and!.
  - intros options w Hfs.
    destruct (Part000Facts.process_entry_table cwd options entry w)
      as (w' & o & Heq & Hstep).
    assert (is_regular (fs w) p = is_regular f p) as Hreg.
    { unfold is_regular. by rewrite Hfs. }
    inversion Hstep as
      [reason Hstat|Hstat|Hstat Hjson|reason Hstat Hjson Hread
      |raw reason Hstat Hjson Hread Hparse
      |raw data reason Hstat Hjson Hread Hparse Henc
      |raw data text reason Hstat Hjson Hread Hparse Henc Hwrite
      |raw data text f' Hstat Hjson Hread Hparse Henc Hwrite]; subst.
    all: try (exfalso; apply Hno; split; [|done];
              rewrite <-Hreg; by apply stat_isFile_regular).
    all: eexists _, _; split_and!; try done.
    all: unfold Part000.say_if; destruct (Part000.verbose options); simpl.
    all: repeat (apply Forall_cons; split; [by intros []|]); apply Forall_nil; exact I.
  - intros Hin. destruct (Part000Facts.run_tracked cwd argv f) as [HP _].
    rewrite Forall_forall in HP. apply HP in Hin as (n & c & Heq & Hfile & Hjson).
    apply app_inv_head in Heq. simplify_eq. apply Hno.
    split; [|done]. unfold is_regular. fold p. by rewrite Hfile.
  - intros Hin. destruct (ScriptFacts.script_run_tracked cwd f) as [HP _].
    rewrite Forall_forall in HP. apply HP in Hin as (n & c & Heq & Hfile & Hjson).
    apply app_inv_head in Heq. simplify_eq. apply Hno.
    split; [|by apply endsWith_json_ci]. unfold is_regular.
    change (Script.INPUT_DIR cwd ++ [name entry]) with p in Hfile. by rewrite Hfile.
Qed.

(** ** Failures stay with their entry *)

(** C6. A regular file of the input directory with a [.json] name whose
    content does not parse, or whose document the encoder rejects, is
    counted as failed, with the reason logged; the file system is left
    alone; the loop goes on with the entries that follow and reaches its
    end; and every entry of the loop adds exactly one to the sum of
    [converted], [skipped] and [failed]. *)
Theorem failing_entry_is_isolated (options : Part000.CliOptions)
    (entry : Dirent) (rest : list Dirent) (w : World Part000.ConversionStats)
    (rawJson reason : string) :
  let p := Part000.INPUT_DIR cwd ++ [name entry] in
  let body := Part000.process_entry cwd options in
  is_regular (fs w) p = true →
  json_suffix_ci (name entry) →
  Fs.readFile p (fs w) = inr rawJson →
  (JSON_parse rawJson = inl reason
   ∨ ∃ data, JSON_parse rawJson = inr data
             ∧ encode data
                 (mkEncodeOptions (Some (Part000.delimiter options))
                    (Some (Part000.indent options))
                    (Some (Part000.keyFolding options))
                    (Part000.flattenDepth options)) = inl reason) →
  ∃ w1 w2,
    body entry w = (Ok tt, w1)
    ∧ Part000.entry_step cwd options entry w w1 (Failed reason)
    ∧ fs w1 = fs w
    ∧ locals w1 = Part000.inc_failed (Part000.inc_processed (locals w))
    ∧ last (trace w1)
      = Some (EvConsole LError
                ("Failed to convert " +:+ name entry +:+ ". " +:+ reason))
    ∧ for_of (entry :: rest) body w = for_of rest body w1
    ∧ for_of rest body w1 = (Ok tt, w2)
    ∧ Part000.outcomes (locals w2)
      = (Part000.outcomes (locals w) + S (length rest))%nat.
Proof.
  intros p body Hreg Hjson Hread Hfail. subst p body.
  apply stat_isFile_regular in Hreg. apply is_json_name_spec in Hjson.
  destruct (Part000Facts.process_entry_table cwd options entry w)
    as (w1 & o & Heq & Hstep).
  destruct (Part000Facts.loop_counts cwd options (fs w1) rest w1)
    as (w2 & Hloop & _ & _ & _ & _ & Hout); [done|].
  exists w1, w2.
  assert (for_of (entry :: rest) (Part000.process_entry cwd options) w
          = for_of rest (Part000.process_entry cwd options) w1) as Hcons.
  { simpl. unfold bind. by rewrite Heq. }
  inversion Hstep as
    [r Hstat|Hstat|Hstat Hj|r Hstat Hj Hread'
    |raw r Hstat Hj Hread' Hparse
    |raw data r Hstat Hj Hread' Hparse Henc
    |raw data text r Hstat Hj Hread' Hparse Henc Hwrite
    |raw data text f' Hstat Hj Hread' Hparse Henc Hwrite]; subst.
  all: try congruence.
  all: rewrite Hread in Hread'; simplify_eq.
  all: try (destruct Hfail as [Hfail|(d & Hd & Hfail)]; congruence).
  - destruct Hfail as [Hfail|(d & Hd & Hfail)]; [|congruence].
    rewrite Hparse in Hfail. simplify_eq.
    split_and!; try done.
    + simpl. by rewrite last_app.
    + rewrite Hout. unfold Part000.outcomes. simpl. lia.
  - destruct Hfail as [Hfail|(d & Hd & Hfail)]; [congruence|].
    rewrite Hparse in Hd. simplify_eq. rewrite Henc in Hfail. simplify_eq.
    split_and!; try done.
    + simpl. by rewrite last_app.
    + rewrite Hout. unfold Part000.outcomes. simpl. lia.
Qed.

(** ** The counters *)

(** C9, amended.  Before the first entry and after each entry of the loop
    of [Part000], [converted + failed <= processed <= converted + failed +
    skipped]: [processed] is the number of entries seen that are regular
    files, [skipped] the number that are not regular files or are regular
    files without a [.json] name, and [converted + failed] the number of
    regular files with one.  Every value the counters take in between
    satisfies [converted + failed <= processed <= converted + failed +
    skipped + 1]. *)
Theorem stats_invariant_at_boundaries (options : Part000.CliOptions)
    (seen coming : list Dirent) (w : World Part000.ConversionStats) :
  let body := Part000.process_entry cwd options in
  let regular := Part000.regular_entry cwd (fs w) in
  locals w = Part000.mkStats 0 0 0 0 →
  ∃ w1 t,
    for_of seen body w = (Ok tt, w1)
    ∧ for_of (seen ++ coming) body w = for_of coming body w1
    ∧ trace w1 = trace w ++ t
    ∧ Part000.boundary_inv (locals w1)
    ∧ Forall Part000.inner_inv (assigned t)
    ∧ Part000.processed (locals w1) = Part000.count regular seen
    ∧ Part000.skipped (locals w1)
      = Part000.count (λ e, negb (regular e) || negb (Part000.json_entry e)) seen
    ∧ (Part000.converted (locals w1) + Part000.failed (locals w1))%nat
      = Part000.count (λ e, regular e && Part000.json_entry e) seen.
Proof.
  intros body regular Hzero. subst body regular.
  destruct (Part000Facts.loop_counts cwd options (fs w) seen w)
    as (w1 & Hloop & _ & Hp & Hs & Hcf & _); [done|].
  assert (Part000.boundary_inv (locals w)) as Hb.
  { rewrite Hzero. unfold Part000.boundary_inv. simpl. lia. }
  assert (Part000.stats_kept w w1) as Hkept.
  { eapply (preserves_for_of _ (Part000Facts.stats_kept_refl)
              (Part000Facts.stats_kept_trans)); [|exact Hloop].
    intros e _. apply Part000Facts.process_entry_stats_kept. }
  destruct (Hkept Hb) as (Hb1 & t & Ht & Hinner).
  exists w1, t. rewrite Hzero in Hp, Hs, Hcf. simpl in Hp, Hs, Hcf.
  split_and!; try done.
  rewrite (for_of_app seen coming). by rewrite Hloop.
Qed.

(** ** The clean flag *)

Lemma prepare_trace_clean options :
  Part000.clean options = true →
  Part000.prepare_trace cwd options
  = [EvMkdir (Part000.INPUT_DIR cwd); EvMkdir (Part000.OUTPUT_DIR cwd);
     EvRm (Part000.OUTPUT_DIR cwd); EvMkdir (Part000.OUTPUT_DIR cwd);
     EvAssign (Part000.mkStats 0 0 0 0)].
Proof. unfold Part000.prepare_trace. by intros ->. Qed.

(** C8. With [--clean], in a run whose options are valid and whose
    directories can be made: the output directory is removed with all it
    holds and made again, empty, before the input directory is
    enumerated; after the run, a path inside the output directory holds
    a node only if it is the output path of a regular file of the input
    directory with a [.json] name, so every stale node is gone; the run
    ends with status 0.  [emptyOutputDir] succeeds as well where no output
    directory exists, and leaves an empty one. *)
Theorem clean_empties_output_first (argv : list string)
    (options : Part000.CliOptions) (f : FS) :
  let ind := Part000.INPUT_DIR cwd in
  let outd := Part000.OUTPUT_DIR cwd in
  let zero := Part000.mkStats 0 0 0 0 in
  Part000.parseCliOptions argv = inr options →
  Part000.clean options = true →
  creatable f ind → creatable f outd →
  (∃ f1 w t,
     Part000.prepare cwd options (mkWorld f [] zero)
     = (Ok tt, mkWorld f1 [EvMkdir ind; EvMkdir outd; EvRm outd; EvMkdir outd;
                           EvAssign zero] zero)
     ∧ f1 !! outd = Some NDir
     ∧ (∀ q, under outd q → f1 !! q = None)
     ∧ Part000.run cwd argv f = (0%nat, w)
     ∧ trace w = [EvMkdir ind; EvMkdir outd; EvRm outd; EvMkdir outd;
                  EvAssign zero; EvReaddir ind] ++ t
     ∧ Forall (Part000.loop_event cwd f) t
     ∧ ∀ q, under outd q →
            (∀ n, is_regular f (ind ++ [n]) = true →
                  Part000.is_json_name n = true →
                  q ≠ outd ++ [Part000.outputName n]) →
            fs w !! q = None)
  ∧ (∀ w0 : World Part000.ConversionStats,
       fs w0 !! outd = None → creatable (fs w0) outd →
       ∃ f1, Part000.emptyOutputDir cwd w0
             = (Ok tt, mkWorld f1 (trace w0 ++ [EvRm outd; EvMkdir outd]) (locals w0))
             ∧ f1 !! outd = Some NDir
             ∧ ∀ q, under outd q → f1 !! q = None).
Proof.
  intros ind outd zero Hparse Hclean Hin Hout. subst ind outd zero. split.
  - destruct (Part000Facts.run_spec cwd argv options f Hparse Hin Hout)
      as (f1 & entries & Hprep & HIN & HOUT & Hunder & Hempty & _ & Hreaddir & Hrun).
    specialize (Hempty Hclean). rewrite (prepare_trace_clean _ Hclean) in *.
    simpl in Hrun.
    assert (∀ ev, Part000.loop_event cwd f1 ev → Part000.loop_event cwd f ev) as Hframe.
    { intros ev. apply Part000Facts.loop_event_frame. intros q Hq. symmetry. by apply Hunder. }
    assert (∀ q ev, Part000.loop_event cwd f ev → touches ev q →
              ∃ n, q = Part000.OUTPUT_DIR cwd ++ [Part000.outputName n]
                   ∧ is_regular f (Part000.INPUT_DIR cwd ++ [n]) = true
                   ∧ Part000.is_json_name n = true) as Htouch.
    { intros q ev. destruct ev; simpl; try done.
      intros (n & c & -> & Hfile & Hjson) ->. exists n. split_and!; try done.
      unfold is_regular. by rewrite Hfile. }
    case_bool_decide as Hnil.
    + eexists f1, _, [_]. split; [exact Hprep|]. split; [exact HOUT|].
      split; [exact Hempty|]. split; [exact Hrun|]. split; [reflexivity|].
      split; [by apply Forall_singleton|].
      intros q Hq _. simpl. by apply Hempty.
    + destruct Hrun as (w2 & Hloop & Hrun).
      apply Part000Facts.loop_respects in Hloop as (t & Ht & HP & Hfs).
      simpl in Ht, HP, Hfs.
      exists f1, (mkWorld (fs w2) (trace w2 ++ Part000.summary_lines (locals w2))
                    (locals w2)), (t ++ Part000.summary_lines (locals w2)).
      split; [exact Hprep|]. split; [exact HOUT|].
      split; [exact Hempty|]. split; [exact Hrun|]. split_and!.
      * simpl. by rewrite Ht.
      * apply Forall_app. split.
        -- eapply Forall_impl; [exact HP|]. exact Hframe.
        -- unfold Part000.summary_lines. case_bool_decide; simpl;
             repeat (apply Forall_cons; split; [exact I|]); apply Forall_nil; exact I.
      * intros q Hq Hstale. simpl. rewrite Hfs; [by apply Hempty|].
        intros ev Hev Htch. rewrite Forall_forall in HP.
        destruct (Htouch q ev (Hframe _ (HP _ Hev)) Htch) as (n & -> & Hreg & Hjson).
        by eapply Hstale.
  - intros w0 Hnone Hc.
    destruct (Part000Facts.emptyOutputDir_spec cwd w0) as (f1 & Hrun & HOUT & Hempty & _).
    { by apply Part000Facts.creatable_rm_rf. }
    eauto.
Qed.

(** ** An empty input directory *)

Lemma no_files_warning_text :
  Part000.no_files_warning cwd
  = EvConsole LWarn "No files found in input_json. Add .json files and run again.".
Proof.
  unfold Part000.no_files_warning, Part000.relativeFromCwd, Part000.INPUT_DIR.
  by rewrite relative_child.
Qed.

(** C7. When nothing is inside the input directory, a run says so and
    ends with status 0 without printing the summary.  For [Part000] this
    is a run with valid options whose directories can be made (a missing
    input directory is made, and is empty); it prints one warning and
    nothing else.  For [Script] it is a run whose input directory exists
    and whose output directory exists or can be made. *)
Theorem empty_input_ends_quietly :
  (∀ (argv : list string) (options : Part000.CliOptions) (f : FS),
     Part000.parseCliOptions argv = inr options →
     creatable f (Part000.INPUT_DIR cwd) →
     creatable f (Part000.OUTPUT_DIR cwd) →
     (∀ n, f !! (Part000.INPUT_DIR cwd ++ [n]) = None) →
     ∃ w, Part000.run cwd argv f = (0%nat, w)
          ∧ trace w
            = Part000.prepare_trace cwd options ++
              [EvReaddir (Part000.INPUT_DIR cwd);
               EvConsole LWarn
                 "No files found in input_json. Add .json files and run again."]
          ∧ ∀ lvl, EvConsole lvl Part000.summary_header ∉ trace w)
  ∧ (∀ f : FS,
       f !! Script.INPUT_DIR cwd = Some NDir →
       is_Some (f !! Script.OUTPUT_DIR cwd) ∨ creatable f (Script.OUTPUT_DIR cwd) →
       (∀ n, f !! (Script.INPUT_DIR cwd ++ [n]) = None) →
       ∃ w t, Script.run cwd f = (0%nat, w)
              ∧ trace w = t ++ Script.no_json_lines
              ∧ (EvConsole LLog Script.summary_header ∉ trace w)).
Proof.
  split.
  - intros argv options f Hparse Hin Hout Hnone.
    destruct (Part000Facts.run_spec cwd argv options f Hparse Hin Hout)
      as (f1 & entries & Hprep & HIN & HOUT & Hunder & _ & _ & Hreaddir & Hrun).
    rewrite (readdir_nil _ f1) in Hreaddir; [|done|]; last first.
    { intros n. rewrite Hunder; [done|apply under_child]. }
    simplify_eq. simpl in Hrun. rewrite no_files_warning_text in Hrun.
    eexists. split; [exact Hrun|]. simpl. rewrite <-app_assoc. split; [done|].
    intros lvl Hin'. unfold Part000.prepare_trace in Hin'.
    destruct (Part000.clean options); simpl in Hin';
      apply list_elem_of_In in Hin'; simpl in Hin';
      repeat (destruct Hin' as [Hin'|Hin']; [discriminate Hin'|]); done.
  - intros f Hin Hout Hnone.
    assert (∃ f1 t1,
              Script.prepare cwd (mkWorld f [] []) = (Ok tt, mkWorld f1 t1 [])
              ∧ f1 !! Script.INPUT_DIR cwd = Some NDir
              ∧ (∀ n, f1 !! (Script.INPUT_DIR cwd ++ [n]) = None)
              ∧ (EvConsole LLog Script.summary_header ∉ t1))
      as (f1 & t1 & Hprep & HIN & Hnone1 & Hquiet).
    { destruct (f !! Script.OUTPUT_DIR cwd) as [nd|] eqn:HOUT.
      - eexists f, _. split; [|split_and!; try done].
        + apply (ScriptFacts.prepare_both_exist cwd (mkWorld f [] [])); simpl;
            [by rewrite Hin|by rewrite HOUT].
        + simpl. intros Hin'%list_elem_of_In. simpl in Hin'.
          repeat (destruct Hin' as [Hin'|Hin']; [discriminate Hin'|]); done.
      - destruct Hout as [[? ?]|Hout]; [done|].
        destruct (ScriptFacts.prepare_creates_output cwd (mkWorld f [] []))
          as (f1 & Hprep & _ & Hkeep & Hoff); simpl; [by rewrite Hin|done|done|].
        eexists f1, _. split; [exact Hprep|]. split_and!.
        + rewrite Hkeep; simpl; [done|by rewrite Hin].
        + intros n. rewrite Hoff; simpl; [done|].
          apply (siblings_not_prefix _ "input_json"); [done|apply under_child].
        + simpl. intros Hin'%list_elem_of_In. simpl in Hin'.
          repeat (destruct Hin' as [Hin'|Hin']; [discriminate Hin'|]); done. }
    pose proof (ScriptFacts.convert_all_empty cwd (mkWorld f1 t1 []) HIN Hnone1) as Hconv.
    simpl in Hconv.
    eexists _, (t1 ++ [EvReaddir (Script.INPUT_DIR cwd)]).
    unfold Script.run, run_process, try_catch.
    rewrite ScriptFacts.script_main_phases. unfold mbind, M_bind, bind.
    rewrite Hprep, Hconv. simpl. split; [done|]. split; [by rewrite <-app_assoc|].
    intros Hin'. apply elem_of_app in Hin' as [Hin'|Hin']; [done|].
    apply list_elem_of_In in Hin'; simpl in Hin'.
    repeat (destruct Hin' as [Hin'|Hin']; [discriminate Hin'|]); done.
Qed.

(** ** The directories before the enumeration *)

(** C3, amended.  Either variant runs [prepare] and then, only if that
    returns, [convert_all], which starts with the enumeration.
    In [Part000], [prepare] returns exactly when nothing but directories
    lies on the way to either directory, so never fails over a directory
    that is there already; both are directories then, and without
    [--clean] no node that was there has changed.  Otherwise it throws,
    and nothing is enumerated.
    In [Script], the input directory is never made: when nothing is at its
    path, [prepare] prints an error and ends the process with status 1,
    the file system unchanged.  Otherwise the output directory is left as
    it is when something is at its path, and made, with the directories
    on the way, when nothing is. *)
Theorem workspace_before_enumeration :
  (∀ argv w,
     Part000.main cwd argv w
     = match Part000.parseCliOptions argv with
       | inl e => (Throw e, w)
       | inr options =>
           (Part000.prepare cwd options ≫= λ _, Part000.convert_all cwd options) w
       end)
  ∧ (∀ options (w : World Part000.ConversionStats),
       creatable (fs w) (Part000.INPUT_DIR cwd) →
       creatable (fs w) (Part000.OUTPUT_DIR cwd) →
       ∃ f1, Part000.prepare cwd options w
             = (Ok tt, mkWorld f1 (trace w ++ Part000.prepare_trace cwd options)
                         (Part000.mkStats 0 0 0 0))
             ∧ f1 !! Part000.INPUT_DIR cwd = Some NDir
             ∧ f1 !! Part000.OUTPUT_DIR cwd = Some NDir
             ∧ (Part000.clean options = false →
                ∀ q, is_Some (fs w !! q) → f1 !! q = fs w !! q))
  ∧ (∀ options (w : World Part000.ConversionStats),
       ¬ (creatable (fs w) (Part000.INPUT_DIR cwd)
          ∧ creatable (fs w) (Part000.OUTPUT_DIR cwd)) →
       ∃ e w1, Part000.prepare cwd options w = (Throw e, w1))
  ∧ (∀ w, Script.main cwd w = (Script.prepare cwd ≫= λ _, Script.convert_all cwd) w)
  ∧ (∀ w : World (list Script.ConversionResult),
       fs w !! Script.INPUT_DIR cwd = None →
       Script.prepare cwd w
       = (Exit 1, mkWorld (fs w)
                    (trace w ++ [Script.greeting; EvExists (Script.INPUT_DIR cwd)]
                       ++ Script.missing_input_lines cwd)
                    (locals w)))
  ∧ (∀ w : World (list Script.ConversionResult),
       is_Some (fs w !! Script.INPUT_DIR cwd) →
       is_Some (fs w !! Script.OUTPUT_DIR cwd) →
       Script.prepare cwd w
       = (Ok tt, mkWorld (fs w)
                   (trace w ++ [Script.greeting; EvExists (Script.INPUT_DIR cwd);
                                EvExists (Script.OUTPUT_DIR cwd)])
                   (locals w)))
  ∧ (∀ w : World (list Script.ConversionResult),
       is_Some (fs w !! Script.INPUT_DIR cwd) →
       fs w !! Script.OUTPUT_DIR cwd = None →
       creatable (fs w) (Script.OUTPUT_DIR cwd) →
       ∃ f1, Script.prepare cwd w
             = (Ok tt, mkWorld f1
                         (trace w ++ [Script.greeting; EvExists (Script.INPUT_DIR cwd);
                                      EvExists (Script.OUTPUT_DIR cwd);
                                      EvMkdir (Script.OUTPUT_DIR cwd);
                                      Script.created_line cwd])
                         (locals w))
             ∧ f1 !! Script.OUTPUT_DIR cwd = Some NDir
             ∧ ∀ q, is_Some (fs w !! q) → f1 !! q = fs w !! q).
Proof.
  split_and!.
  - apply Part000Facts.main_phases.
  - intros options w Hin Hout.
    destruct (Part000Facts.prepare_spec cwd options w Hin Hout)
      as (f1 & Hprep & HIN & HOUT & _ & _ & Hkeep). eauto 10.
  - intros options w Hno.
    destruct (Part000Facts.ensureWorkspace_fails cwd w Hno) as (e & w1 & Hens).
    exists e, w1. unfold Part000.prepare, mbind, M_bind, bind. by rewrite Hens.
  - apply ScriptFacts.script_main_phases.
  - apply ScriptFacts.prepare_missing_input.
  - apply ScriptFacts.prepare_both_exist.
  - intros w Hin Hout Hc.
    destruct (ScriptFacts.prepare_creates_output cwd w Hin Hout Hc)
      as (f1 & Hprep & HOUT & Hkeep & _). eauto.
Qed.

End Claims.

(** * The claims on concrete runs *)

Section Concrete.
Import Examples.

Local Abbreviation ind := ["work"; "input_json"].
Local Abbreviation outd := ["work"; "output_toon"].
Local Abbreviation zero := (Part000.mkStats 0 0 0 0).

(** C1 (defect in [Part000]).  The input directory holds one file,
    [b.json], which is not JSON.  [Part000] logs the failure, prints the
    summary with [Failed: 1], and ends with status 0; [Script], on the same
    input, prints its summary and ends with status 1. *)
Theorem part000_failed_run_exits_zero :
  (part000 [] fs_one_bad).1 = 0%nat
  ∧ locals (part000 [] fs_one_bad).2 = Part000.mkStats 1 0 0 1
  ∧ trace (part000 [] fs_one_bad).2
    = [EvMkdir ind; EvMkdir outd; EvAssign zero; EvReaddir ind;
       EvStat (ind ++ ["b.json"]);
       EvAssign (Part000.mkStats 1 0 0 0);
       EvReadFile (ind ++ ["b.json"]);
       EvAssign (Part000.mkStats 1 0 0 1);
       EvConsole LError "Failed to convert b.json. Unexpected token in JSON";
       EvConsole LLog (newline +:+ "Batch conversion summary:");
       EvConsole LLog "  Processed: 1";
       EvConsole LLog "  Converted: 0";
       EvConsole LLog "  Skipped:   0";
       EvConsole LLog "  Failed:    1";
       EvConsole LWarn
         "No files were converted. Ensure there are .json files in input_json."]
  ∧ (script fs_one_bad).1 = 1%nat
  ∧ EvConsole LLog Script.summary_header ∈ trace (script fs_one_bad).2.
Proof.
  split_and!; [vm_compute; reflexivity..|].
  apply list_elem_of_In. vm_compute. tauto.
Qed.

(** C2 (defect in [Part000], the one of C1).  The input directory holds
    [a.json] with [{"x":1}] and [b.json] with [{x:}]; no option is given.
    [Part000] writes the encoder's text for [a.json] to
    [output_toon/a.toon], logs the failure of [b.json], and prints
    processed 2, converted 1, skipped 0, failed 1; it ends with status 0,
    not with a failure status. *)
Theorem scenario_exits_zero :
  (part000 [] fs_scenario).1 = 0%nat
  ∧ fs (part000 [] fs_scenario).2 !! (outd ++ ["a.toon"]) = Some (NFile "x: 1" true)
  ∧ Ref.encode (Ref.JObj [("x", Ref.JNum "1")])
      (mkEncodeOptions (Some ",") (Some 2%Z) (Some "off") None) = inr "x: 1"
  ∧ Ref.JSON_parse valid_json = inr (Ref.JObj [("x", Ref.JNum "1")])
  ∧ locals (part000 [] fs_scenario).2 = Part000.mkStats 2 1 0 1
  ∧ trace (part000 [] fs_scenario).2
    = [EvMkdir ind; EvMkdir outd; EvAssign zero; EvReaddir ind;
       EvStat (ind ++ ["b.json"]);
       EvAssign (Part000.mkStats 1 0 0 0);
       EvReadFile (ind ++ ["b.json"]);
       EvAssign (Part000.mkStats 1 0 0 1);
       EvConsole LError "Failed to convert b.json. Unexpected token in JSON";
       EvStat (ind ++ ["a.json"]);
       EvAssign (Part000.mkStats 2 0 0 1);
       EvReadFile (ind ++ ["a.json"]);
       EvEncode (ind ++ ["a.json"]);
       EvWriteFile (outd ++ ["a.toon"]) "x: 1";
       EvAssign (Part000.mkStats 2 1 0 1);
       EvConsole LLog (newline +:+ "Batch conversion summary:");
       EvConsole LLog "  Processed: 2";
       EvConsole LLog "  Converted: 1";
       EvConsole LLog "  Skipped:   0";
       EvConsole LLog "  Failed:    1"].
Proof. split_and!; vm_compute; reflexivity. Qed.

(** C5 (defect).  [--indent 2.5] and [--indent 12abc] are not
    non-negative integers, yet [parseCliOptions] accepts them, as 2 and as
    12, and an empty value, [--indent=], as the default 2; the run then
    goes on to its directories.  Values without a number at the front and
    negative ones are refused, before any call on the file system. *)
Theorem indent_accepts_non_integers :
  @Part000.parseCliOptions Ref.externals ["--indent"; "2.5"]
  = inr (Part000.mkCliOptions 2 "," "off" None false false)
  ∧ @Part000.parseCliOptions Ref.externals ["--indent"; "12abc"]
    = inr (Part000.mkCliOptions 12 "," "off" None false false)
  ∧ @Part000.parseCliOptions Ref.externals ["--indent="]
    = inr (Part000.mkCliOptions 2 "," "off" None false false)
  ∧ (part000 ["--indent"; "2.5"] fs_scenario).1 = 0%nat
  ∧ fs (part000 ["--indent"; "2.5"] fs_scenario).2 !! (outd ++ ["a.toon"])
    = Some (NFile "x: 1" true)
  ∧ part000 ["--indent=-1"] fs_scenario
    = (1%nat, mkWorld fs_scenario
                [EvConsole LError "`--indent` must be a non-negative integer"] zero)
  ∧ part000 ["--indent"; "abc"] fs_scenario
    = (1%nat, mkWorld fs_scenario
                [EvConsole LError "`--indent` must be a non-negative integer"] zero).
Proof.
  split_and!.
  1-5: vm_compute; reflexivity.
  all: apply (@Part000Facts.invalid_options_before_io Ref.externals);
    vm_compute; reflexivity.
Qed.

(** C9, as stated, fails.  The input directory holds the valid [a.json]
    alone.  While the file is read, encoded and written, the counters are
    processed 1, converted 0, skipped 0, failed 0: [processed] exceeds
    [converted + failed + skipped]. *)
Lemma stats_upper_bound_fails_inside_iteration :
  assigned (trace (part000 [] fs_one_good).2)
  = [zero; Part000.mkStats 1 0 0 0; Part000.mkStats 1 1 0 0]
  ∧ ¬ Part000.boundary_inv (Part000.mkStats 1 0 0 0)
  ∧ ¬ Forall Part000.boundary_inv (assigned (trace (part000 [] fs_one_good).2)).
Proof.
  assert (assigned (trace (part000 [] fs_one_good).2)
          = [zero; Part000.mkStats 1 0 0 0; Part000.mkStats 1 1 0 0]) as Heq
    by (vm_compute; reflexivity).
  assert (¬ Part000.boundary_inv (Part000.mkStats 1 0 0 0)) as Hno.
  { unfold Part000.boundary_inv. simpl. lia. }
  split_and!; [done..|]. rewrite Heq. intros Hall.
  apply Forall_cons in Hall as [_ Hall]. apply Forall_cons in Hall as [Hb _].
  exact (Hno Hb).
Qed.

(** C3, as stated, fails for [Script].  Only the working directory is
    there.  [Script] does not make the input directory: it reports that it
    is missing and ends with status 1, the file system as it was. *)
Lemma script_does_not_create_input :
  (script fs_bare).1 = 1%nat
  ∧ fs (script fs_bare).2 = fs_bare
  ∧ fs (script fs_bare).2 !! Script.INPUT_DIR cwd = None
  ∧ trace (script fs_bare).2
    = [Script.greeting; EvExists ind;
       EvConsole LError "❌ Input directory does not exist: /work/input_json";
       EvConsole LLog "   Please create the input_json directory and add JSON files."].
Proof. split_and!; vm_compute; reflexivity. Qed.

End Concrete.

(** * The theorems at concrete inputs *)

Section Witnesses.
Import Examples.

Local Abbreviation ind := ["work"; "input_json"].
Local Abbreviation outd := ["work"; "output_toon"].
Local Abbreviation zero := (Part000.mkStats 0 0 0 0).
Local Abbreviation defaults := (Part000.mkCliOptions 2 "," "off" None false false).
Local Abbreviation cleaning := (Part000.mkCliOptions 2 "," "off" None true false).

(** The directory [nested] of [fs_mixed] is skipped and never encoded. *)
Lemma skipped_entries_never_encoded_witness :
  (is_regular fs_mixed (ind ++ ["nested"]) = false ∨ ¬ json_suffix_ci "nested")
  ∧ (EvEncode (ind ++ ["nested"]) ∉ trace (part000 ["-v"] fs_mixed).2)
  ∧ (EvEncode (ind ++ ["nested"]) ∉ trace (script fs_mixed).2).
Proof.
  assert (is_regular fs_mixed (ind ++ ["nested"]) = false ∨ ¬ json_suffix_ci "nested")
    as Hskip by (left; vm_compute; reflexivity).
  split; [exact Hskip|].
  exact (proj2 (skipped_entries_never_encoded (H := Ref.externals) cwd ["-v"] fs_mixed
                  (mkDirent "nested" false) Hskip)).
Defined.

(** [b.json] of the scenario fails, and [a.json] is still handled. *)
Lemma failing_entry_is_isolated_witness :
  let w := mkWorld fs_stale [] zero in
  let body := @Part000.process_entry Ref.externals cwd defaults in
  is_regular fs_stale (ind ++ ["b.json"]) = true
  ∧ json_suffix_ci "b.json"
  ∧ Fs.readFile (ind ++ ["b.json"]) fs_stale = inr invalid_json
  ∧ Ref.JSON_parse invalid_json = inl "Unexpected token in JSON"
  ∧ ∃ w1 w2,
      body (mkDirent "b.json" true) w = (Ok tt, w1)
      ∧ locals w1 = Part000.mkStats 1 0 0 1
      ∧ for_of [mkDirent "a.json" true] body w1 = (Ok tt, w2)
      ∧ Part000.outcomes (locals w2) = 2%nat.
Proof.
  intros w body.
  assert (is_regular fs_stale (ind ++ ["b.json"]) = true) as Hreg
    by (vm_compute; reflexivity).
  assert (json_suffix_ci "b.json") as Hjson by (by exists "b", ".json").
  assert (Fs.readFile (ind ++ ["b.json"]) fs_stale = inr invalid_json) as Hread
    by (vm_compute; reflexivity).
  assert (Ref.JSON_parse invalid_json = inl "Unexpected token in JSON") as Hparse
    by (vm_compute; reflexivity).
  split; [exact Hreg|]. split; [exact Hjson|]. split; [exact Hread|].
  split; [exact Hparse|].
  destruct (failing_entry_is_isolated (H := Ref.externals) cwd defaults
              (mkDirent "b.json" true) [mkDirent "a.json" true] w
              invalid_json "Unexpected token in JSON" Hreg Hjson Hread (or_introl Hparse))
    as (w1 & w2 & Hstep & _ & _ & Hlocals & _ & _ & Hrest & Hout).
  exists w1, w2. split; [exact Hstep|]. split; [exact Hlocals|].
  split; [exact Hrest|exact Hout].
Defined.

(** The counters after the two entries of the scenario. *)
Lemma stats_invariant_at_boundaries_witness :
  let w := mkWorld fs_stale [] zero in
  let body := @Part000.process_entry Ref.externals cwd defaults in
  let seen := [mkDirent "b.json" true; mkDirent "a.json" true] in
  locals w = zero
  ∧ ∃ w1 t,
      for_of seen body w = (Ok tt, w1)
      ∧ trace w1 = trace w ++ t
      ∧ Part000.boundary_inv (locals w1)
      ∧ Forall Part000.inner_inv (assigned t)
      ∧ Part000.processed (locals w1) = 2%nat.
Proof.
  intros w body seen. split; [reflexivity|].
  destruct (stats_invariant_at_boundaries (H := Ref.externals) cwd defaults seen [] w
              eq_refl)
    as (w1 & t & Hloop & _ & Ht & Hb & Hinner & Hp & _).
  exists w1, t. split; [exact Hloop|]. split; [exact Ht|]. split; [exact Hb|].
  split; [exact Hinner|]. rewrite Hp. vm_compute. reflexivity.
Defined.

(** A clean run over [fs_stale]. *)
Lemma clean_empties_output_first_witness :
  @Part000.parseCliOptions Ref.externals ["--clean"] = inr cleaning
  ∧ Part000.clean cleaning = true
  ∧ creatable fs_stale ind
  ∧ creatable fs_stale outd
  ∧ ∃ f1 w,
      Part000.prepare cwd cleaning (mkWorld fs_stale [] zero)
      = (Ok tt, mkWorld f1 [EvMkdir ind; EvMkdir outd; EvRm outd; EvMkdir outd;
                            EvAssign zero] zero)
      ∧ (∀ q, under outd q → f1 !! q = None)
      ∧ part000 ["--clean"] fs_stale = (0%nat, w).
Proof.
  assert (@Part000.parseCliOptions Ref.externals ["--clean"] = inr cleaning) as Hparse
    by (vm_compute; reflexivity).
  assert (creatable fs_stale ind) as Hin
    by (apply creatableb_spec; vm_compute; reflexivity).
  assert (creatable fs_stale outd) as Hout
    by (apply creatableb_spec; vm_compute; reflexivity).
  split; [exact Hparse|]. split; [reflexivity|]. split; [exact Hin|].
  split; [exact Hout|].
  destruct (clean_empties_output_first (H := Ref.externals) cwd ["--clean"] cleaning
              fs_stale Hparse eq_refl Hin Hout)
    as [(f1 & w & t & Hprep & _ & Hempty & Hrun & _) _].
  exists f1, w. split; [exact Hprep|]. split; [exact Hempty|exact Hrun].
Defined.

(** [Part000] over a missing input directory, [Script] over an empty one. *)
Lemma empty_input_ends_quietly_witness :
  (@Part000.parseCliOptions Ref.externals [] = inr defaults
   ∧ creatable fs_bare ind ∧ creatable fs_bare outd
   ∧ (∀ n, fs_bare !! (ind ++ [n]) = None)
   ∧ ∃ w, part000 [] fs_bare = (0%nat, w)
          ∧ trace w
            = [EvMkdir ind; EvMkdir outd; EvAssign zero; EvReaddir ind;
               EvConsole LWarn
                 "No files found in input_json. Add .json files and run again."])
  ∧ (fs_empty_input !! ind = Some NDir
     ∧ creatable fs_empty_input outd
     ∧ (∀ n, fs_empty_input !! (ind ++ [n]) = None)
     ∧ ∃ w, script fs_empty_input = (0%nat, w)
            ∧ (EvConsole LLog Script.summary_header ∉ trace w)).
Proof.
  assert (@Part000.parseCliOptions Ref.externals [] = inr defaults) as Hparse
    by (vm_compute; reflexivity).
  assert (creatable fs_bare ind) as Hin
    by (apply creatableb_spec; vm_compute; reflexivity).
  assert (creatable fs_bare outd) as Hout
    by (apply creatableb_spec; vm_compute; reflexivity).
  assert (∀ n, fs_bare !! (ind ++ [n]) = None) as Hnone
    by (apply childless_spec; vm_compute; reflexivity).
  assert (fs_empty_input !! ind = Some NDir) as Hdir by (vm_compute; reflexivity).
  assert (creatable fs_empty_input outd) as Hout'
    by (apply creatableb_spec; vm_compute; reflexivity).
  assert (∀ n, fs_empty_input !! (ind ++ [n]) = None) as Hnone'
    by (apply childless_spec; vm_compute; reflexivity).
  destruct (empty_input_ends_quietly (H := Ref.externals) cwd) as [Hpart Hscript].
  split.
  - split; [exact Hparse|]. split; [exact Hin|]. split; [exact Hout|].
    split; [exact Hnone|].
    destruct (Hpart [] defaults fs_bare Hparse Hin Hout Hnone) as (w & Hrun & Ht & _).
    exists w. split; [exact Hrun|exact Ht].
  - split; [exact Hdir|]. split; [exact Hout'|]. split; [exact Hnone'|].
    destruct (Hscript fs_empty_input Hdir (or_intror Hout') Hnone')
      as (w & t & Hrun & _ & Hquiet).
    exists w. split; [exact Hrun|exact Hquiet].
Defined.

(** [Part000] makes both directories over [fs_bare]; [Script] stops. *)
Lemma workspace_before_enumeration_witness :
  (creatable fs_bare ind ∧ creatable fs_bare outd
   ∧ ∃ f1, Part000.prepare cwd defaults (mkWorld fs_bare [] zero)
           = (Ok tt, mkWorld f1 [EvMkdir ind; EvMkdir outd; EvAssign zero] zero)
           ∧ f1 !! ind = Some NDir ∧ f1 !! outd = Some NDir)
  ∧ (fs_bare !! ind = None
     ∧ Script.prepare cwd (mkWorld fs_bare [] [])
       = (Exit 1, mkWorld fs_bare
                    ([Script.greeting; EvExists ind] ++ Script.missing_input_lines cwd)
                    [])).
Proof.
  assert (creatable fs_bare ind) as Hin
    by (apply creatableb_spec; vm_compute; reflexivity).
  assert (creatable fs_bare outd) as Hout
    by (apply creatableb_spec; vm_compute; reflexivity).
  assert (fs_bare !! ind = None) as Hnone by (vm_compute; reflexivity).
  destruct (workspace_before_enumeration (H := Ref.externals) cwd)
    as (_ & Hprep & _ & _ & Hmissing & _).
  split.
  - split; [exact Hin|]. split; [exact Hout|].
    destruct (Hprep defaults (mkWorld fs_bare [] zero) Hin Hout)
      as (f1 & Hrun & HIN & HOUT & _).
    exists f1. split; [exact Hrun|]. split; [exact HIN|exact HOUT].
  - split; [exact Hnone|]. exact (Hmissing (mkWorld fs_bare [] []) Hnone).
Defined.

(** After a clean run over [fs_stale], the stale file and the stale
    directory are gone, and [a.toon] is there. *)
Example clean_removes_stale_nodes :
  fs (part000 ["--clean"] fs_stale).2 !! (outd ++ ["old.toon"]) = None
  ∧ fs (part000 ["--clean"] fs_stale).2 !! (outd ++ ["sub"]) = None
  ∧ fs (part000 ["--clean"] fs_stale).2 !! (outd ++ ["sub"; "deep.toon"]) = None
  ∧ fs (part000 ["--clean"] fs_stale).2 !! (outd ++ ["a.toon"])
    = Some (NFile "x: 1" true)
  ∧ fs (part000 [] fs_stale).2 !! (outd ++ ["old.toon"]) = Some (NFile "stale" true).
Proof. split_and!; vm_compute; reflexivity. Qed.

End Witnesses.

(** * Further facts about names and numbers *)

Section MoreStrFacts.
Implicit Types (s pre suf stem : string).

Lemma append_nil_l s : EmptyString +:+ s = s.
Proof. reflexivity. Qed.

Lemma append_cons (c : ascii) s1 s2 : String c s1 +:+ s2 = String c (s1 +:+ s2).
Proof. reflexivity. Qed.

Lemma substring_prefix pre suf :
  String.substring 0 (String.length pre) (pre +:+ suf) = pre.
Proof.
  induction pre as [|c pre IH]; rewrite ?append_nil_l, ?append_cons; simpl;
    [by destruct suf|]. by rewrite IH.
Qed.

Lemma last_dot_from_append (i : nat) s1 s2 :
  Str.last_dot_from i (s1 +:+ s2)
  = match Str.last_dot_from (i + String.length s1) s2 with
    | Some j => Some j
    | None => Str.last_dot_from i s1
    end.
Proof.
  revert i. induction s1 as [|c s1 IH]; intros i;
    rewrite ?append_nil_l, ?append_cons; simpl.
  - rewrite Nat.add_0_r. by destruct (Str.last_dot_from i s2).
  - rewrite IH. replace (S i + String.length s1)%nat with (i + S (String.length s1))%nat by lia.
    by destruct (Str.last_dot_from _ s2).
Qed.

Lemma lower_ascii_dot (c : ascii) : Str.lower_ascii c = "."%char → c = "."%char.
Proof.
  destruct c as [[] [] [] [] [] [] [] []]; vm_compute; intros; try discriminate; done.
Qed.

Lemma lower_ascii_not_dot (c x : ascii) :
  Str.lower_ascii c = x → x ≠ "."%char → c ≠ "."%char.
Proof. intros <- Hx ->. by apply Hx. Qed.

(** A suffix that lower-cases to [.json] is a dot and four other characters. *)
Lemma json_suffix_shape suf :
  Str.toLowerCase suf = ".json" →
  String.length suf = 5%nat ∧ ∀ i, Str.last_dot_from i suf = Some i.
Proof.
  destruct suf as [|c0 [|c1 [|c2 [|c3 [|c4 [|c5 suf]]]]]]; simpl; try done.
  intros [= H0 H1 H2 H3 H4]. split; [done|]. intros i.
  apply lower_ascii_dot in H0 as ->.
  apply lower_ascii_not_dot in H1, H2, H3, H4; try done.
  rewrite <-Ascii.eqb_neq in H1, H2, H3, H4.
  by rewrite H1, H2, H3, H4.
Qed.

Lemma parse_name_json stem suf :
  Str.toLowerCase suf = ".json" →
  Str.parse_name (stem +:+ suf) = if String.eqb stem EmptyString then suf else stem.
Proof.
  intros Hsuf. destruct (json_suffix_shape suf Hsuf) as [Hlen Hdot].
  unfold Str.parse_name, Str.last_dot. rewrite last_dot_from_append, Hdot. simpl.
  destruct stem as [|c stem]; [done|].
  assert ((String c stem +:+ suf =? "..")%string = false) as ->.
  { apply String.eqb_neq. intros Heq. apply (f_equal String.length) in Heq.
    rewrite length_append in Heq. simpl in Heq. lia. }
  rewrite append_cons. simpl. by rewrite substring_prefix.
Qed.

Lemma basename_json stem :
  Str.basename (stem +:+ ".json") ".json"
  = if String.eqb stem EmptyString then ".json" else stem.
Proof.
  unfold Str.basename. rewrite length_append. simpl.
  destruct stem as [|c stem]; simpl; [done|].
  assert (Str.endsWith (String c stem +:+ ".json") ".json" = true) as Hends.
  { apply endsWith_spec. by eexists. }
  simpl in Hends. rewrite Hends.
  destruct (Nat.ltb_spec 5 (S (String.length stem + 5))) as [_|]; [|lia]. simpl.
  replace (String.length stem + 5 - 4)%nat with (S (String.length stem)) by lia.
  replace (String.length stem + 5 - 5)%nat with (String.length stem) by lia.
  by rewrite substring_prefix.
Qed.





End MoreStrFacts.

(** * Further facts about the file system *)

Section MoreFsFacts.
Implicit Types (f : FS) (p q d : path).

Lemma parent_child d (n : string) : Fs.parent (d ++ [n]) = d.
Proof. apply removelast_last. Qed.

Lemma child_not_prefix d (n : string) q : q `prefix_of` d → q ≠ d ++ [n].
Proof.
  intros [k ->] Heq. apply (f_equal length) in Heq.
  rewrite !length_app in Heq. simpl in Heq. lia.
Qed.

(** A successful write, node by node. *)
Lemma writeFile_lookup d (n : string) text f f' :
  Fs.writeFile (d ++ [n]) text f = inr f' →
  f !! d = Some NDir ∧ f' = <[d ++ [n] := default NDir (overwritten text (f !! (d ++ [n])))]> f
  ∧ f' !! (d ++ [n]) = overwritten text (f !! (d ++ [n])).
Proof.
  unfold Fs.writeFile. rewrite parent_child.
  destruct (f !! d) as [[| |]|]; try done.
  destruct (f !! (d ++ [n])) as [[c r| |]|] eqn:E; intros; simplify_eq; simpl;
    by rewrite lookup_insert_eq.
Qed.

(** A write fails only over a missing parent, a directory or a special node. *)
Lemma writeFile_fails d (n : string) text f e :
  Fs.writeFile (d ++ [n]) text f = inl e →
  f !! d = Some NDir → overwritten text (f !! (d ++ [n])) = f !! (d ++ [n]).
Proof.
  unfold Fs.writeFile. rewrite parent_child. intros Hw Hd. rewrite Hd in Hw.
  by destruct (f !! (d ++ [n])) as [[c r| |]|].
Qed.

Lemma mkdir_p_made p f f' : Fs.mkdir_p p f = inr f' → made f' p.
Proof. by intros (_ & Hon & _)%mkdir_p_spec. Qed.

Lemma mkdir_from_noop pre rest f :
  (∀ q, on_way pre rest q → f !! q = Some NDir) → Fs.mkdir_from pre rest f = inr f.
Proof.
  revert pre. induction rest as [|c rest IH]; intros pre Hon; simpl; [done|].
  rewrite (Hon (pre ++ [c])) by (apply on_way_cons; by left).
  apply IH. intros q Hq. apply Hon, on_way_cons. by right.
Qed.

(** [mkdir -p] over directories that are all there changes nothing. *)
Lemma mkdir_p_noop p f : made f p → Fs.mkdir_p p f = inr f.
Proof. intros Hm. apply mkdir_from_noop. intros q [??]%on_way_root. by apply Hm. Qed.

Lemma mkdir_from_last pre rest (c : string) f :
  (∀ q, on_way pre rest q → f !! q = Some NDir) →
  f !! (pre ++ rest ++ [c]) = None →
  Fs.mkdir_from pre (rest ++ [c]) f = inr (<[pre ++ rest ++ [c] := NDir]> f).
Proof.
  revert pre. induction rest as [|x rest IH]; intros pre Hon Hnone; simpl in *.
  - by rewrite Hnone.
  - rewrite (Hon (pre ++ [x])) by (apply on_way_cons; by left).
    rewrite (IH (pre ++ [x])); rewrite <-?app_assoc; simpl; [done| |done].
    intros q Hq. apply Hon, on_way_cons. by right.
Qed.

(** [mkdir -p] of a missing directory whose parent is made. *)
Lemma mkdir_p_last d (c : string) f :
  made f d → f !! (d ++ [c]) = None →
  Fs.mkdir_p (d ++ [c]) f = inr (<[d ++ [c] := NDir]> f).
Proof.
  intros Hm Hnone. apply (mkdir_from_last [] d c f); [|done].
  intros q [??]%on_way_root. by apply Hm.
Qed.

Lemma made_parent d (c : string) f : made f (d ++ [c]) → made f d.
Proof. intros Hm q [k ->] Hne. apply Hm; [|done]. exists (k ++ [c]). by rewrite app_assoc. Qed.

Lemma made_keep f f' p : made f p → (∀ q, is_Some (f !! q) → f' !! q = f !! q) → made f' p.
Proof. intros Hm Hkeep q Hq Hne. rewrite Hkeep; rewrite Hm; done. Qed.

Lemma made_creatable f p : made f p → creatable f p.
Proof. intros Hm q Hq Hne. right. by apply Hm. Qed.

Lemma entry_names_spec f d n : n ∈ entry_names f d ↔ is_Some (f !! (d ++ [n])).
Proof.
  unfold entry_names. rewrite list_elem_of_omap. split.
  - intros ([k nd] & Hin%elem_of_map_to_list & Hk). simpl in Hk.
    apply child_name_spec in Hk as ->. by eexists.
  - intros [nd Hnd]. exists (d ++ [n], nd). split; [by apply elem_of_map_to_list|].
    simpl. by apply child_name_spec.
Qed.

Lemma readdir_names d f es :
  Fs.readdir d f = inr es →
  (∀ n, n ∈ name <$> es ↔ is_Some (f !! (d ++ [n]))) ∧ NoDup (name <$> es).
Proof.
  intros (_ & Hin & Hnd)%readdir_spec. split; [|done].
  intros n. rewrite list_elem_of_fmap. split.
  - intros (e & -> & (nd & Hnd' & _)%Hin). by eexists.
  - intros [nd Hn]. exists (mkDirent n (Fs.is_file nd)). split; [done|].
    apply Hin. simpl. eauto.
Qed.

End MoreFsFacts.

(** * Runs that lose nothing *)

Section Kept.
Context {L : Type}.
Variables (ind outd : path) (accepted : string → bool) (outname : string → string).
Hypothesis apart : ∀ q, under ind q → ¬ outd `prefix_of` q.

Local Abbreviation R := (@rewrites_outputs_only L ind outd accepted outname).

Lemma kept_same_fs (w w' : World L) : fs w' = fs w → R w w'.
Proof. intros Heq. split; intros; rewrite Heq; auto. Qed.

Lemma kept_refl (w : World L) : R w w.
Proof. by apply kept_same_fs. Qed.

Lemma kept_trans (w1 w2 w3 : World L) : R w1 w2 → R w2 w3 → R w1 w3.
Proof.
  intros [Hin1 Hk1] [Hin2 Hk2]. split.
  - intros q Hq. by rewrite Hin2, Hin1.
  - intros q nd Hnd. destruct (Hk1 q nd Hnd) as [Hsame|Hnew].
    + destruct (Hk2 q nd Hsame) as [Hsame'|(n & c0 & c & r & c' & -> & Ha & Hn & -> & Hq)];
        [by left|right].
      exists n, c0, c, r, c'. split_and!; try done.
      rewrite <-Hin1; [done|apply under_child].
    + destruct Hnew as (n & c0 & c & r & c' & -> & Ha & Hn & -> & Hq). right.
      destruct (Hk2 _ _ Hq) as [Hsame'|(n' & c0' & c1 & r1 & c'' & _ & _ & _ & Heq & Hq')].
      * exists n, c0, c, r, c'. by split_and!.
      * simplify_eq. exists n, c0, c, r1, c''. by split_and!.
Qed.

Lemma kept_console (lvl : Level) (msg : string) : preserves R (console lvl msg).
Proof. intros w r w' [= <- <-]. by apply kept_same_fs. Qed.

Lemma kept_assign (l : L) : preserves R (assign l).
Proof. intros w r w' [= <- <-]. by apply kept_same_fs. Qed.

Lemma kept_fs_read {A} (ev : Event L) (op : FS → string + A) : preserves R (fs_read ev op).
Proof.
  intros w r w'. unfold fs_read, lift, throw, ret.
  destruct (op (fs w)); intros [= <- <-]; by apply kept_same_fs.
Qed.

Lemma kept_traced {A} (ev : Event L) (x : string + A) : preserves R (traced ev x).
Proof.
  intros w r w'. unfold traced, lift, throw, ret.
  destruct x; intros [= <- <-]; by apply kept_same_fs.
Qed.

(** [mkdir -p] of a directory that is not inside [ind]. *)
Lemma kept_mkdir (p : path) :
  (∀ q, under ind q → ¬ q `prefix_of` p) → preserves R (mkdir p).
Proof.
  intros Hp w r w'. unfold mkdir, fs_write.
  destruct (Fs.mkdir_p p (fs w)) as [e|f'] eqn:E; intros [= <- <-].
  - by apply kept_same_fs.
  - apply mkdir_p_spec in E as (_ & _ & Hoff & Hkeep). split; simpl.
    + intros q Hq. by apply Hoff, Hp.
    + intros q nd Hnd. left. rewrite Hkeep; [done|]. by rewrite Hnd.
Qed.

(** A write to the output path of a readable regular file of [ind]. *)
Lemma kept_write (n c0 text : string) (w : World L) (f' : FS)
    (t : list (Event L)) (l : L) :
  accepted n = true →
  fs w !! (ind ++ [n]) = Some (NFile c0 true) →
  Fs.writeFile (outd ++ [outname n]) text (fs w) = inr f' →
  R w (mkWorld f' t l).
Proof.
  intros Ha Hn Hw. pose proof (writeFile_spec _ _ _ _ Hw) as [_ Hoff].
  apply writeFile_lookup in Hw as (_ & _ & Hat). split; simpl.
  - intros q Hq. apply Hoff. intros ->. apply (apart _ Hq). by eexists.
  - intros q nd Hnd. destruct (decide (q = outd ++ [outname n])) as [->|Hne].
    + rewrite Hat, Hnd. destruct nd as [c r| |]; simpl; [|by left..].
      right. exists n, c0, c, r, text. by split_and!.
    + left. by rewrite Hoff.
Qed.

End Kept.

(** * Computations that differ in what they tell only *)

Section Agree.
Context {L : Type}.

Lemma without_info_app (t1 t2 : list (Event L)) :
  without_info (t1 ++ t2) = without_info t1 ++ without_info t2.
Proof. apply List.filter_app. Qed.

Lemma same_but_info_refl (w : World L) : same_but_info w w.
Proof. by split_and!. Qed.

Lemma same_but_info_emit (ev : Event L) (w1 w2 : World L) :
  same_but_info w1 w2 → same_but_info (emit ev w1) (emit ev w2).
Proof.
  intros (Hf & Hl & Ht). split_and!; simpl; [done..|].
  by rewrite !without_info_app, Ht.
Qed.

Lemma agree_ret {A} (a : A) : agree_but_info (@ret L A a) (ret a).
Proof. by intros w1 w2 Hw. Qed.

Lemma agree_throw {A} (e : string) : agree_but_info (@throw L A e) (throw e).
Proof. by intros w1 w2 Hw. Qed.

Lemma agree_exit {A} (c : nat) : agree_but_info (@exit L A c) (exit c).
Proof. by intros w1 w2 Hw. Qed.

Lemma agree_lift {A} (x : string + A) : agree_but_info (@lift L A x) (lift x).
Proof. destruct x; [apply agree_throw|apply agree_ret]. Qed.

Lemma agree_bind {A B} (m1 m2 : M L A) (k1 k2 : A → M L B) :
  agree_but_info m1 m2 → (∀ a, agree_but_info (k1 a) (k2 a)) →
  agree_but_info (m1 ≫= k1) (m2 ≫= k2).
Proof.
  intros Hm Hk w1 w2 Hw. unfold mbind, M_bind, bind.
  destruct (Hm w1 w2 Hw) as [Hr Hw'].
  destruct (m1 w1) as [[a|e|c] w1'], (m2 w2) as [[a'|e'|c'] w2']; simplify_eq/=;
    try done.
  by apply Hk.
Qed.

Lemma agree_try_catch {A} (m1 m2 : M L A) (h1 h2 : string → M L A) :
  agree_but_info m1 m2 → (∀ e, agree_but_info (h1 e) (h2 e)) →
  agree_but_info (try_catch m1 h1) (try_catch m2 h2).
Proof.
  intros Hm Hh w1 w2 Hw. unfold try_catch.
  destruct (Hm w1 w2 Hw) as [Hr Hw'].
  destruct (m1 w1) as [[a|e|c] w1'], (m2 w2) as [[a'|e'|c'] w2']; simplify_eq/=;
    try done.
  by apply Hh.
Qed.

Lemma agree_when (c : bool) (m1 m2 : M L unit) :
  agree_but_info m1 m2 → agree_but_info (when c m1) (when c m2).
Proof. destruct c; [done|]. intros _. apply agree_ret. Qed.

Lemma agree_for_of {A} (l : list A) (body1 body2 : A → M L unit) :
  (∀ x, agree_but_info (body1 x) (body2 x)) →
  agree_but_info (for_of l body1) (for_of l body2).
Proof.
  intros Hb. induction l as [|x l IH]; simpl; [apply agree_ret|].
  apply (agree_bind (body1 x) (body2 x)); [apply Hb|]. intros _. apply IH.
Qed.

Lemma agree_console (lvl : Level) (msg : string) :
  agree_but_info (@console L lvl msg) (console lvl msg).
Proof. intros w1 w2 Hw. split; [done|]. by apply same_but_info_emit. Qed.

(** A line of [console.info] that one side may print and the other not. *)
Lemma agree_info (b1 b2 : bool) (msg1 msg2 : string) :
  agree_but_info (when b1 (@console L LInfo msg1)) (when b2 (console LInfo msg2)).
Proof.
  intros w1 w2 (Hf & Hl & Ht). destruct b1, b2; simpl; (split; [done|]).
  all: split_and!; simpl; try done.
  all: rewrite ?without_info_app; simpl; by rewrite ?app_nil_r.
Qed.

Lemma agree_get_locals : agree_but_info (@get_locals L) get_locals.
Proof. intros w1 w2 Hw. simpl. split; [|done]. f_equal. apply Hw. Qed.

Lemma agree_assign (l : L) : agree_but_info (assign l) (assign l).
Proof.
  intros w1 w2 (Hf & Hl & Ht). split; [done|]. split_and!; simpl; [done..|].
  by rewrite !without_info_app, Ht.
Qed.

Lemma agree_fs_read {A} (ev : Event L) (op : FS → string + A) :
  agree_but_info (fs_read ev op) (fs_read ev op).
Proof.
  intros w1 w2 Hw. unfold fs_read. destruct Hw as (Hf & Hl & Ht). rewrite Hf.
  apply agree_lift. by apply same_but_info_emit.
Qed.

Lemma agree_traced {A} (ev : Event L) (x : string + A) :
  agree_but_info (traced ev x) (traced ev x).
Proof. intros w1 w2 Hw. unfold traced. apply agree_lift. by apply same_but_info_emit. Qed.

Lemma agree_fs_write (ev : Event L) (op : FS → string + FS) :
  agree_but_info (fs_write ev op) (fs_write ev op).
Proof.
  intros w1 w2 (Hf & Hl & Ht). unfold fs_write. rewrite Hf.
  destruct (op (fs w2)); (split; [done|]); split_and!; simpl; try done.
  all: by rewrite !without_info_app, Ht.
Qed.

Lemma agree_run_process (main1 main2 : M L unit) (h1 h2 : string → M L unit)
    (w : World L) :
  agree_but_info main1 main2 → (∀ e, agree_but_info (h1 e) (h2 e)) →
  (run_process main1 h1 w).1 = (run_process main2 h2 w).1
  ∧ same_but_info (run_process main1 h1 w).2 (run_process main2 h2 w).2.
Proof.
  intros Hm Hh. unfold run_process. simpl.
  destruct (agree_try_catch _ _ _ _ Hm Hh w w (same_but_info_refl w)) as [Hr Hw].
  split; [by rewrite Hr|done].
Qed.

End Agree.

(** * Writes, entry after entry *)

Section WriteEffects.
Variables (ind outd : path) (outname : string → string).
Variable conv : FS → string → option string.
Hypothesis conv_frame :
  ∀ f f' n, f' !! (ind ++ [n]) = f !! (ind ++ [n]) → conv f' n = conv f n.
Hypothesis apart : ∀ q, under ind q → ¬ outd `prefix_of` q.

Local Abbreviation effect := (write_effect outd outname conv).

Lemma output_not_input (n m : string) : ind ++ [m] ≠ outd ++ [outname n].
Proof. intros Heq. apply (apart (ind ++ [m])); [apply under_child|]. rewrite Heq. by eexists. Qed.

Lemma write_effect_other f n q :
  (is_Some (conv f n) → q ≠ outd ++ [outname n]) → effect f n !! q = f !! q.
Proof.
  unfold write_effect. destruct (conv f n) as [text|]; [|done].
  intros Hq. destruct (Fs.writeFile _ text f) as [e|f'] eqn:Hw; [done|].
  apply writeFile_spec in Hw as [_ Hoff]. apply Hoff, Hq. by eexists.
Qed.

Lemma write_effect_output f n :
  f !! outd = Some NDir →
  effect f n !! (outd ++ [outname n])
  = match conv f n with
    | Some text => overwritten text (f !! (outd ++ [outname n]))
    | None => f !! (outd ++ [outname n])
    end.
Proof.
  intros Hout. unfold write_effect.
  destruct (conv f n) as [text|]; [|done].
  destruct (Fs.writeFile _ text f) as [e|f'] eqn:Hw.
  - symmetry. by eapply writeFile_fails.
  - by apply writeFile_lookup in Hw as (_ & _ & ->).
Qed.

Lemma fold_effect_other l f q :
  (∀ n, n ∈ l → is_Some (conv f n) → q ≠ outd ++ [outname n]) →
  foldl effect f l !! q = f !! q.
Proof.
  revert f. induction l as [|n l IH]; intros f Hq; simpl; [done|].
  rewrite IH.
  - apply write_effect_other. apply Hq. by left.
  - intros m Hm Hc. apply Hq; [by right|].
    rewrite <-(conv_frame f (effect f n)); [done|].
    apply write_effect_other. intros _. apply output_not_input.
Qed.

(** The loop changes nothing but output paths. *)
Lemma fold_effect_frame l f q :
  (∀ x : string, q ≠ outd ++ [x]) → foldl effect f l !! q = f !! q.
Proof. intros Hq. apply fold_effect_other. intros n _ _. apply Hq. Qed.

Lemma fold_effect_input l f q : under ind q → foldl effect f l !! q = f !! q.
Proof.
  intros Hq. apply fold_effect_frame. intros x ->. apply (apart _ Hq). by eexists.
Qed.

Lemma fold_effect_outd l f : foldl effect f l !! outd = f !! outd.
Proof.
  apply fold_effect_frame. intros x Heq. apply (f_equal length) in Heq.
  rewrite length_app in Heq. simpl in Heq. lia.
Qed.

(** The output path of an entry that shares its output name with no
    other: only that entry writes there. *)
Lemma fold_effect_output l f n :
  n ∈ l → NoDup l →
  (∀ m, m ∈ l → outname m = outname n → m = n) →
  f !! outd = Some NDir →
  foldl effect f l !! (outd ++ [outname n])
  = match conv f n with
    | Some text => overwritten text (f !! (outd ++ [outname n]))
    | None => f !! (outd ++ [outname n])
    end.
Proof.
  revert f. induction l as [|m l IH]; intros f Hin Hnd Hone Hout; [by apply elem_of_nil in Hin|].
  apply NoDup_cons in Hnd as [Hm Hnd]. simpl.
  destruct (decide (m = n)) as [->|Hne].
  - rewrite fold_effect_other; [by apply write_effect_output|].
    intros m' Hm' _ Heq%app_inv_head. simplify_eq. apply Hm.
    rewrite <-(Hone m'); [done|by right|done].
  - apply elem_of_cons in Hin as [->|Hin]; [done|].
    rewrite IH; try done.
    + rewrite (conv_frame f (effect f m)); last first.
      { apply write_effect_other. intros _. apply output_not_input. }
      rewrite (write_effect_other f m (outd ++ [outname n])); [done|].
      intros _ Heq%app_inv_head. simplify_eq. apply Hne. apply Hone; [by left|done].
    + intros m' Hm'. apply Hone. by right.
    + rewrite write_effect_other; [done|]. intros _ Heq.
      apply (f_equal length) in Heq. rewrite length_app in Heq. simpl in Heq. lia.
Qed.

Lemma overwritten_idem text nd : overwritten text (overwritten text nd) = overwritten text nd.
Proof. by destruct nd as [[| |]|]. Qed.

(** Run over its own result, the loop changes nothing, in whatever order
    the entries come, when no two of them share an output name. *)
Lemma fold_effect_again l l' f :
  NoDup l → NoDup l' → (∀ n, n ∈ l ↔ n ∈ l') →
  (∀ n m, n ∈ l → m ∈ l → outname n = outname m → n = m) →
  f !! outd = Some NDir →
  foldl effect (foldl effect f l) l' = foldl effect f l.
Proof.
  intros Hnd Hnd' Hsame Hdist Hout. set (g := foldl effect f l).
  assert (g !! outd = Some NDir) as Hout'.
  { unfold g. by rewrite fold_effect_outd. }
  apply map_eq. intros q.
  destruct (decide (Exists (λ n, q = outd ++ [outname n]) l')) as [Hex|Hno].
  - apply Exists_exists in Hex as (n & Hn' & ->).
    assert (n ∈ l) as Hn by by apply Hsame.
    rewrite fold_effect_output; try done; last first.
    { intros m Hm. apply Hdist; by apply Hsame. }
    rewrite (conv_frame f g); last first.
    { unfold g. apply fold_effect_input, under_child. }
    unfold g. rewrite fold_effect_output; try done; last first.
    { intros m Hm. by apply Hdist. }
    destruct (conv f n); [apply overwritten_idem|done].
  - apply fold_effect_other. intros n Hn _ ->. apply Hno, Exists_exists. eauto.
Qed.

End WriteEffects.

Lemma distinct_outputsb_spec ind outname f :
  distinct_outputsb ind outname f = true → distinct_outputs ind outname f.
Proof.
  unfold distinct_outputsb. rewrite forallb_forall. intros Hall n m Hn Hm Heq.
  apply entry_names_spec, list_elem_of_In in Hn, Hm.
  specialize (Hall n Hn). rewrite forallb_forall in Hall. specialize (Hall m Hm).
  rewrite Heq, String.eqb_refl in Hall. simpl in Hall. by apply String.eqb_eq.
Qed.

(** * Two things tracked at once *)

Lemma tracked_and {L : Type} (P Q : FS → Event L → Prop) (w w' : World L) :
  tracked P w w' →
  (∃ t, trace w' = trace w ++ t ∧ Forall (Q (fs w)) t) →
  tracked (λ f ev, P f ev ∧ Q f ev) w w'.
Proof.
  intros (t & Ht & HP & Hfs) (t' & Ht' & HQ).
  rewrite Ht in Ht'. apply app_inv_head in Ht' as <-.
  exists t. split_and!; [done| |done].
  apply Forall_forall. intros ev Hev. rewrite Forall_forall in HP, HQ. auto.
Qed.

(** * The checks of [parseCliOptions] *)

Section OptionFacts.
Context `{Externals}.


End OptionFacts.

(** * What a run of [Part000] leaves behind *)

Module Part000Effects.
Import Part000.

Section Facts.
Context `{Externals}.
Variable cwd : path.

Local Abbreviation IN := (INPUT_DIR cwd).
Local Abbreviation OUT := (OUTPUT_DIR cwd).
Local Abbreviation zero := (mkStats 0 0 0 0).

Lemma outputPath_not_prefix n q :
  q `prefix_of` IN ∨ q `prefix_of` OUT → q ≠ outputPath cwd n.
Proof.
  intros [[k Hk]|[k Hk]] ->; apply (f_equal length) in Hk;
    unfold outputPath, INPUT_DIR, OUTPUT_DIR in Hk; rewrite !length_app in Hk;
    simpl in Hk; lia.
Qed.

(** ** The conversion of one entry *)

Lemma conversion_Some options f n text :
  conversion cwd options f n = Some text ↔
  ∃ c d, f !! (IN ++ [n]) = Some (NFile c true) ∧ is_json_name n = true
         ∧ JSON_parse c = inr d ∧ encode d (encoder_options options) = inr text.
Proof.
  unfold conversion, is_regular. split.
  - destruct (f !! (IN ++ [n])) as [[c [|]| |]|] eqn:E; simpl; try done;
      unfold Fs.readFile; rewrite E; simpl; try (by destruct (is_json_name n)).
    destruct (is_json_name n); [|done].
    destruct (JSON_parse c) as [e|d] eqn:Ep; simpl; [done|].
    destruct (encode d _) as [e|t] eqn:Ee; simpl; [done|].
    intros [= <-]. eauto 10.
  - intros (c & d & Hf & Hj & Hp & He). unfold Fs.readFile. rewrite Hf, Hj. simpl.
    rewrite Hp. simpl. by rewrite He.
Qed.

Lemma conversion_frame options f f' n :
  f' !! (IN ++ [n]) = f !! (IN ++ [n]) →
  conversion cwd options f' n = conversion cwd options f n.
Proof. intros Heq. unfold conversion, is_regular, Fs.readFile. by rewrite Heq. Qed.

(** ** What one entry does to the file system *)

Lemma entry_step_effect options entry w w' o :
  entry_step cwd options entry w w' o →
  fs w' = entry_effect cwd options (fs w) (name entry).
Proof.
  intros Hstep. unfold entry_effect, write_effect.
  destruct (conversion cwd options (fs w) (name entry)) as [text|] eqn:Hconv.
  - apply conversion_Some in Hconv as (c & d & Hf & Hj & Hp & He).
    assert (Fs.stat_isFile (IN ++ [name entry]) (fs w) = inr true) as Hs.
    { apply stat_isFile_regular. unfold is_regular. by rewrite Hf. }
    apply readFile_Some in Hf. unfold encoder_options in He.
    destruct Hstep as
      [reason Hstat|Hstat|Hstat Hjson|reason Hstat Hjson Hread
      |raw reason Hstat Hjson Hread Hparse
      |raw data reason Hstat Hjson Hread Hparse Henc
      |raw data text' reason Hstat Hjson Hread Hparse Henc Hwrite
      |raw data text' f' Hstat Hjson Hread Hparse Henc Hwrite]; simpl; try congruence.
    all: rewrite Hf in Hread; simplify_eq; try congruence.
    all: rewrite Hp in Hparse; simplify_eq; try congruence.
    all: rewrite He in Henc; simplify_eq.
    all: by rewrite Hwrite.
  - destruct Hstep as
      [reason Hstat|Hstat|Hstat Hjson|reason Hstat Hjson Hread
      |raw reason Hstat Hjson Hread Hparse
      |raw data reason Hstat Hjson Hread Hparse Henc
      |raw data text reason Hstat Hjson Hread Hparse Henc Hwrite
      |raw data text f' Hstat Hjson Hread Hparse Henc Hwrite]; simpl; try done.
    apply readFile_Some in Hread.
    assert (conversion cwd options (fs w) (name entry) = Some text) as Hc.
    { apply conversion_Some. eauto 10. }
    congruence.
Qed.

(** ** The loop, as a fold of [entry_effect] *)

Lemma loop_effect options entries w :
  ∃ w', for_of entries (process_entry cwd options) w = (Ok tt, w')
        ∧ fs w' = foldl (entry_effect cwd options) (fs w) (name <$> entries).
Proof.
  revert w. induction entries as [|e es IH]; intros w; simpl; [by eexists|].
  destruct (Part000Facts.process_entry_table cwd options e w) as (w1 & o & Heq & Hstep).
  destruct (IH w1) as (w' & Hloop & Hfs). exists w'.
  unfold bind. rewrite Heq. split; [done|].
  by rewrite Hfs, (entry_step_effect _ _ _ _ _ Hstep).
Qed.

Lemma loop_other options l f q :
  (∀ n, n ∈ l → is_Some (conversion cwd options f n) → q ≠ outputPath cwd n) →
  foldl (entry_effect cwd options) f l !! q = f !! q.
Proof.
  apply (fold_effect_other IN OUT outputName (conversion cwd options)).
  - apply conversion_frame.
  - apply Part000Facts.in_not_under_out.
Qed.

Lemma loop_input options l f q :
  under IN q → foldl (entry_effect cwd options) f l !! q = f !! q.
Proof.
  apply (fold_effect_input IN OUT outputName (conversion cwd options)).
  - apply conversion_frame.
  - apply Part000Facts.in_not_under_out.
Qed.

Lemma loop_frame options l f q :
  q `prefix_of` IN ∨ q `prefix_of` OUT →
  foldl (entry_effect cwd options) f l !! q = f !! q.
Proof.
  intros Hq. apply loop_other. intros n _ _. by apply outputPath_not_prefix.
Qed.

Lemma loop_output options l f n :
  n ∈ l → NoDup l →
  (∀ m, m ∈ l → outputName m = outputName n → m = n) →
  f !! OUT = Some NDir →
  foldl (entry_effect cwd options) f l !! outputPath cwd n
  = match conversion cwd options f n with
    | Some text => overwritten text (f !! outputPath cwd n)
    | None => f !! outputPath cwd n
    end.
Proof.
  apply (fold_effect_output IN OUT outputName (conversion cwd options)).
  - apply conversion_frame.
  - apply Part000Facts.in_not_under_out.
Qed.

Lemma loop_again options l l' f :
  NoDup l → NoDup l' → (∀ n, n ∈ l ↔ n ∈ l') →
  (∀ n m, n ∈ l → m ∈ l → outputName n = outputName m → n = m) →
  f !! OUT = Some NDir →
  foldl (entry_effect cwd options) (foldl (entry_effect cwd options) f l) l'
  = foldl (entry_effect cwd options) f l.
Proof.
  apply (fold_effect_again IN OUT outputName (conversion cwd options)).
  - apply conversion_frame.
  - apply Part000Facts.in_not_under_out.
Qed.

(** ** The preparation, once more *)

Lemma ensureWorkspace_made w w' :
  ensureWorkspace cwd w = (Ok tt, w') → made (fs w') IN ∧ made (fs w') OUT.
Proof.
  unfold ensureWorkspace, mkdir, fs_write, mbind, M_bind, bind, emit, set_fs. simpl.
  destruct (Fs.mkdir_p IN (fs w)) as [e|f0] eqn:Hf0; [done|]. simpl.
  destruct (Fs.mkdir_p OUT f0) as [e|f1] eqn:Hf1; [done|]. intros [= <-]. simpl.
  split; [|by eapply mkdir_p_made].
  apply mkdir_p_made in Hf0. apply mkdir_p_spec in Hf1 as (_ & _ & _ & Hkeep).
  by eapply made_keep.
Qed.

Lemma ensureWorkspace_noop w :
  made (fs w) IN → made (fs w) OUT →
  ensureWorkspace cwd w
  = (Ok tt, mkWorld (fs w) (trace w ++ [EvMkdir IN; EvMkdir OUT]) (locals w)).
Proof.
  intros Hin Hout.
  unfold ensureWorkspace, mkdir, fs_write, mbind, M_bind, bind, emit, set_fs. simpl.
  rewrite (mkdir_p_noop _ _ Hin). simpl. rewrite (mkdir_p_noop _ _ Hout). simpl.
  by rewrite <-app_assoc.
Qed.

Lemma emptyOutputDir_exact w :
  made (fs w) OUT →
  emptyOutputDir cwd w
  = (Ok tt, mkWorld (<[OUT := NDir]> (Fs.rm_rf OUT (fs w)))
              (trace w ++ [EvRm OUT; EvMkdir OUT]) (locals w)).
Proof.
  intros Hm.
  unfold emptyOutputDir, rm, mkdir, fs_write, mbind, M_bind, bind, emit, set_fs. simpl.
  pose proof (mkdir_p_last cwd "output_toon" (Fs.rm_rf OUT (fs w))) as Hmk.
  change (cwd ++ ["output_toon"]) with OUT in Hmk. rewrite Hmk.
  - simpl. by rewrite <-app_assoc.
  - intros q Hq Hne. rewrite rm_rf_lookup, decide_False.
    + apply Hm; [|done]. destruct Hq as [k ->]. exists (k ++ ["output_toon"]).
      unfold OUTPUT_DIR. by rewrite app_assoc.
    + intros [k Hk]. destruct Hq as [k' Hq]. apply (f_equal length) in Hk.
      rewrite Hq in Hk. unfold OUTPUT_DIR in Hk. rewrite !length_app in Hk. simpl in Hk. lia.
  - rewrite rm_rf_lookup, decide_True; done.
Qed.

Lemma emptied_made f p :
  p = IN ∨ p = OUT → made f IN → made f OUT →
  made (<[OUT := NDir]> (Fs.rm_rf OUT f)) p.
Proof.
  intros Hp Hin Hout q Hq Hne.
  destruct (decide (q = OUT)) as [->|Hq']; [apply lookup_insert_eq|].
  rewrite lookup_insert_ne by done. rewrite rm_rf_lookup, decide_False.
  - destruct Hp as [->| ->]; [by apply Hin|by apply Hout].
  - intros Hpre. destruct Hp as [->| ->].
    + apply (Part000Facts.out_not_prefix_in cwd). by etrans.
    + apply Hq'. by apply (anti_symm prefix).
Qed.

(** Over directories that are there, [prepare] is exact. *)
Lemma prepare_exact options w :
  made (fs w) IN → made (fs w) OUT →
  prepare cwd options w
  = (Ok tt, mkWorld (if clean options then <[OUT := NDir]> (Fs.rm_rf OUT (fs w))
                     else fs w)
              (trace w ++ prepare_trace cwd options) zero).
Proof.
  intros Hin Hout. unfold prepare, prepare_trace.
  unfold mbind, M_bind, bind at 1. rewrite (ensureWorkspace_noop w Hin Hout).
  destruct (clean options); simpl.
  - unfold bind. rewrite emptyOutputDir_exact by done. unfold assign. simpl.
    by rewrite <-!app_assoc.
  - unfold bind, ret, assign. simpl. by rewrite <-!app_assoc.
Qed.

(** After [prepare], the directories on the way are there; and without
    [--clean], no path but these has changed. *)
Lemma prepare_more options w :
  creatable (fs w) IN → creatable (fs w) OUT →
  ∃ f1, prepare cwd options w
        = (Ok tt, mkWorld f1 (trace w ++ prepare_trace cwd options) zero)
        ∧ made f1 IN ∧ made f1 OUT
        ∧ (clean options = false →
           ∀ q, ¬ q `prefix_of` IN → ¬ q `prefix_of` OUT → f1 !! q = fs w !! q).
Proof.
  intros Hin Hout.
  destruct (Part000Facts.ensureWorkspace_spec cwd w Hin Hout)
    as (f0 & Hrun0 & _ & _ & _ & _ & Hoff0).
  destruct (ensureWorkspace_made _ _ Hrun0) as [Hmin Hmout]. simpl in Hmin, Hmout.
  unfold prepare, prepare_trace.
  unfold mbind, M_bind, bind at 1. rewrite Hrun0.
  destruct (clean options) eqn:Hclean; simpl.
  - eexists. unfold bind. rewrite emptyOutputDir_exact by done. unfold assign. simpl.
    rewrite <-!app_assoc. simpl. split; [done|].
    split_and!; [apply emptied_made; auto..|done].
  - exists f0. unfold bind, ret, assign. simpl. rewrite <-!app_assoc. simpl.
    split_and!; done.
Qed.

(** The file system a run leaves, when its options are valid and its
    directories can be made: that of [prepare], with the effects of the
    entries in the order of the listing. *)
Lemma run_effect argv options f :
  parseCliOptions argv = inr options →
  creatable f IN → creatable f OUT →
  ∃ f1 entries,
    prepare cwd options (mkWorld f [] zero)
    = (Ok tt, mkWorld f1 (prepare_trace cwd options) zero)
    ∧ Fs.readdir IN f1 = inr entries
    ∧ (run cwd argv f).1 = 0%nat
    ∧ fs (run cwd argv f).2
      = foldl (entry_effect cwd options) f1 (name <$> entries).
Proof.
  intros Hparse Hin Hout.
  destruct (Part000Facts.run_spec cwd argv options f Hparse Hin Hout)
    as (f1 & entries & Hprep & _ & _ & _ & _ & _ & Hreaddir & Hrun).
  exists f1, entries. split; [done|]. split; [done|].
  cbv zeta in Hrun. case_bool_decide as Hnil.
  - rewrite Hrun, Hnil. done.
  - destruct Hrun as (w2 & Hloop & ->). split; [done|]. simpl.
    destruct (loop_effect options entries
                (mkWorld f1 (prepare_trace cwd options ++ [EvReaddir IN]) zero))
      as (w' & Hloop' & Hfs).
    rewrite Hloop in Hloop'. by simplify_eq.
Qed.

(** ** Every write is the encoding of an entry *)

Local Abbreviation checked options :=
  (λ f ev, run_event cwd f ev ∧ write_is_encoding cwd options f ev).

Lemma write_is_encoding_frame options f f' ev :
  (∀ q, under IN q → f' !! q = f !! q) →
  write_is_encoding cwd options f ev → write_is_encoding cwd options f' ev.
Proof.
  intros Hf. destruct ev; simpl; try done.
  intros (n & -> & Hc). exists n. split; [done|].
  rewrite (conversion_frame options f f'); [done|]. apply Hf, under_child.
Qed.

Lemma checked_refl options w : tracked (checked options) w w.
Proof. apply tracked_refl. Qed.

Lemma checked_trans options w1 w2 w3 :
  tracked (checked options) w1 w2 → tracked (checked options) w2 w3 →
  tracked (checked options) w1 w3.
Proof.
  apply (tracked_trans _ IN).
  - intros f f' ev Hf [Hr Hw]. split.
    + by eapply Part000Facts.run_event_frame.
    + by eapply write_is_encoding_frame.
  - intros f ev q [Hr _]. by eapply Part000Facts.run_event_safe.
Qed.

Lemma entry_step_writes options entry w w' o :
  entry_step cwd options entry w w' o →
  ∃ t, trace w' = trace w ++ t ∧ Forall (write_is_encoding cwd options (fs w)) t.
Proof.
  intros Hstep. destruct Hstep as
    [reason Hstat|Hstat|Hstat Hjson|reason Hstat Hjson Hread
    |raw reason Hstat Hjson Hread Hparse
    |raw data reason Hstat Hjson Hread Hparse Henc
    |raw data text reason Hstat Hjson Hread Hparse Henc Hwrite
    |raw data text f' Hstat Hjson Hread Hparse Henc Hwrite];
    try apply readFile_Some in Hread.
  all: eexists; split; [reflexivity|].
  all: repeat first [apply Forall_cons; split | apply Forall_app; split
                    | apply Forall_nil; exact I ].
  all: try (destruct (verbose options); simpl;
            repeat first [apply Forall_cons; split | apply Forall_nil; exact I]).
  all: try exact I.
  all: exists (name entry); split; [done|]; apply conversion_Some; eauto 10.
Qed.

Lemma process_entry_checked options entry :
  respects (checked options) (process_entry cwd options entry).
Proof.
  intros w r w' Hrun.
  destruct (Part000Facts.process_entry_table cwd options entry w) as (w1 & o & Heq & Hstep).
  rewrite Heq in Hrun. simplify_eq. apply tracked_and.
  - apply Part000Facts.tracked_loop_run. by eapply Part000Facts.entry_step_tracked.
  - by eapply entry_step_writes.
Qed.

Ltac checked_run options :=
  repeat first
    [ apply (preserves_bind _ (checked_trans options)); [|intros ?]
    | apply (preserves_try_catch _ (checked_trans options)); [|intros ?]
    | apply (preserves_when _ (checked_refl options))
    | apply (preserves_lift _ (checked_refl options))
    | apply (preserves_ret _ (checked_refl options))
    | apply (preserves_get_locals _ (checked_refl options))
    | apply (preserves_exit _ (checked_refl options))
    | apply respects_mkdir; intros ?; simpl; tauto
    | apply respects_rm; intros ?; simpl; tauto
    | apply respects_fs_read; intros ?; simpl; tauto
    | apply respects_console; intros ?; simpl; tauto
    | apply respects_assign; intros ?; simpl; tauto ].

Lemma main_checked argv options :
  parseCliOptions argv = inr options → respects (checked options) (main cwd argv).
Proof.
  intros Hparse w r w'. rewrite Part000Facts.main_phases, Hparse.
  revert w r w'. apply (preserves_bind _ (checked_trans options)).
  - unfold prepare, ensureWorkspace, emptyOutputDir. checked_run options.
  - intros _. unfold convert_all, logSummary, readdir. checked_run options.
    case_bool_decide; checked_run options.
    apply preserves_for_of; [apply checked_refl|apply checked_trans|].
    intros entry _. apply process_entry_checked.
Qed.

Lemma on_fatal_checked options e : respects (checked options) (on_fatal e).
Proof. unfold on_fatal. checked_run options. Qed.

Lemma run_checked argv options f :
  parseCliOptions argv = inr options →
  Forall (write_is_encoding cwd options f) (trace (run cwd argv f).2).
Proof.
  intros Hparse.
  destruct (preserves_run_process _ (checked_trans options)
              (main cwd argv) on_fatal (mkWorld f [] zero)
              (main_checked argv options Hparse) (on_fatal_checked options))
    as (t & Ht & HP & _).
  unfold run. simpl in *. rewrite Ht.
  eapply Forall_impl; [exact HP|]. by intros ev [_ ?].
Qed.

(** ** Without [--clean], nothing is lost *)

Local Abbreviation kept :=
  (@rewrites_outputs_only ConversionStats IN OUT is_json_name outputName).

Lemma kept_refl' w : kept w w.
Proof. apply kept_refl. Qed.

Lemma kept_trans' w1 w2 w3 : kept w1 w2 → kept w2 w3 → kept w1 w3.
Proof. apply kept_trans. Qed.

Lemma entry_step_kept options entry w w' o :
  entry_step cwd options entry w w' o → kept w w'.
Proof.
  intros Hstep. destruct Hstep as
    [reason Hstat|Hstat|Hstat Hjson|reason Hstat Hjson Hread
    |raw reason Hstat Hjson Hread Hparse
    |raw data reason Hstat Hjson Hread Hparse Henc
    |raw data text reason Hstat Hjson Hread Hparse Henc Hwrite
    |raw data text f' Hstat Hjson Hread Hparse Henc Hwrite];
    try (by apply kept_same_fs).
  apply readFile_Some in Hread.
  eapply kept_write; [apply Part000Facts.in_not_under_out|exact Hjson|exact Hread|exact Hwrite].
Qed.

Lemma process_entry_kept options entry : preserves kept (process_entry cwd options entry).
Proof.
  intros w r w' Hrun.
  destruct (Part000Facts.process_entry_table cwd options entry w) as (w1 & o & Heq & Hstep).
  rewrite Heq in Hrun. simplify_eq. by eapply entry_step_kept.
Qed.

Ltac kept_run :=
  repeat first
    [ apply (preserves_bind _ kept_trans'); [|intros ?]
    | apply (preserves_try_catch _ kept_trans'); [|intros ?]
    | apply (preserves_when _ kept_refl')
    | apply (preserves_lift _ kept_refl')
    | apply (preserves_ret _ kept_refl')
    | apply (preserves_get_locals _ kept_refl')
    | apply (preserves_exit _ kept_refl')
    | apply kept_fs_read
    | apply kept_console
    | apply kept_assign ].

Lemma main_kept argv options :
  parseCliOptions argv = inr options → clean options = false →
  preserves kept (main cwd argv).
Proof.
  intros Hparse Hclean w r w'. rewrite Part000Facts.main_phases, Hparse.
  revert w r w'. apply (preserves_bind _ kept_trans').
  - unfold prepare, ensureWorkspace. rewrite Hclean. unfold when. kept_run.
    + apply kept_mkdir. intros q. apply under_not_prefix.
    + apply kept_mkdir. intros q. by apply (siblings_not_prefix _ "input_json").
  - intros _. unfold convert_all, logSummary, readdir. kept_run.
    case_bool_decide; kept_run.
    apply preserves_for_of; [apply kept_refl'|apply kept_trans'|].
    intros entry _. apply process_entry_kept.
Qed.

Lemma on_fatal_kept e : preserves kept (on_fatal e).
Proof. unfold on_fatal. kept_run. Qed.

(** ** [--verbose] changes what is told, and nothing else *)

Ltac agree_run :=
  repeat first
    [ apply agree_bind; [|intros ?]
    | apply agree_try_catch; [|intros ?]
    | apply agree_info
    | apply agree_when
    | apply agree_for_of; intros ?
    | apply agree_ret
    | apply agree_lift
    | apply agree_exit
    | apply agree_console
    | apply agree_get_locals
    | apply agree_assign
    | apply agree_fs_read
    | apply agree_fs_write
    | apply agree_traced
    | match goal with
      | |- agree_but_info (if ?b then _ else _) _ => destruct b
      end ].

Lemma process_entry_agree o1 o2 entry :
  same_but_verbose o1 o2 →
  agree_but_info (process_entry cwd o1 entry) (process_entry cwd o2 entry).
Proof.
  intros (Hi & Hd & Hk & Hf & _).
  unfold process_entry, isProcessableFile, bump, stat_isFile, readFile, writeFile,
    mret, M_ret.
  rewrite Hi, Hd, Hk, Hf. agree_run.
Qed.

Lemma main_agree argv1 argv2 o1 o2 :
  parseCliOptions argv1 = inr o1 → parseCliOptions argv2 = inr o2 →
  same_but_verbose o1 o2 →
  agree_but_info (main cwd argv1) (main cwd argv2).
Proof.
  intros Hp1 Hp2 Hsame w1 w2 Hw. rewrite !Part000Facts.main_phases, Hp1, Hp2.
  revert w1 w2 Hw. apply agree_bind.
  - destruct Hsame as (_ & _ & _ & _ & Hc).
    unfold prepare, ensureWorkspace, emptyOutputDir, mkdir, rm. rewrite Hc. agree_run.
  - intros _. unfold convert_all, logSummary, readdir.
    apply agree_bind; [agree_run|]. intros entries.
    destruct (bool_decide (entries = [])); [agree_run|].
    apply agree_bind; [|intros _; agree_run].
    apply agree_for_of. intros entry. by apply process_entry_agree.
Qed.

Lemma on_fatal_agree e : agree_but_info (on_fatal e) (on_fatal e).
Proof. unfold on_fatal. agree_run. Qed.

(** ** One [stat] per entry, in the order of the listing *)

Lemma stat_calls_app {L : Type} (t1 t2 : list (Event L)) :
  stat_calls (t1 ++ t2) = stat_calls t1 ++ stat_calls t2.
Proof. apply omap_app. Qed.

Lemma entry_step_stat options entry w w' o :
  entry_step cwd options entry w w' o →
  ∃ t, trace w' = trace w ++ t ∧ stat_calls t = [IN ++ [name entry]].
Proof.
  intros Hstep. destruct Hstep; (eexists; split; [reflexivity|]).
  all: rewrite ?stat_calls_app; unfold say_if; by destruct (verbose options).
Qed.

Lemma loop_stat_calls options entries w :
  ∃ w' t, for_of entries (process_entry cwd options) w = (Ok tt, w')
          ∧ trace w' = trace w ++ t
          ∧ stat_calls t = (λ e, IN ++ [name e]) <$> entries.
Proof.
  revert w. induction entries as [|e es IH]; intros w; simpl.
  { exists w, []. by rewrite app_nil_r. }
  destruct (Part000Facts.process_entry_table cwd options e w) as (w1 & o & Heq & Hstep).
  apply entry_step_stat in Hstep as (t1 & Ht1 & Hs1).
  destruct (IH w1) as (w' & t2 & Hloop & Ht2 & Hs2).
  exists w', (t1 ++ t2). unfold bind. rewrite Heq. split; [done|].
  split; [by rewrite Ht2, Ht1, app_assoc|].
  by rewrite stat_calls_app, Hs1, Hs2.
Qed.

Lemma summary_lines_no_stat s : stat_calls (summary_lines s) = [].
Proof. unfold summary_lines. by case_bool_decide. Qed.

Lemma prepare_trace_no_stat options : stat_calls (prepare_trace cwd options) = [].
Proof. unfold prepare_trace. by destruct (clean options). Qed.

(** ** The exit status *)

Lemma ensureWorkspace_cases w :
  (∃ w', ensureWorkspace cwd w = (Ok tt, w')
         ∧ creatable (fs w) IN ∧ creatable (fs w) OUT)
  ∨ (∃ e w', ensureWorkspace cwd w = (Throw e, w')
             ∧ ¬ (creatable (fs w) IN ∧ creatable (fs w) OUT)).
Proof.
  unfold ensureWorkspace, mkdir, fs_write, mbind, M_bind, bind, emit, set_fs. simpl.
  destruct (Fs.mkdir_p IN (fs w)) as [e|f0] eqn:Hf0; simpl.
  { right. eexists _, _. split; [done|]. intros [Hc _].
    destruct (mkdir_p_ok _ _ Hc) as [f' Hf']. congruence. }
  destruct (Fs.mkdir_p OUT f0) as [e|f1] eqn:Hf1; simpl.
  - right. eexists _, _. split; [done|]. intros [_ Hc].
    pose proof (mkdir_p_creatable _ _ _ _ Hf0 Hc) as Hc0.
    destruct (mkdir_p_ok _ _ Hc0) as [f' Hf']. congruence.
  - left. eexists. split; [done|].
    apply mkdir_p_spec in Hf0 as (Hc0 & Hon0 & Hoff0 & _).
    apply mkdir_p_spec in Hf1 as (Hc1 & _). split; [done|].
    intros q Hq Hne. destruct (decide (q `prefix_of` IN)) as [Hp|Hp].
    + by apply Hc0.
    + rewrite <-(Hoff0 _ Hp). by apply Hc1.
Qed.

(** A run whose directories cannot be made reports it, and ends with
    status 1 before it lists anything. *)
Lemma run_unprepared argv options f :
  parseCliOptions argv = inr options →
  ¬ (creatable f IN ∧ creatable f OUT) →
  (run cwd argv f).1 = 1%nat
  ∧ Forall (λ ev, ∀ p, ev ≠ EvReaddir p) (trace (run cwd argv f).2).
Proof.
  intros Hparse Hno. unfold run, run_process, try_catch.
  rewrite Part000Facts.main_phases, Hparse.
  unfold prepare, mbind, M_bind. unfold bind at 1 2 3.
  destruct (ensureWorkspace_cases (mkWorld f [] zero))
    as [(w' & _ & Hc)|(e & w' & Hrun & _)]; [done|].
  pose proof Hrun as Hev.
  apply (preserves_bind _ (Part000Facts.prepare_trans cwd)
           (mkdir IN) (λ _, mkdir OUT)) in Hev as (t & Ht & HP & _).
  2:{ apply respects_mkdir. intros ?. simpl. tauto. }
  2:{ intros _. apply respects_mkdir. intros ?. simpl. tauto. }
  unfold bind. rewrite Hrun. simpl. split; [done|]. rewrite Ht. simpl.
  apply Forall_app. split.
  - eapply Forall_impl; [exact HP|]. intros ev Hp p ->. exact Hp.
  - by apply Forall_singleton.
Qed.

End Facts.
End Part000Effects.

(** * What a run of [Script] leaves behind *)

Module ScriptEffects.
Import Script.

Section Facts.
Context `{Externals}.
Variable cwd : path.

Local Abbreviation IN := (INPUT_DIR cwd).
Local Abbreviation OUT := (OUTPUT_DIR cwd).

Local Abbreviation kept :=
  (@rewrites_outputs_only (list ConversionResult) IN OUT
     (λ n, Str.endsWith n ".json") (λ n, Str.basename n ".json" +:+ ".toon")).

Lemma script_kept_refl' w : kept w w.
Proof. apply kept_refl. Qed.

Lemma script_kept_trans' w1 w2 w3 : kept w1 w2 → kept w2 w3 → kept w1 w3.
Proof. apply kept_trans. Qed.

Lemma file_step_kept n w w' o :
  Str.endsWith n ".json" = true →
  file_step cwd (IN ++ [n]) w w' o → kept w w'.
Proof.
  intros Hn Hstep. destruct Hstep as
    [reason Hread|content e Hread Hparse|content data reason Hread Hparse Henc
    |content data text reason Hread Hparse Henc Hwrite
    |content data text f' Hread Hparse Henc Hwrite];
    try (by apply kept_same_fs).
  apply readFile_Some in Hread. rewrite last_last in Hwrite.
  eapply (kept_write IN OUT (λ n, Str.endsWith n ".json")
            (λ n, Str.basename n ".json" +:+ ".toon"));
    [apply ScriptFacts.script_in_not_under_out|exact Hn|exact Hread|exact Hwrite].
Qed.

Lemma convert_file_kept n :
  Str.endsWith n ".json" = true → preserves kept (convert_file cwd (IN ++ [n])).
Proof.
  intros Hn w r w' Hrun.
  destruct (ScriptFacts.convert_file_table cwd (IN ++ [n]) w) as (w1 & o & Heq & Hstep).
  rewrite Heq in Hrun. simplify_eq. by eapply file_step_kept.
Qed.

Ltac kept_run :=
  repeat first
    [ apply (preserves_bind _ script_kept_trans'); [|intros ?]
    | apply (preserves_try_catch _ script_kept_trans'); [|intros ?]
    | apply (preserves_when _ script_kept_refl')
    | apply (preserves_lift _ script_kept_refl')
    | apply (preserves_ret _ script_kept_refl')
    | apply (preserves_get_locals _ script_kept_refl')
    | apply (preserves_exit _ script_kept_refl')
    | apply kept_fs_read
    | apply kept_console
    | apply kept_assign ].

Lemma script_main_kept : preserves kept (main cwd).
Proof.
  intros w r w'. rewrite ScriptFacts.script_main_phases.
  revert w r w'. apply (preserves_bind _ script_kept_trans').
  - unfold prepare, existsSync. kept_run.
    apply kept_mkdir. intros q. by apply (siblings_not_prefix _ "input_json").
  - intros _. unfold convert_all.
    apply (preserves_bind_val _ script_kept_trans' _ _ _ (ScriptFacts.getJsonFiles_value cwd)).
    { unfold getJsonFiles, readdir. kept_run. }
    intros files Hfiles. unfold summarise. case_bool_decide; kept_run.
    apply preserves_for_of; [apply script_kept_refl'|apply script_kept_trans'|].
    intros x (n & -> & Hn)%Hfiles. by apply convert_file_kept.
Qed.

Lemma script_on_fatal_kept e : preserves kept (on_fatal e).
Proof. unfold on_fatal. kept_run. Qed.

(** ** The conversion of one file *)

Lemma script_outputPath_not_prefix n q : q `prefix_of` OUT → q ≠ outputPath cwd n.
Proof.
  intros [k Hk] ->. apply (f_equal length) in Hk.
  unfold outputPath in Hk. rewrite !length_app in Hk. simpl in Hk. lia.
Qed.

Lemma script_conversion_Some f n text :
  conversion cwd f n = Some text ↔
  ∃ c d, f !! (IN ++ [n]) = Some (NFile c true) ∧ Str.endsWith n ".json" = true
         ∧ JSON_parse c = inr d ∧ encode d encoder_options = inr text.
Proof.
  unfold conversion, is_regular. split.
  - destruct (f !! (IN ++ [n])) as [[c [|]| |]|] eqn:E; simpl; try done;
      unfold Fs.readFile; rewrite E; simpl; try (by destruct (Str.endsWith n ".json")).
    destruct (Str.endsWith n ".json"); [|done].
    destruct (JSON_parse c) as [e|d] eqn:Ep; simpl; [done|].
    destruct (encode d _) as [e|t] eqn:Ee; simpl; [done|].
    intros [= <-]. eauto 10.
  - intros (c & d & Hf & Hj & Hp & He). unfold Fs.readFile. rewrite Hf, Hj. simpl.
    rewrite Hp. simpl. by rewrite He.
Qed.

Lemma script_conversion_frame f f' n :
  f' !! (IN ++ [n]) = f !! (IN ++ [n]) → conversion cwd f' n = conversion cwd f n.
Proof. intros Heq. unfold conversion, is_regular, Fs.readFile. by rewrite Heq. Qed.

Lemma file_step_effect n w w' o :
  Str.endsWith n ".json" = true →
  file_step cwd (IN ++ [n]) w w' o →
  fs w' = entry_effect cwd (fs w) n.
Proof.
  intros Hn Hstep. unfold entry_effect, write_effect, outputName.
  destruct (conversion cwd (fs w) n) as [text|] eqn:Hconv.
  - apply script_conversion_Some in Hconv as (c & d & Hf & _ & Hp & He).
    apply readFile_Some in Hf. unfold encoder_options in He.
    destruct Hstep as
      [reason Hread|content e Hread Hparse|content data reason Hread Hparse Henc
      |content data text' reason Hread Hparse Henc Hwrite
      |content data text' f' Hread Hparse Henc Hwrite]; simpl; try congruence.
    all: rewrite Hf in Hread; simplify_eq; try congruence.
    all: rewrite Hp in Hparse; simplify_eq; try congruence.
    all: rewrite He in Henc; simplify_eq.
    all: rewrite last_last in Hwrite; by rewrite Hwrite.
  - destruct Hstep as
      [reason Hread|content e Hread Hparse|content data reason Hread Hparse Henc
      |content data text reason Hread Hparse Henc Hwrite
      |content data text f' Hread Hparse Henc Hwrite]; simpl; try done.
    apply readFile_Some in Hread.
    assert (conversion cwd (fs w) n = Some text) as Hc.
    { apply script_conversion_Some. eauto 10. }
    congruence.
Qed.

Lemma script_loop_effect (es : list Dirent) w :
  Forall (λ e, json_file e = true) es →
  ∃ w', for_of ((λ e, IN ++ [name e]) <$> es) (convert_file cwd) w = (Ok tt, w')
        ∧ fs w' = foldl (entry_effect cwd) (fs w) (name <$> es).
Proof.
  revert w. induction es as [|e es IH]; intros w Hall; [by eexists|].
  apply Forall_cons in Hall as [He Hall]. rewrite !fmap_cons. simpl.
  destruct (ScriptFacts.convert_file_table cwd (IN ++ [name e]) w)
    as (w1 & o & Heq & Hstep).
  destruct (IH w1 Hall) as (w' & Hloop & Hfs). exists w'.
  unfold bind. rewrite Heq. split; [done|].
  rewrite Hfs, (file_step_effect (name e) w w1 o); [done| |done].
  unfold json_file in He. by apply andb_true_iff in He as [_ ?].
Qed.

Lemma script_loop_other l f q :
  (∀ n, n ∈ l → is_Some (conversion cwd f n) → q ≠ outputPath cwd n) →
  foldl (entry_effect cwd) f l !! q = f !! q.
Proof.
  apply (fold_effect_other IN OUT outputName (conversion cwd)).
  - apply script_conversion_frame.
  - apply ScriptFacts.script_in_not_under_out.
Qed.

Lemma script_loop_input l f q :
  under IN q → foldl (entry_effect cwd) f l !! q = f !! q.
Proof.
  apply (fold_effect_input IN OUT outputName (conversion cwd)).
  - apply script_conversion_frame.
  - apply ScriptFacts.script_in_not_under_out.
Qed.

Lemma script_loop_output l f n :
  n ∈ l → NoDup l →
  (∀ m, m ∈ l → outputName m = outputName n → m = n) →
  f !! OUT = Some NDir →
  foldl (entry_effect cwd) f l !! outputPath cwd n
  = match conversion cwd f n with
    | Some text => overwritten text (f !! outputPath cwd n)
    | None => f !! outputPath cwd n
    end.
Proof.
  apply (fold_effect_output IN OUT outputName (conversion cwd)).
  - apply script_conversion_frame.
  - apply ScriptFacts.script_in_not_under_out.
Qed.

Lemma script_loop_again l l' f :
  NoDup l → NoDup l' → (∀ n, n ∈ l ↔ n ∈ l') →
  (∀ n m, n ∈ l → m ∈ l → outputName n = outputName m → n = m) →
  f !! OUT = Some NDir →
  foldl (entry_effect cwd) (foldl (entry_effect cwd) f l) l'
  = foldl (entry_effect cwd) f l.
Proof.
  apply (fold_effect_again IN OUT outputName (conversion cwd)).
  - apply script_conversion_frame.
  - apply ScriptFacts.script_in_not_under_out.
Qed.

(** The names [getJsonFiles] keeps: the regular files of the listed
    directory whose name ends in [.json], each once. *)
Lemma json_names f entries :
  Fs.readdir IN f = inr entries →
  NoDup (name <$> filter (λ e, json_file e) entries)
  ∧ ∀ n, n ∈ name <$> filter (λ e, json_file e) entries ↔
         is_regular f (IN ++ [n]) = true ∧ Str.endsWith n ".json" = true.
Proof.
  intros (_ & Hin & Hnd)%readdir_spec. split.
  - eapply sublist_NoDup; [exact Hnd|]. apply fmap_sublist, sublist_filter.
  - intros n. rewrite list_elem_of_fmap. unfold is_regular, json_file. split.
    + intros (e & -> & [He Hin']%list_elem_of_filter).
      apply Hin in Hin' as (nd & -> & Hfile).
      apply Is_true_true, andb_true_iff in He as [He1 He2]. by rewrite <-Hfile.
    + intros [Hreg Hn]. destruct (f !! (IN ++ [n])) as [nd|] eqn:Hnd'; [|done].
      exists (mkDirent n true). split; [done|]. apply list_elem_of_filter. split.
      * simpl. by rewrite Hn.
      * apply Hin. simpl. eauto.
Qed.

(** ** The results, and the exit status *)

Lemma relative_input n : Fs.relative cwd (IN ++ [n]) = "input_json/" +:+ n.
Proof.
  unfold Fs.relative, INPUT_DIR. by rewrite <-app_assoc, relative_parts_below.
Qed.

(** One file adds one result: its path from the working directory, and
    either the output path or the error. *)
Lemma file_step_result n w w' o :
  file_step cwd (IN ++ [n]) w w' o →
  ∃ r, locals w' = locals w ++ [r]
       ∧ inputFile r = "input_json/" +:+ n
       ∧ ((success r = true ∧ o = Converted
           ∧ outputFile r = Some ("output_toon/" +:+ Str.basename n ".json" +:+ ".toon")
           ∧ error r = None)
          ∨ (success r = false ∧ outputFile r = None
             ∧ ∃ reason, o = Failed reason ∧ error r = Some reason)).
Proof.
  intros Hstep. destruct Hstep; (eexists; split; [reflexivity|]); simpl;
    rewrite relative_input; (split; [done|]).
  1-4: right; eauto.
  left. split_and!; try done. rewrite last_last. f_equal.
  unfold Fs.relative, OUTPUT_DIR. by rewrite <-app_assoc, relative_parts_below.
Qed.

Lemma loop_results (es : list Dirent) w :
  ∃ w' rs, for_of ((λ e, IN ++ [name e]) <$> es) (convert_file cwd) w = (Ok tt, w')
           ∧ locals w' = locals w ++ rs
           ∧ inputFile <$> rs = (λ e, "input_json/" +:+ name e) <$> es
           ∧ Forall (λ r, if success r then is_Some (outputFile r) ∧ error r = None
                          else outputFile r = None ∧ is_Some (error r)) rs.
Proof.
  revert w. induction es as [|e es IH]; intros w.
  { exists w, []. by rewrite app_nil_r. }
  rewrite fmap_cons. simpl.
  destruct (ScriptFacts.convert_file_table cwd (IN ++ [name e]) w)
    as (w1 & o & Heq & Hstep).
  apply file_step_result in Hstep as (r & Hr & Hin & Hshape).
  destruct (IH w1) as (w' & rs & Hloop & Hrs & Hnames & Hall).
  exists w', (r :: rs). unfold bind. rewrite Heq. split; [done|].
  split; [by rewrite Hrs, Hr, <-app_assoc|].
  split; [by rewrite !fmap_cons, Hin, Hnames|].
  apply Forall_cons. split; [|done].
  destruct Hshape as [(-> & _ & -> & ->)|(-> & -> & reason & _ & ->)]; by eauto.
Qed.

Lemma getJsonFiles_eq w :
  getJsonFiles IN w
  = match Fs.readdir IN (fs w) with
    | inl e => (Throw e, emit (EvReaddir IN) w)
    | inr entries =>
        (Ok ((λ e, IN ++ [name e]) <$> filter (λ e, json_file e) entries),
         emit (EvReaddir IN) w)
    end.
Proof.
  unfold getJsonFiles, readdir, fs_read, mbind, M_bind, bind, lift, throw, ret, mret, M_ret.
  by destruct (Fs.readdir IN (fs w)).
Qed.

Lemma convert_all_unfold w :
  convert_all cwd w
  = match getJsonFiles IN w with
    | (Ok jsonFiles, w1) =>
        (if bool_decide (length jsonFiles = 0%nat) then
           console LLog "📭 No JSON files found in input_json directory.";;
           console LLog "   Add .json files to the input_json directory and run again."
         else
           console LLog ("📂 Found " +:+ pretty (length jsonFiles)
                         +:+ " JSON file(s) to convert:" +:+ newline);;
           assign [];;
           for_of jsonFiles (convert_file cwd);;
           summarise) w1
    | (Throw e, w1) => (Throw e, w1)
    | (Exit c, w1) => (Exit c, w1)
    end.
Proof. reflexivity. Qed.

(** From the enumeration on: the listing fails, or there is nothing to
    convert, or every file is handled and the summary decides. *)
Lemma convert_all_cases w :
  match Fs.readdir IN (fs w) with
  | inl e => ∃ w', convert_all cwd w = (Throw e, w') ∧ locals w' = locals w
  | inr entries =>
      let files := filter (λ e, json_file e) entries in
      if bool_decide (files = []) then
        ∃ w', convert_all cwd w = (Ok tt, w') ∧ locals w' = locals w
              ∧ fs w' = fs w
      else
        ∃ w', convert_all cwd w
              = (if bool_decide (0 < failures (locals w'))%nat then Exit 1 else Ok tt, w')
              ∧ inputFile <$> locals w' = (λ e, "input_json/" +:+ name e) <$> files
              ∧ Forall (λ r, if success r then is_Some (outputFile r) ∧ error r = None
                             else outputFile r = None ∧ is_Some (error r)) (locals w')
              ∧ fs w' = foldl (entry_effect cwd) (fs w) (name <$> files)
  end.
Proof.
  rewrite convert_all_unfold, getJsonFiles_eq.
  destruct (Fs.readdir IN (fs w)) as [e|entries]; [by eexists|].
  cbv zeta. set (files := filter (λ e, json_file e) entries).
  rewrite length_fmap.
  assert (bool_decide (length files = 0%nat) = bool_decide (files = [])) as ->.
  { apply bool_decide_ext. by destruct files. }
  case_bool_decide as Hnil.
  - unfold mbind, M_bind, bind, console. simpl. by eexists.
  - unfold mbind, M_bind. unfold bind at 1 2 3. unfold console at 1, assign.
    cbn [fst snd].
    set (w0 := mkWorld _ _ _).
    destruct (loop_results files w0) as (w' & rs & Hloop & Hrs & Hnames & Hall).
    destruct (script_loop_effect files w0) as (w'' & Hloop' & Hfs).
    { apply Forall_forall. intros e [He _]%list_elem_of_filter. by apply Is_true_true. }
    assert (w'' = w') as -> by congruence.
    rewrite Hloop. rewrite ScriptFacts.summarise_spec.
    exists (mkWorld (fs w') (trace w' ++ summary_lines (locals w')) (locals w')).
    split; [reflexivity|]. simpl. by rewrite Hrs.
Qed.

(** Before the enumeration: the script stops over a missing input
    directory, fails over an output directory it cannot make, and
    otherwise goes on, with no result yet and the input directory as it
    was. *)
Lemma prepare_cases w :
  (fs w !! IN = None ∧ ∃ w', prepare cwd w = (Exit 1, w'))
  ∨ (is_Some (fs w !! IN) ∧ fs w !! OUT = None ∧ ¬ creatable (fs w) OUT
     ∧ ∃ e w', prepare cwd w = (Throw e, w'))
  ∨ (is_Some (fs w !! IN) ∧ (is_Some (fs w !! OUT) ∨ creatable (fs w) OUT)
     ∧ ∃ w', prepare cwd w = (Ok tt, w') ∧ locals w' = locals w
             ∧ fs w' !! IN = fs w !! IN).
Proof.
  destruct (fs w !! IN) as [nd|] eqn:HIN.
  2:{ left. split; [done|]. eexists. by apply ScriptFacts.prepare_missing_input. }
  right. destruct (fs w !! OUT) as [nd'|] eqn:HOUT.
  { right. split; [by eexists|]. split; [left; by eexists|]. eexists. split.
    - apply ScriptFacts.prepare_both_exist; by eexists.
    - done. }
  destruct (Fs.mkdir_p OUT (fs w)) as [e|f1] eqn:Hmk.
  - left. assert (¬ creatable (fs w) OUT) as Hno.
    { intros Hc. destruct (mkdir_p_ok _ _ Hc) as [f' Hf']. congruence. }
    split; [by eexists|]. split; [done|]. split; [done|].
    apply ScriptFacts.prepare_cannot_create; [by eexists|done..].
  - right. apply mkdir_p_spec in Hmk as (Hc & _).
    split; [by eexists|]. split; [by right|].
    destruct (ScriptFacts.prepare_creates_output cwd w) as (f1' & Hprep & _ & Hkeep & _);
      [by eexists|done..|].
    eexists. split; [exact Hprep|]. split; [done|]. simpl.
    rewrite Hkeep; [done|]. by rewrite HIN.
Qed.

(** The status of a run, and when it is 0. *)
Lemma run_status f :
  let ok := f !! IN = Some NDir
            ∧ (is_Some (f !! OUT) ∨ creatable f OUT)
            ∧ failures (locals (run cwd f).2) = 0%nat in
  ((run cwd f).1 = 1%nat ∧ ¬ ok) ∨ ((run cwd f).1 = 0%nat ∧ ok).
Proof.
  unfold run, run_process, try_catch. rewrite ScriptFacts.script_main_phases.
  unfold mbind, M_bind, bind.
  destruct (prepare_cases (mkWorld f [] []))
    as [[HIN [w1 ->]]|[(HIN & HOUT & Hno & e & w1 & ->)
       |(HIN & HOUT & w1 & -> & Hlocals & Hsame)]]; cbn [fs locals] in *.
  - left. split; [done|]. intros (Hdir & _). congruence.
  - left. split; [done|]. intros (_ & [Hsome|Hc] & _).
    + rewrite HOUT in Hsome. by destruct Hsome.
    + done.
  - pose proof (convert_all_cases w1) as Hconv.
    destruct (Fs.readdir IN (fs w1)) as [e|entries] eqn:Hreaddir.
    + destruct Hconv as (w2 & -> & _). left. split; [done|]. intros (Hdir & _).
      rewrite <-Hsame in Hdir. destruct (readdir_ok _ _ Hdir) as [es Hes]. congruence.
    + apply readdir_spec in Hreaddir as (Hdir & _). rewrite Hsame in Hdir.
      cbv zeta in Hconv. case_bool_decide.
      * destruct Hconv as (w2 & -> & Hl & _). right. split; [done|]. simpl.
        split; [done|]. split; [done|]. by rewrite Hl, Hlocals.
      * destruct Hconv as (w2 & -> & _). case_bool_decide as Hfail.
        -- left. split; [done|]. simpl. intros (_ & _ & Hzero). lia.
        -- right. split; [done|]. simpl. split; [done|]. split; [done|]. lia.
Qed.

(** The file system a run leaves, when the input directory is there and
    the output directory is there or can be made: the effects of the
    files, in the order of the listing. *)
Lemma script_run_effect f :
  f !! IN = Some NDir →
  f !! OUT = Some NDir ∨ (f !! OUT = None ∧ creatable f OUT) →
  ∃ f1 entries,
    Fs.readdir IN f1 = inr entries
    ∧ f1 !! OUT = Some NDir
    ∧ (∀ q, is_Some (f !! q) → f1 !! q = f !! q)
    ∧ (∀ q, ¬ q `prefix_of` OUT → f1 !! q = f !! q)
    ∧ (f !! OUT = Some NDir → f1 = f)
    ∧ fs (run cwd f).2
      = foldl (entry_effect cwd) f1 (name <$> filter (λ e, json_file e) entries).
Proof.
  intros HIN HOUT.
  assert (∃ f1 t1,
            prepare cwd (mkWorld f [] []) = (Ok tt, mkWorld f1 t1 [])
            ∧ f1 !! OUT = Some NDir
            ∧ (∀ q, is_Some (f !! q) → f1 !! q = f !! q)
            ∧ (∀ q, ¬ q `prefix_of` OUT → f1 !! q = f !! q)
            ∧ (f !! OUT = Some NDir → f1 = f))
    as (f1 & t1 & Hprep & HOUT1 & Hkeep & Hoff & Hsame).
  { destruct HOUT as [HOUT|[HOUT Hc]].
    - exists f. eexists. split.
      + apply (ScriptFacts.prepare_both_exist cwd (mkWorld f [] [])); simpl;
          [by rewrite HIN|by rewrite HOUT].
      + done.
    - destruct (ScriptFacts.prepare_creates_output cwd (mkWorld f [] []))
        as (f1 & Hprep & HOUT1 & Hkeep & Hoff); simpl; [by rewrite HIN|done..|].
      exists f1. eexists. split; [exact Hprep|]. split_and!; try done.
      intros Hdir. congruence. }
  assert (f1 !! IN = Some NDir) as HIN1.
  { rewrite Hkeep; [done|]. by rewrite HIN. }
  destruct (readdir_ok _ _ HIN1) as [entries Hreaddir].
  exists f1, entries. split_and!; try done.
  unfold run, run_process, try_catch. rewrite ScriptFacts.script_main_phases.
  unfold mbind, M_bind, bind. rewrite Hprep.
  pose proof (convert_all_cases (mkWorld f1 t1 [])) as Hconv. simpl in Hconv.
  rewrite Hreaddir in Hconv. cbv zeta in Hconv. case_bool_decide as Hnil.
  - destruct Hconv as (w2 & -> & _ & Hfs). simpl. by rewrite Hfs, Hnil.
  - destruct Hconv as (w2 & -> & _ & _ & Hfs). by case_bool_decide.
Qed.

(** ** Every write is the encoding of a file *)

Local Abbreviation checked :=
  (λ f ev, run_event cwd f ev ∧ write_is_encoding cwd f ev).

Lemma script_write_is_encoding_frame f f' ev :
  (∀ q, under IN q → f' !! q = f !! q) →
  write_is_encoding cwd f ev → write_is_encoding cwd f' ev.
Proof.
  intros Hf. destruct ev; simpl; try done.
  intros (n & -> & Hc). exists n. split; [done|].
  rewrite (script_conversion_frame f f'); [done|]. apply Hf, under_child.
Qed.

Lemma script_checked_refl w : tracked checked w w.
Proof. apply tracked_refl. Qed.

Lemma script_checked_trans w1 w2 w3 :
  tracked checked w1 w2 → tracked checked w2 w3 → tracked checked w1 w3.
Proof.
  apply (tracked_trans _ IN).
  - intros f f' ev Hf [Hr Hw]. split.
    + by eapply ScriptFacts.script_event_frame.
    + by eapply script_write_is_encoding_frame.
  - intros f ev q [Hr _]. by eapply ScriptFacts.script_event_safe.
Qed.

Lemma file_step_writes n w w' o :
  Str.endsWith n ".json" = true →
  file_step cwd (IN ++ [n]) w w' o →
  ∃ t, trace w' = trace w ++ t ∧ Forall (write_is_encoding cwd (fs w)) t.
Proof.
  intros Hn Hstep. destruct Hstep as
    [reason Hread|content e Hread Hparse|content data reason Hread Hparse Henc
    |content data text reason Hread Hparse Henc Hwrite
    |content data text f' Hread Hparse Henc Hwrite];
    try apply readFile_Some in Hread.
  all: eexists; split; [reflexivity|].
  all: repeat first [apply Forall_cons; split | apply Forall_nil; exact I ].
  all: try exact I.
  all: exists n; split; [unfold outputPath, outputName; by rewrite last_last|].
  all: apply script_conversion_Some; eauto 10.
Qed.

Lemma convert_file_checked n :
  Str.endsWith n ".json" = true → respects checked (convert_file cwd (IN ++ [n])).
Proof.
  intros Hn w r w' Hrun.
  destruct (ScriptFacts.convert_file_table cwd (IN ++ [n]) w) as (w1 & o & Heq & Hstep).
  rewrite Heq in Hrun. simplify_eq. apply tracked_and.
  - by eapply ScriptFacts.file_step_tracked.
  - by eapply file_step_writes.
Qed.

Ltac checked_run :=
  repeat first
    [ apply (preserves_bind _ script_checked_trans); [|intros ?]
    | apply (preserves_try_catch _ script_checked_trans); [|intros ?]
    | apply (preserves_when _ script_checked_refl)
    | apply (preserves_lift _ script_checked_refl)
    | apply (preserves_ret _ script_checked_refl)
    | apply (preserves_get_locals _ script_checked_refl)
    | apply (preserves_exit _ script_checked_refl)
    | apply respects_mkdir; intros ?; simpl; tauto
    | apply respects_fs_read; intros ?; simpl; tauto
    | apply respects_console; intros ?; simpl; tauto
    | apply respects_assign; intros ?; simpl; tauto ].

Lemma script_main_checked : respects checked (main cwd).
Proof.
  intros w r w'. rewrite ScriptFacts.script_main_phases.
  revert w r w'. apply (preserves_bind _ script_checked_trans).
  - unfold prepare, existsSync. checked_run.
  - intros _. unfold convert_all.
    apply (preserves_bind_val _ script_checked_trans _ _ _ (ScriptFacts.getJsonFiles_value cwd)).
    { unfold getJsonFiles, readdir. checked_run. }
    intros files Hfiles. unfold summarise. case_bool_decide; checked_run.
    apply preserves_for_of; [apply script_checked_refl|apply script_checked_trans|].
    intros x (n & -> & Hn)%Hfiles. by apply convert_file_checked.
Qed.

Lemma script_on_fatal_checked e : respects checked (on_fatal e).
Proof. unfold on_fatal. checked_run. Qed.

Lemma script_run_checked f : Forall (write_is_encoding cwd f) (trace (run cwd f).2).
Proof.
  destruct (preserves_run_process _ script_checked_trans
              (main cwd) on_fatal (mkWorld f [] [])
              script_main_checked script_on_fatal_checked) as (t & Ht & HP & _).
  unfold run. simpl in *. rewrite Ht.
  eapply Forall_impl; [exact HP|]. by intros ev [_ ?].
Qed.

End Facts.
End ScriptEffects.
(** * Further properties of the scripts *)

Section Options.
Context `{Externals}.
Variable cwd : path.

(** X1. Options that [parseCliOptions] returns are valid, and are the
    values of the command line with the defaults filled in: the
    indentation is not negative, and 2 when [--indent] is absent; the
    delimiter is the one given, or the comma, and one of comma, tab and
    pipe; the key-folding mode is the one given, or [off], and [off] or
    [safe]; the flatten depth is absent exactly when [--flattenDepth] is,
    and not negative; the two flags are those of the command line. *)
Theorem resolved_options_are_valid (argv : list string)
    (options : Part000.CliOptions) :
  Part000.parseCliOptions argv = inr options →
  ∃ values,
    parseArgs argv = inr values
    ∧ 0 ≤ Part000.indent options
    ∧ (v_indent values = None → Part000.indent options = 2)
    ∧ (∀ s, v_indent values = Some s → s ≠ EmptyString →
            Str.parseInt s = Some (Part000.indent options))
    ∧ Part000.delimiter options = default "," (v_delimiter values)
    ∧ Part000.delimiter options ∈ [","; Str.tab; "|"]
    ∧ Part000.keyFolding options = default "off" (v_keyFolding values)
    ∧ (Part000.keyFolding options = "off" ∨ Part000.keyFolding options = "safe")
    ∧ (v_flattenDepth values = None ↔ Part000.flattenDepth options = None)
    ∧ (∀ s, v_flattenDepth values = Some s →
            Str.parseInt s = Part000.flattenDepth options)
    ∧ (∀ d, Part000.flattenDepth options = Some d → 0 ≤ d)
    ∧ Part000.clean options = v_clean values
    ∧ Part000.verbose options = v_verbose values.
Proof.
  unfold Part000.parseCliOptions.
  destruct (parseArgs argv) as [e|values]; [done|].
  intros Hparse. exists values. split; [done|].
  destruct (match v_indent values with
            | Some s => if String.eqb s EmptyString then Some 2 else Str.parseInt s
            | None => Some 2
            end) as [n|] eqn:Hindent; [|done].
  destruct (Z.ltb_spec n 0) as [|Hn]; [done|].
  destruct (bool_decide (default Part000.DEFAULT_DELIMITER (v_delimiter values)
                         ∈ Part000.DELIMITERS)) eqn:Hdelim; [|done].
  apply bool_decide_eq_true in Hdelim. simpl in Hparse.
  destruct (String.eqb_spec (default "off" (v_keyFolding values)) "off") as [Hoff|Hoff];
    destruct (String.eqb_spec (default "off" (v_keyFolding values)) "safe") as [Hsafe|Hsafe];
    simpl in Hparse; try done.
  all: destruct (v_flattenDepth values) as [s|] eqn:Hdepth; simpl in Hparse.
  all: try (destruct (Str.parseInt s) as [d|] eqn:Hread; [|done];
            destruct (Z.ltb_spec d 0) as [|Hd]; [done|]).
  all: simplify_eq; simpl.
  all: split_and!; try done; auto.
  all: try (intros Hnone; rewrite Hnone in Hindent; by simplify_eq).
  all: try (intros s' Hs' Hne; rewrite Hs' in Hindent;
            by destruct (String.eqb_spec s' EmptyString)).
  all: try (split; intros; done).
  all: try (intros ? [= <-]; done).
Qed.



End Options.

Section Names.

(** X4. The output name of an entry whose name ends in [.json], whatever
    the letter case of the suffix: the suffix is replaced by [.toon], and
    what stands before it is kept as it is, dots included.  When nothing
    stands before the suffix, the name is a dot file without extension
    for [path.parse], and [.toon] is appended to the whole of it. *)
Theorem output_name_replaces_suffix (stem suf : string) :
  Str.toLowerCase suf = ".json" →
  (stem ≠ EmptyString → Part000.outputName (stem +:+ suf) = stem +:+ ".toon")
  ∧ Part000.outputName suf = suf +:+ ".toon".
Proof.
  intros Hsuf. unfold Part000.outputName. split.
  - intros Hne. rewrite parse_name_json by done. by destruct stem.
  - by rewrite <-(append_nil_l suf) at 1; rewrite parse_name_json.
Qed.

(** X5. The two variants agree on every name the plain script takes: a
    name that ends in [.json], letter case included, is a [.json] name
    for [Part000] too, and both derive the same output name from it. *)
Theorem variants_agree_on_json_names (n : string) :
  Str.endsWith n ".json" = true →
  Part000.is_json_name n = true
  ∧ Part000.outputName n = Str.basename n ".json" +:+ ".toon".
Proof.
  intros Hends. split; [by apply endsWith_json_ci|].
  apply endsWith_spec in Hends as [stem ->].
  unfold Part000.outputName. by rewrite basename_json, parse_name_json.
Qed.

End Names.

Section Pipeline.
Context `{Externals}.
Variable cwd : path.

(** X6. What a run writes for an entry.  The options are valid and the
    directories can be made.  The entry [n] of the input directory is a
    readable regular file with a [.json] name whose content parses and
    encodes to [text], and no other entry has its output name.  After the
    run, a regular file with content [text] is at the output path of [n]:
    a new one, or the one that was there, overwritten.  Only a directory
    or a special node in that place stays as it is, and only without
    [--clean], which removes it first. *)
Theorem converted_entry_output (argv : list string) (options : Part000.CliOptions)
    (f : FS) (n text : string) :
  Part000.parseCliOptions argv = inr options →
  creatable f (Part000.INPUT_DIR cwd) →
  creatable f (Part000.OUTPUT_DIR cwd) →
  Part000.conversion cwd options f n = Some text →
  (∀ m, is_Some (f !! (Part000.INPUT_DIR cwd ++ [m])) →
        Part000.outputName m = Part000.outputName n → m = n) →
  fs (Part000.run cwd argv f).2 !! Part000.outputPath cwd n
  = overwritten text
      (if Part000.clean options then None else f !! Part000.outputPath cwd n).
Proof.
  intros Hparse Hin Hout Hconv Hone.
  destruct (Part000Effects.run_effect cwd argv options f Hparse Hin Hout)
    as (f1 & entries & Hprep & Hreaddir & _ & ->).
  destruct (Part000Facts.prepare_spec cwd options (mkWorld f [] (Part000.mkStats 0 0 0 0))
              Hin Hout) as (f1' & Hprep' & _ & HOUT & Hunder & Hclean & Hkeep).
  destruct (Part000Effects.prepare_more cwd options (mkWorld f [] (Part000.mkStats 0 0 0 0))
              Hin Hout) as (f1'' & Hprep'' & _ & _ & Hoff).
  simpl in Hprep', Hprep'', Hunder, Hclean, Hkeep, Hoff.
  assert (f1' = f1 ∧ f1'' = f1) as [-> ->] by (split; congruence).
  destruct (readdir_names _ _ _ Hreaddir) as [Hnames Hnd].
  assert (f1 !! (Part000.INPUT_DIR cwd ++ [n]) = f !! (Part000.INPUT_DIR cwd ++ [n]))
    as Hsame by apply Hunder, under_child.
  apply Part000Effects.conversion_Some in Hconv as Hfile.
  destruct Hfile as (c & d & Hfile & _).
  rewrite Part000Effects.loop_output; try done.
  - rewrite (Part000Effects.conversion_frame cwd options f f1) by done. rewrite Hconv.
    f_equal. destruct (Part000.clean options) eqn:Hc.
    + apply Hclean; [done|]. apply under_child.
    + destruct (f !! Part000.outputPath cwd n) as [nd|] eqn:Hnd'.
      * rewrite Hkeep; [done..|]. by rewrite Hnd'.
      * rewrite Hoff; [done|done|..]; intros Hpre.
        -- exact (Part000Effects.outputPath_not_prefix cwd n _ (or_introl Hpre) eq_refl).
        -- exact (Part000Effects.outputPath_not_prefix cwd n _ (or_intror Hpre) eq_refl).
  - apply Hnames. rewrite Hsame, Hfile. by eexists.
  - intros m Hm. apply Hone. apply Hnames in Hm.
    rewrite <-Hunder; [done|apply under_child].
Qed.

(** X11. Running again changes nothing.  The options are valid, the
    directories can be made, and either [--clean] is given or no two
    entries of the input directory share an output name.  A second run
    with the same options, over the file system the first run has left,
    leaves that file system as it is; both runs end with status 0. *)
Theorem second_run_changes_nothing (argv : list string)
    (options : Part000.CliOptions) (f : FS) :
  Part000.parseCliOptions argv = inr options →
  creatable f (Part000.INPUT_DIR cwd) →
  creatable f (Part000.OUTPUT_DIR cwd) →
  Part000.clean options = true ∨ distinct_outputs (Part000.INPUT_DIR cwd) Part000.outputName f →
  fs (Part000.run cwd argv (fs (Part000.run cwd argv f).2)).2
  = fs (Part000.run cwd argv f).2
  ∧ (Part000.run cwd argv f).1 = 0%nat
  ∧ (Part000.run cwd argv (fs (Part000.run cwd argv f).2)).1 = 0%nat.
Proof.
  intros Hparse Hin Hout Hcase.
  destruct (Part000Effects.run_effect cwd argv options f Hparse Hin Hout)
    as (f1 & entries & Hprep & Hreaddir & Hstatus & Hfs).
  destruct (Part000Facts.prepare_spec cwd options (mkWorld f [] (Part000.mkStats 0 0 0 0))
              Hin Hout) as (f1' & Hprep' & _ & HOUT & Hunder & Hclean & _).
  destruct (Part000Effects.prepare_more cwd options (mkWorld f [] (Part000.mkStats 0 0 0 0))
              Hin Hout) as (f1'' & Hprep'' & Hmin & Hmout & _).
  simpl in Hprep', Hprep'', Hunder, Hclean.
  assert (f1' = f1 ∧ f1'' = f1) as [-> ->] by (split; congruence).
  rewrite Hfs. clear Hfs.
  set (g := foldl (Part000.entry_effect cwd options) f1 (name <$> entries)).
  assert (made g (Part000.INPUT_DIR cwd)) as Hgin.
  { intros q Hq Hne. unfold g. rewrite Part000Effects.loop_frame; auto. }
  assert (made g (Part000.OUTPUT_DIR cwd)) as Hgout.
  { intros q Hq Hne. unfold g. rewrite Part000Effects.loop_frame; auto. }
  destruct (Part000Effects.run_effect cwd argv options g Hparse)
    as (f2 & entries' & Hprep2 & Hreaddir2 & Hstatus2 & Hfs2);
    [by apply made_creatable..|].
  rewrite (Part000Effects.prepare_exact cwd options (mkWorld g [] (Part000.mkStats 0 0 0 0)))
    in Hprep2 by done.
  simpl in Hprep2. split; [|done]. rewrite Hfs2.
  destruct (Part000.clean options) eqn:Hc.
  - assert (f2 = f1) as ->.
    { simplify_eq. apply map_eq. intros q.
      destruct (decide (q = Part000.OUTPUT_DIR cwd)) as [->|Hq].
      { by rewrite lookup_insert_eq. }
      rewrite lookup_insert_ne by done. rewrite rm_rf_lookup. case_decide as Hpre.
      - symmetry. apply Hclean; [done|]. destruct Hpre as [[|x k] ->].
        + by rewrite app_nil_r in Hq.
        + by exists x, k.
      - unfold g. apply Part000Effects.loop_other. intros n _ _ ->.
        apply Hpre. by eexists. }
    rewrite Hreaddir in Hreaddir2. by simplify_eq.
  - destruct Hcase as [|Hdist]; [done|]. simplify_eq.
    destruct (readdir_names _ _ _ Hreaddir) as [Hnames Hnd].
    destruct (readdir_names _ _ _ Hreaddir2) as [Hnames2 Hnd2].
    apply Part000Effects.loop_again; try done.
    + intros n. rewrite Hnames, Hnames2.
      rewrite Part000Effects.loop_input; [done|apply under_child].
    + intros n m Hn%Hnames Hm%Hnames. apply Hdist; rewrite <-Hunder; try done;
        apply under_child.
Qed.

(** X7. Whatever a run writes is the encoding of an entry.  Every
    [writeFile] of a run of [Part000] names the output path of an entry
    [n] of the input directory that was, before the run, a readable
    regular file with a [.json] name, and its text is what the encoder
    returns, under the options of the run, for the document parsed from
    the content that file had. *)
Theorem writes_are_encodings (argv : list string) (f : FS) (p : path)
    (text : string) :
  EvWriteFile p text ∈ trace (Part000.run cwd argv f).2 →
  ∃ options n c d,
    Part000.parseCliOptions argv = inr options
    ∧ p = Part000.OUTPUT_DIR cwd ++ [Part000.outputName n]
    ∧ f !! (Part000.INPUT_DIR cwd ++ [n]) = Some (NFile c true)
    ∧ Part000.is_json_name n = true
    ∧ JSON_parse c = inr d
    ∧ encode d (Part000.encoder_options options) = inr text.
Proof.
  intros Hin. destruct (Part000.parseCliOptions argv) as [e|options] eqn:Hparse.
  - rewrite (Part000Facts.invalid_options_before_io cwd argv e f Hparse) in Hin.
    apply list_elem_of_In in Hin. simpl in Hin. destruct Hin as [Hin|[]]. discriminate Hin.
  - pose proof (Part000Effects.run_checked cwd argv options f Hparse) as Hall.
    rewrite Forall_forall in Hall. specialize (Hall _ Hin). simpl in Hall.
    destruct Hall as (n & Heq & Hconv).
    apply Part000Effects.conversion_Some in Hconv as (c & d & Hfile & Hjson & Hp & He).
    exists options, n, c, d. by split_and!.
Qed.

(** X10. Without [--clean], a run of [Part000] loses nothing.  A node
    that is there before the run is there after it, as it was; the one
    exception is a regular file at the output path of an entry that is a
    readable regular file with a [.json] name: it is a regular file
    still, with the permissions it had, and its content may be new.  So a
    stale output file stays, and no directory or special node changes. *)
Theorem without_clean_nothing_is_lost (argv : list string)
    (options : Part000.CliOptions) (f : FS) (q : path) (nd : node) :
  Part000.parseCliOptions argv = inr options →
  Part000.clean options = false →
  f !! q = Some nd →
  fs (Part000.run cwd argv f).2 !! q = Some nd
  ∨ ∃ n c0 c r c',
      q = Part000.OUTPUT_DIR cwd ++ [Part000.outputName n]
      ∧ Part000.is_json_name n = true
      ∧ f !! (Part000.INPUT_DIR cwd ++ [n]) = Some (NFile c0 true)
      ∧ nd = NFile c r
      ∧ fs (Part000.run cwd argv f).2 !! q = Some (NFile c' r).
Proof.
  intros Hparse Hclean Hnd.
  destruct (preserves_run_process _ (Part000Effects.kept_trans' cwd)
              (Part000.main cwd argv) Part000.on_fatal
              (mkWorld f [] (Part000.mkStats 0 0 0 0))
              (Part000Effects.main_kept cwd argv options Hparse Hclean)
              (Part000Effects.on_fatal_kept cwd)) as [_ Hkept].
  exact (Hkept q nd Hnd).
Qed.

(** X12. No run of [Script] loses anything.  A node that is there before
    the run is there after it, as it was; the one exception is a regular
    file at the output path of an entry that is a readable regular file
    whose name ends in [.json]: it is a regular file still, with the
    permissions it had, and its content may be new. *)
Theorem script_loses_nothing (f : FS) (q : path) (nd : node) :
  f !! q = Some nd →
  fs (Script.run cwd f).2 !! q = Some nd
  ∨ ∃ n c0 c r c',
      q = Script.OUTPUT_DIR cwd ++ [Str.basename n ".json" +:+ ".toon"]
      ∧ Str.endsWith n ".json" = true
      ∧ f !! (Script.INPUT_DIR cwd ++ [n]) = Some (NFile c0 true)
      ∧ nd = NFile c r
      ∧ fs (Script.run cwd f).2 !! q = Some (NFile c' r).
Proof.
  intros Hnd.
  destruct (preserves_run_process _ (ScriptEffects.script_kept_trans' cwd)
              (Script.main cwd) Script.on_fatal (mkWorld f [] [])
              (ScriptEffects.script_main_kept cwd) (ScriptEffects.script_on_fatal_kept cwd))
    as [_ Hkept].
  exact (Hkept q nd Hnd).
Qed.

(** X8. [--verbose] changes what a run tells, and nothing else.  Two
    runs of [Part000] over one file system, with options that differ in
    [verbose] only, end with the same status, the same file system and
    the same counters; and their traces are the same once the lines of
    [console.info] are left out: the same calls on the file system, the
    same warnings and errors, the same summary, in the same order. *)
Theorem verbose_only_adds_info_lines (argv1 argv2 : list string)
    (o1 o2 : Part000.CliOptions) (f : FS) :
  Part000.parseCliOptions argv1 = inr o1 →
  Part000.parseCliOptions argv2 = inr o2 →
  Part000.indent o1 = Part000.indent o2 →
  Part000.delimiter o1 = Part000.delimiter o2 →
  Part000.keyFolding o1 = Part000.keyFolding o2 →
  Part000.flattenDepth o1 = Part000.flattenDepth o2 →
  Part000.clean o1 = Part000.clean o2 →
  (Part000.run cwd argv1 f).1 = (Part000.run cwd argv2 f).1
  ∧ fs (Part000.run cwd argv1 f).2 = fs (Part000.run cwd argv2 f).2
  ∧ locals (Part000.run cwd argv1 f).2 = locals (Part000.run cwd argv2 f).2
  ∧ without_info (trace (Part000.run cwd argv1 f).2)
    = without_info (trace (Part000.run cwd argv2 f).2).
Proof.
  intros Hp1 Hp2 Hi Hd Hk Hf Hc.
  assert (Part000.same_but_verbose o1 o2) as Hsame by by split_and!.
  destruct (agree_run_process (Part000.main cwd argv1) (Part000.main cwd argv2)
              Part000.on_fatal Part000.on_fatal
              (mkWorld f [] (Part000.mkStats 0 0 0 0))
              (Part000Effects.main_agree cwd argv1 argv2 o1 o2 Hp1 Hp2 Hsame)
              (Part000Effects.on_fatal_agree))
    as (Hstatus & Hfs & Hlocals & Htrace).
  by split_and!.
Qed.

(** X9. One [stat] per entry, in the order of the listing.  In a run of
    [Part000] with valid options whose directories can be made, the
    listing of the input directory holds each node directly inside it
    once, as it was before the run; and the paths the run calls [stat]
    on are the paths of the listed entries, each once, in the order of
    the listing: no entry is handled twice, none is left out, and none
    is handled out of turn. *)
Theorem one_stat_per_entry_in_order (argv : list string)
    (options : Part000.CliOptions) (f : FS) :
  Part000.parseCliOptions argv = inr options →
  creatable f (Part000.INPUT_DIR cwd) →
  creatable f (Part000.OUTPUT_DIR cwd) →
  ∃ f1 entries,
    Part000.prepare cwd options (mkWorld f [] (Part000.mkStats 0 0 0 0))
    = (Ok tt, mkWorld f1 (Part000.prepare_trace cwd options) (Part000.mkStats 0 0 0 0))
    ∧ Fs.readdir (Part000.INPUT_DIR cwd) f1 = inr entries
    ∧ NoDup (name <$> entries)
    ∧ (∀ n, n ∈ name <$> entries ↔ is_Some (f !! (Part000.INPUT_DIR cwd ++ [n])))
    ∧ stat_calls (trace (Part000.run cwd argv f).2)
      = (λ e, Part000.INPUT_DIR cwd ++ [name e]) <$> entries.
Proof.
  intros Hparse Hin Hout.
  destruct (Part000Facts.run_spec cwd argv options f Hparse Hin Hout)
    as (f1 & entries & Hprep & _ & _ & Hunder & _ & _ & Hreaddir & Hrun).
  exists f1, entries. split; [done|]. split; [done|].
  destruct (readdir_names _ _ _ Hreaddir) as [Hnames Hnd]. split; [done|]. split.
  { intros n. rewrite Hnames, Hunder; [done|apply under_child]. }
  cbv zeta in Hrun. case_bool_decide as Hnil.
  - rewrite Hrun, Hnil. cbn [snd trace].
    rewrite !Part000Effects.stat_calls_app, Part000Effects.prepare_trace_no_stat. done.
  - destruct Hrun as (w2 & Hloop & ->). cbn [snd trace].
    destruct (Part000Effects.loop_stat_calls cwd options entries
                (mkWorld f1 (Part000.prepare_trace cwd options
                             ++ [EvReaddir (Part000.INPUT_DIR cwd)])
                   (Part000.mkStats 0 0 0 0)))
      as (w' & t & Hloop' & Ht & Hstat).
    rewrite Hloop in Hloop'. simplify_eq. rewrite Ht. cbn [snd trace].
    rewrite !Part000Effects.stat_calls_app, Part000Effects.prepare_trace_no_stat,
      Part000Effects.summary_lines_no_stat, Hstat. simpl. by rewrite app_nil_r.
Qed.

(** X13. The exit status of [Part000].  A run ends with status 0
    exactly when its options are valid and its two directories can be
    made, and with status 1 otherwise.  So the status tells of a refused
    option or of a directory that cannot be made, and of nothing else:
    what becomes of the entries does not show in it. *)
Theorem part000_exit_status (argv : list string) (f : FS) :
  ((Part000.run cwd argv f).1 = 0%nat ↔
   (∃ options, Part000.parseCliOptions argv = inr options)
   ∧ creatable f (Part000.INPUT_DIR cwd)
   ∧ creatable f (Part000.OUTPUT_DIR cwd))
  ∧ ((Part000.run cwd argv f).1 = 0%nat ∨ (Part000.run cwd argv f).1 = 1%nat).
Proof.
  destruct (Part000.parseCliOptions argv) as [e|options] eqn:Hparse.
  { rewrite (Part000Facts.invalid_options_before_io cwd argv e f Hparse). simpl.
    split; [|by right]. split; [done|]. by intros [[o Ho] _]. }
  destruct (Part000Effects.ensureWorkspace_cases cwd (mkWorld f [] (Part000.mkStats 0 0 0 0)))
    as [(w' & _ & Hin & Hout)|(e & w' & _ & Hno)]; cbn [fs] in *.
  - destruct (Part000Effects.run_effect cwd argv options f Hparse Hin Hout)
      as (f1 & entries & _ & _ & Hstatus & _).
    rewrite Hstatus. split; [|by left]. split; [|done]. intros _. eauto.
  - destruct (Part000Effects.run_unprepared cwd argv options f Hparse Hno) as [Hstatus _].
    rewrite Hstatus. split; [|by right]. split; [done|]. intros (_ & Hin & Hout).
    by destruct Hno.
Qed.

(** X14. The exit status of [Script].  A run ends with status 0
    exactly when the input directory is a directory, the output
    directory exists or can be made, and no conversion has failed; it
    ends with status 1 otherwise.  So, unlike [Part000], one failed
    conversion makes the run fail. *)
Theorem script_exit_status (f : FS) :
  ((Script.run cwd f).1 = 0%nat ↔
   f !! Script.INPUT_DIR cwd = Some NDir
   ∧ (is_Some (f !! Script.OUTPUT_DIR cwd) ∨ creatable f (Script.OUTPUT_DIR cwd))
   ∧ Script.failures (locals (Script.run cwd f).2) = 0%nat)
  ∧ ((Script.run cwd f).1 = 0%nat ∨ (Script.run cwd f).1 = 1%nat).
Proof.
  destruct (ScriptEffects.run_status cwd f) as [[Hstatus Hno]|[Hstatus Hok]];
    cbv zeta in *; rewrite Hstatus.
  - split; [|by right]. split; [done|]. intros Hok. by destruct Hno.
  - split; [|by left]. done.
Qed.

(** X15. The results of [Script] follow the listing.  From the
    enumeration on, when the listing holds at least one regular file
    whose name ends in [.json]: the loop handles every such file and none
    makes it stop; the results hold one record for each, in the order of
    the listing, with the path of the file from the working directory;
    a record of a success has an output path and no error, a record of
    a failure an error and no output path; and the script then exits
    with status 1 if some record is a failure, and returns if none is. *)
Theorem script_results_follow_listing (w : World (list Script.ConversionResult))
    (entries : list Dirent) :
  Fs.readdir (Script.INPUT_DIR cwd) (fs w) = inr entries →
  filter (λ e, Script.json_file e) entries ≠ [] →
  ∃ w',
    Script.convert_all cwd w
    = (if bool_decide (0 < Script.failures (locals w'))%nat then Exit 1 else Ok tt, w')
    ∧ Script.inputFile <$> locals w'
      = (λ e, "input_json/" +:+ name e) <$> filter (λ e, Script.json_file e) entries
    ∧ Forall (λ r, if Script.success r
                   then is_Some (Script.outputFile r) ∧ Script.error r = None
                   else Script.outputFile r = None ∧ is_Some (Script.error r))
        (locals w').
Proof.
  intros Hreaddir Hsome. pose proof (ScriptEffects.convert_all_cases cwd w) as Hconv.
  rewrite Hreaddir in Hconv. cbv zeta in Hconv.
  rewrite bool_decide_eq_false_2 in Hconv by done.
  destruct Hconv as (w' & Hrun & Hnames & Hall & _). by exists w'.
Qed.

(** X16. What a run of [Script] writes for a file.  The input directory
    is a directory, and the output directory is one or can be made.  The
    entry [n] of the input directory is a readable regular file whose
    name ends in [.json] and whose content parses and encodes to [text],
    and no other entry has its output name.  After the run, a regular
    file with content [text] is at the output path of [n]: a new one, or
    the one that was there, overwritten; only a directory or a special
    node in that place stays as it is. *)
Theorem script_converted_file_output (f : FS) (n text : string) :
  f !! Script.INPUT_DIR cwd = Some NDir →
  f !! Script.OUTPUT_DIR cwd = Some NDir
  ∨ (f !! Script.OUTPUT_DIR cwd = None ∧ creatable f (Script.OUTPUT_DIR cwd)) →
  Script.conversion cwd f n = Some text →
  (∀ m, is_Some (f !! (Script.INPUT_DIR cwd ++ [m])) →
        Script.outputName m = Script.outputName n → m = n) →
  fs (Script.run cwd f).2 !! Script.outputPath cwd n
  = overwritten text (f !! Script.outputPath cwd n).
Proof.
  intros HIN HOUT Hconv Hone.
  destruct (ScriptEffects.script_run_effect cwd f HIN HOUT)
    as (f1 & entries & Hreaddir & HOUT1 & Hkeep & Hoff & _ & ->).
  destruct (ScriptEffects.json_names cwd f1 entries Hreaddir) as [Hnd Hnames].
  assert (∀ m, f1 !! (Script.INPUT_DIR cwd ++ [m]) = f !! (Script.INPUT_DIR cwd ++ [m]))
    as Hsame.
  { intros m. apply Hoff. apply (siblings_not_prefix _ "input_json"); [done|].
    apply under_child. }
  apply ScriptEffects.script_conversion_Some in Hconv as Hfile.
  destruct Hfile as (c & d & Hfile & Hjson & _).
  rewrite ScriptEffects.script_loop_output; try done.
  - rewrite (ScriptEffects.script_conversion_frame cwd f f1) by done. rewrite Hconv.
    f_equal. apply Hoff. intros Hpre.
    exact (ScriptEffects.script_outputPath_not_prefix cwd n _ Hpre eq_refl).
  - apply Hnames. split; [|done]. unfold is_regular. by rewrite Hsame, Hfile.
  - intros m [Hreg _]%Hnames. apply Hone. unfold is_regular in Hreg.
    rewrite Hsame in Hreg.
    destruct (f !! (Script.INPUT_DIR cwd ++ [m])); [by eexists|done].
Qed.

(** X17. Whatever a run of [Script] writes is the encoding of a file.
    Every [writeFile] of a run names the output path of an entry [n] of
    the input directory that was, before the run, a readable regular
    file whose name ends in [.json], and its text is what the encoder
    returns, with an indentation of 2 and key folding off, for the
    document parsed from the content that file had. *)
Theorem script_writes_are_encodings (f : FS) (p : path) (text : string) :
  EvWriteFile p text ∈ trace (Script.run cwd f).2 →
  ∃ n c d,
    p = Script.OUTPUT_DIR cwd ++ [Str.basename n ".json" +:+ ".toon"]
    ∧ f !! (Script.INPUT_DIR cwd ++ [n]) = Some (NFile c true)
    ∧ Str.endsWith n ".json" = true
    ∧ JSON_parse c = inr d
    ∧ encode d (mkEncodeOptions None (Some 2) (Some "off") None) = inr text.
Proof.
  intros Hin. pose proof (ScriptEffects.script_run_checked cwd f) as Hall.
  rewrite Forall_forall in Hall. specialize (Hall _ Hin). simpl in Hall.
  destruct Hall as (n & Heq & Hconv).
  apply ScriptEffects.script_conversion_Some in Hconv as (c & d & Hfile & Hjson & Hp & He).
  exists n, c, d. by split_and!.
Qed.

(** X18. Running [Script] again changes nothing.  The input directory is
    a directory, the output directory is one or can be made, and no two
    entries of the input directory share an output name.  A second run
    over the file system the first run has left leaves that file system
    as it is. *)
Theorem script_second_run_changes_nothing (f : FS) :
  f !! Script.INPUT_DIR cwd = Some NDir →
  f !! Script.OUTPUT_DIR cwd = Some NDir
  ∨ (f !! Script.OUTPUT_DIR cwd = None ∧ creatable f (Script.OUTPUT_DIR cwd)) →
  distinct_outputs (Script.INPUT_DIR cwd) Script.outputName f →
  fs (Script.run cwd (fs (Script.run cwd f).2)).2 = fs (Script.run cwd f).2.
Proof.
  intros HIN HOUT Hdist.
  destruct (ScriptEffects.script_run_effect cwd f HIN HOUT)
    as (f1 & entries & Hreaddir & HOUT1 & Hkeep & Hoff & _ & Hfs).
  rewrite Hfs.
  set (g := foldl (Script.entry_effect cwd) f1
              (name <$> filter (λ e, Script.json_file e) entries)).
  assert (∀ q, under (Script.INPUT_DIR cwd) q → g !! q = f !! q) as Hunder.
  { intros q Hq. unfold g. rewrite ScriptEffects.script_loop_input by done.
    apply Hoff. by apply (siblings_not_prefix _ "input_json"). }
  assert (g !! Script.INPUT_DIR cwd = Some NDir) as HIN2.
  { unfold g. rewrite ScriptEffects.script_loop_other.
    - rewrite Hkeep; [done|]. by rewrite HIN.
    - intros n _ _ Heq. apply (f_equal length) in Heq.
      unfold Script.outputPath, Script.INPUT_DIR, Script.OUTPUT_DIR in Heq.
      rewrite !length_app in Heq. simpl in Heq. lia. }
  assert (g !! Script.OUTPUT_DIR cwd = Some NDir) as HOUT2.
  { unfold g. rewrite ScriptEffects.script_loop_other; [done|].
    intros n _ _. by apply ScriptEffects.script_outputPath_not_prefix. }
  destruct (ScriptEffects.script_run_effect cwd g HIN2 (or_introl HOUT2))
    as (f2 & entries' & Hreaddir2 & _ & _ & _ & Hsame & ->).
  rewrite (Hsame HOUT2) in *.
  destruct (ScriptEffects.json_names cwd f1 entries Hreaddir) as [Hnd Hnames].
  destruct (ScriptEffects.json_names cwd g entries' Hreaddir2) as [Hnd2 Hnames2].
  assert (∀ n, is_regular f1 (Script.INPUT_DIR cwd ++ [n])
               = is_regular f (Script.INPUT_DIR cwd ++ [n])) as Hreg1.
  { intros n. unfold is_regular. rewrite Hoff; [done|].
    apply (siblings_not_prefix _ "input_json"); [done|apply under_child]. }
  apply ScriptEffects.script_loop_again; try done.
  - intros n. rewrite Hnames, Hnames2, Hreg1. unfold is_regular.
    rewrite Hunder; [done|apply under_child].
  - intros n m [Hn _]%Hnames [Hm _]%Hnames. rewrite Hreg1 in Hn, Hm.
    unfold is_regular in Hn, Hm. apply Hdist.
    + destruct (f !! (Script.INPUT_DIR cwd ++ [n])); [by eexists|done].
    + destruct (f !! (Script.INPUT_DIR cwd ++ [m])); [by eexists|done].
Qed.

(** X19. A file that cannot be read, or an output that cannot be
    written, fails alone.  The entry is a regular file with a [.json]
    name.  When reading it fails, or when its content converts but the
    write to its output path fails, the entry is counted as processed and
    failed, the reason is logged as an error with the name of the entry,
    the file system is left as it is, and the loop goes on with the
    entries that follow, to its end. *)
Theorem unreadable_or_unwritable_entry_fails_alone (options : Part000.CliOptions)
    (entry : Dirent) (rest : list Dirent) (w : World Part000.ConversionStats)
    (reason : string) :
  let p := Part000.INPUT_DIR cwd ++ [name entry] in
  let body := Part000.process_entry cwd options in
  is_regular (fs w) p = true →
  Part000.is_json_name (name entry) = true →
  Fs.readFile p (fs w) = inl reason
  ∨ (∃ text, Part000.conversion cwd options (fs w) (name entry) = Some text
             ∧ Fs.writeFile (Part000.outputPath cwd (name entry)) text (fs w)
               = inl reason) →
  ∃ w1 w2,
    body entry w = (Ok tt, w1)
    ∧ fs w1 = fs w
    ∧ locals w1 = Part000.inc_failed (Part000.inc_processed (locals w))
    ∧ last (trace w1)
      = Some (EvConsole LError
                ("Failed to convert " +:+ name entry +:+ ". " +:+ reason))
    ∧ for_of (entry :: rest) body w = for_of rest body w1
    ∧ for_of rest body w1 = (Ok tt, w2).
Proof.
  intros p body Hreg Hjson Hfail. subst p body.
  apply stat_isFile_regular in Hreg.
  destruct (Part000Facts.process_entry_table cwd options entry w)
    as (w1 & o & Heq & Hstep).
  destruct (Part000Facts.loop_total cwd options rest w1) as [w2 Hloop].
  exists w1, w2.
  assert (for_of (entry :: rest) (Part000.process_entry cwd options) w
          = for_of rest (Part000.process_entry cwd options) w1) as Hcons.
  { simpl. unfold bind. by rewrite Heq. }
  assert (∀ text, Part000.conversion cwd options (fs w) (name entry) = Some text →
            ∃ c d, Fs.readFile (Part000.INPUT_DIR cwd ++ [name entry]) (fs w) = inr c
                   ∧ JSON_parse c = inr d
                   ∧ encode d (Part000.encoder_options options) = inr text) as Hconv.
  { intros text (c & d & Hf & _ & Hp & He)%Part000Effects.conversion_Some.
    exists c, d. split; [by apply readFile_Some|done]. }
  inversion Hstep as
    [r Hstat|Hstat|Hstat Hj|r Hstat Hj Hread
    |raw r Hstat Hj Hread Hparse
    |raw data r Hstat Hj Hread Hparse Henc
    |raw data text r Hstat Hj Hread Hparse Henc Hwrite
    |raw data text f' Hstat Hj Hread Hparse Henc Hwrite]; subst; try congruence.
  all: destruct Hfail as [Hfail|(text' & Hc & Hfail)];
    [|apply Hconv in Hc as (c & d & Hc & Hp & He)]; try congruence.
  all: unfold Part000.encoder_options, Part000.outputPath in *.
  all: try (exfalso; congruence).
  all: split_and!; try done.
  all: simpl; rewrite last_app; simpl; repeat f_equal; congruence.
Qed.

(** X20. An entry whose status cannot be read is skipped, with a
    warning.  When [stat] fails on an entry, handling it does not fail:
    it prints the warning [Unable to read input_json/<name>. <reason>],
    counts the entry as skipped and not as processed, says so under
    [--verbose], and touches nothing else: no read, no call of the
    encoder, no write. *)
Theorem unreadable_status_is_a_warning (options : Part000.CliOptions)
    (entry : Dirent) (w : World Part000.ConversionStats) (reason : string) :
  let p := Part000.INPUT_DIR cwd ++ [name entry] in
  Fs.stat_isFile p (fs w) = inl reason →
  Part000.process_entry cwd options entry w
  = (Ok tt,
     mkWorld (fs w)
       (trace w ++
          [EvStat p;
           EvConsole LWarn ("Unable to read input_json/" +:+ name entry +:+ ". "
                            +:+ reason);
           EvAssign (Part000.inc_skipped (locals w))] ++
          (if Part000.verbose options
           then [EvConsole LInfo ("Skipping input_json/" +:+ name entry
                                  +:+ " (not a regular file).")]
           else []))
       (Part000.inc_skipped (locals w))).
Proof.
  intros p Hstat. subst p.
  destruct (Part000Facts.process_entry_table cwd options entry w)
    as (w1 & o & Heq & Hstep).
  rewrite Heq. f_equal.
  assert (Part000.relativeFromCwd cwd (Part000.INPUT_DIR cwd ++ [name entry])
          = "input_json/" +:+ name entry) as Hrel.
  { unfold Part000.relativeFromCwd, Fs.relative, Part000.INPUT_DIR.
    by rewrite <-app_assoc, relative_parts_below. }
  inversion Hstep as
    [r Hstat'|Hstat'|Hstat' Hj|r Hstat' Hj Hread
    |raw r Hstat' Hj Hread Hparse
    |raw data r Hstat' Hj Hread Hparse Henc
    |raw data text r Hstat' Hj Hread Hparse Henc Hwrite
    |raw data text f' Hstat' Hj Hread Hparse Henc Hwrite]; subst; try congruence.
  rewrite Hstat in Hstat'. simplify_eq. by rewrite Hrel.
Qed.

(** X21. What the summary reports.  The options are valid, the
    directories can be made, and the input directory holds at least one
    entry.  The run ends by printing the summary of its final counters,
    and these are: [processed], the number of listed entries that are
    regular files, whatever their name; [skipped], the number that are
    not regular files or have no [.json] name; [converted] and [failed]
    together, the number of regular files with a [.json] name.  So
    [processed] plus the number of entries that are not regular files is
    the number of entries, as is [converted + skipped + failed]. *)
Theorem summary_reports_the_counters (argv : list string)
    (options : Part000.CliOptions) (f : FS) (n0 : string) :
  Part000.parseCliOptions argv = inr options →
  creatable f (Part000.INPUT_DIR cwd) →
  creatable f (Part000.OUTPUT_DIR cwd) →
  is_Some (f !! (Part000.INPUT_DIR cwd ++ [n0])) →
  ∃ entries t,
    let stats := locals (Part000.run cwd argv f).2 in
    let regular := Part000.regular_entry cwd f in
    (∀ n, n ∈ name <$> entries ↔ is_Some (f !! (Part000.INPUT_DIR cwd ++ [n])))
    ∧ NoDup (name <$> entries)
    ∧ trace (Part000.run cwd argv f).2 = t ++ Part000.summary_lines stats
    ∧ Part000.processed stats = Part000.count regular entries
    ∧ Part000.skipped stats
      = Part000.count (λ e, negb (regular e) || negb (Part000.json_entry e)) entries
    ∧ (Part000.converted stats + Part000.failed stats)%nat
      = Part000.count (λ e, regular e && Part000.json_entry e) entries
    ∧ (Part000.converted stats + Part000.skipped stats + Part000.failed stats)%nat
      = length entries.
Proof.
  intros Hparse Hin Hout Hsome.
  destruct (Part000Facts.run_spec cwd argv options f Hparse Hin Hout)
    as (f1 & entries & Hprep & _ & _ & Hunder & _ & _ & Hreaddir & Hrun).
  destruct (readdir_names _ _ _ Hreaddir) as [Hnames Hnd].
  assert (∀ n, n ∈ name <$> entries ↔ is_Some (f !! (Part000.INPUT_DIR cwd ++ [n])))
    as Hnames'.
  { intros n. rewrite Hnames, Hunder; [done|apply under_child]. }
  cbv zeta in Hrun. case_bool_decide as Hnil.
  { apply Hnames' in Hsome. rewrite Hnil in Hsome. by apply elem_of_nil in Hsome. }
  destruct Hrun as (w2 & Hloop & Hrun).
  destruct (Part000Facts.loop_counts cwd options f entries
              (mkWorld f1 (Part000.prepare_trace cwd options
                           ++ [EvReaddir (Part000.INPUT_DIR cwd)])
                 (Part000.mkStats 0 0 0 0)))
    as (w' & Hloop' & _ & Hp & Hs & Hcf & Ho); [done|].
  assert (w' = w2) as -> by congruence.
  exists entries, (trace w2). rewrite Hrun. cbn [snd locals trace] in *.
  unfold Part000.outcomes in Ho. simpl in Hp, Hs, Hcf, Ho.
  by split_and!.
Qed.

End Pipeline.

(** * The further properties at concrete inputs *)

Section MoreWitnesses.
Import Examples.

Local Abbreviation ind := ["work"; "input_json"].
Local Abbreviation outd := ["work"; "output_toon"].
Local Abbreviation zero := (Part000.mkStats 0 0 0 0).
Local Abbreviation defaults := (Part000.mkCliOptions 2 "," "off" None false false).
Local Abbreviation telling := (Part000.mkCliOptions 2 "," "off" None false true).

(** [--indent 4 --delimiter |] *)
Lemma resolved_options_are_valid_witness :
  let argv := ["--indent"; "4"; "--delimiter"; "|"] in
  let options := Part000.mkCliOptions 4 "|" "off" None false false in
  @Part000.parseCliOptions Ref.externals argv = inr options
  ∧ ∃ values,
      Ref.parseArgs argv = inr values
      ∧ Part000.delimiter options ∈ [","; Str.tab; "|"]
      ∧ Part000.clean options = v_clean values.
Proof.
  intros argv options.
  assert (@Part000.parseCliOptions Ref.externals argv = inr options) as Hparse
    by (vm_compute; reflexivity).
  split; [exact Hparse|].
  destruct (resolved_options_are_valid (H := Ref.externals) argv options Hparse)
    as (values & Hargs & _ & _ & _ & _ & Hin & _ & _ & _ & _ & _ & Hclean & _).
  exists values. split; [exact Hargs|]. split; [exact Hin|exact Hclean].
Defined.



(** [report.final.JSON] becomes [report.final.toon]. *)
Lemma output_name_replaces_suffix_witness :
  Str.toLowerCase ".JSON" = ".json"
  ∧ Part000.outputName "report.final.JSON" = "report.final.toon".
Proof.
  assert (Str.toLowerCase ".JSON" = ".json") as Hsuf by (vm_compute; reflexivity).
  split; [exact Hsuf|].
  destruct (output_name_replaces_suffix "report.final" ".JSON" Hsuf) as [Hname _].
  apply Hname. discriminate.
Defined.

Lemma variants_agree_on_json_names_witness :
  Str.endsWith "a.json" ".json" = true
  ∧ Part000.is_json_name "a.json" = true
  ∧ Part000.outputName "a.json" = Str.basename "a.json" ".json" +:+ ".toon".
Proof.
  assert (Str.endsWith "a.json" ".json" = true) as Hends by (vm_compute; reflexivity).
  split; [exact Hends|]. exact (variants_agree_on_json_names "a.json" Hends).
Defined.

(** [a.json] of the scenario. *)
Lemma converted_entry_output_witness :
  @Part000.parseCliOptions Ref.externals [] = inr defaults
  ∧ creatable fs_scenario ind ∧ creatable fs_scenario outd
  ∧ @Part000.conversion Ref.externals cwd defaults fs_scenario "a.json" = Some "x: 1"
  ∧ distinct_outputs ind Part000.outputName fs_scenario
  ∧ fs (part000 [] fs_scenario).2 !! (outd ++ ["a.toon"])
    = overwritten "x: 1" (fs_scenario !! (outd ++ ["a.toon"])).
Proof.
  assert (@Part000.parseCliOptions Ref.externals [] = inr defaults) as Hparse
    by (vm_compute; reflexivity).
  assert (creatable fs_scenario ind) as Hin
    by (apply creatableb_spec; vm_compute; reflexivity).
  assert (creatable fs_scenario outd) as Hout
    by (apply creatableb_spec; vm_compute; reflexivity).
  assert (@Part000.conversion Ref.externals cwd defaults fs_scenario "a.json"
          = Some "x: 1") as Hconv by (vm_compute; reflexivity).
  assert (distinct_outputs ind Part000.outputName fs_scenario) as Hdist
    by (apply distinct_outputsb_spec; vm_compute; reflexivity).
  split; [exact Hparse|]. split; [exact Hin|]. split; [exact Hout|].
  split; [exact Hconv|]. split; [exact Hdist|].
  apply (converted_entry_output (H := Ref.externals) cwd [] defaults fs_scenario
           "a.json" "x: 1" Hparse Hin Hout Hconv).
  intros m Hm Heq. apply Hdist; [exact Hm| |exact Heq].
  vm_compute. eexists. reflexivity.
Defined.

Lemma writes_are_encodings_witness :
  EvWriteFile (outd ++ ["a.toon"]) "x: 1" ∈ trace (part000 [] fs_scenario).2
  ∧ ∃ options n c d,
      @Part000.parseCliOptions Ref.externals [] = inr options
      ∧ outd ++ ["a.toon"] = outd ++ [Part000.outputName n]
      ∧ fs_scenario !! (ind ++ [n]) = Some (NFile c true)
      ∧ Ref.JSON_parse c = inr d
      ∧ Ref.encode d (Part000.encoder_options options) = inr "x: 1".
Proof.
  assert (EvWriteFile (outd ++ ["a.toon"]) "x: 1" ∈ trace (part000 [] fs_scenario).2)
    as Hin.
  { apply list_elem_of_In. vm_compute. tauto. }
  split; [exact Hin|].
  destruct (writes_are_encodings (H := Ref.externals) cwd [] fs_scenario
              (outd ++ ["a.toon"]) "x: 1" Hin)
    as (options & n & c & d & Hparse & Hp & Hfile & _ & Hd & He).
  exists options, n, c, d. split; [exact Hparse|]. split; [exact Hp|].
  split; [exact Hfile|]. split; [exact Hd|exact He].
Defined.

(** The run over [fs_mixed], with and without [-v]. *)
Lemma verbose_only_adds_info_lines_witness :
  @Part000.parseCliOptions Ref.externals [] = inr defaults
  ∧ @Part000.parseCliOptions Ref.externals ["-v"] = inr telling
  ∧ (part000 [] fs_mixed).1 = (part000 ["-v"] fs_mixed).1
  ∧ fs (part000 [] fs_mixed).2 = fs (part000 ["-v"] fs_mixed).2
  ∧ locals (part000 [] fs_mixed).2 = locals (part000 ["-v"] fs_mixed).2
  ∧ without_info (trace (part000 [] fs_mixed).2)
    = without_info (trace (part000 ["-v"] fs_mixed).2).
Proof.
  assert (@Part000.parseCliOptions Ref.externals [] = inr defaults) as Hp1
    by (vm_compute; reflexivity).
  assert (@Part000.parseCliOptions Ref.externals ["-v"] = inr telling) as Hp2
    by (vm_compute; reflexivity).
  split; [exact Hp1|]. split; [exact Hp2|].
  exact (verbose_only_adds_info_lines (H := Ref.externals) cwd [] ["-v"] defaults telling
           fs_mixed Hp1 Hp2 eq_refl eq_refl eq_refl eq_refl eq_refl).
Defined.

Lemma one_stat_per_entry_in_order_witness :
  @Part000.parseCliOptions Ref.externals [] = inr defaults
  ∧ creatable fs_mixed ind ∧ creatable fs_mixed outd
  ∧ ∃ entries,
      NoDup (name <$> entries)
      ∧ stat_calls (trace (part000 [] fs_mixed).2)
        = (λ e, ind ++ [name e]) <$> entries.
Proof.
  assert (@Part000.parseCliOptions Ref.externals [] = inr defaults) as Hparse
    by (vm_compute; reflexivity).
  assert (creatable fs_mixed ind) as Hin
    by (apply creatableb_spec; vm_compute; reflexivity).
  assert (creatable fs_mixed outd) as Hout
    by (apply creatableb_spec; vm_compute; reflexivity).
  split; [exact Hparse|]. split; [exact Hin|]. split; [exact Hout|].
  destruct (one_stat_per_entry_in_order (H := Ref.externals) cwd [] defaults fs_mixed
              Hparse Hin Hout)
    as (f1 & entries & _ & _ & Hnd & _ & Hstat).
  exists entries. split; [exact Hnd|exact Hstat].
Defined.

(** The stale [old.toon] of [fs_stale] stays, without [--clean]. *)
Lemma without_clean_nothing_is_lost_witness :
  @Part000.parseCliOptions Ref.externals [] = inr defaults
  ∧ fs_stale !! (outd ++ ["old.toon"]) = Some (NFile "stale" true)
  ∧ (fs (part000 [] fs_stale).2 !! (outd ++ ["old.toon"]) = Some (NFile "stale" true)
     ∨ ∃ n c0 c r c',
         outd ++ ["old.toon"] = outd ++ [Part000.outputName n]
         ∧ Part000.is_json_name n = true
         ∧ fs_stale !! (ind ++ [n]) = Some (NFile c0 true)
         ∧ NFile "stale" true = NFile c r
         ∧ fs (part000 [] fs_stale).2 !! (outd ++ ["old.toon"]) = Some (NFile c' r)).
Proof.
  assert (@Part000.parseCliOptions Ref.externals [] = inr defaults) as Hparse
    by (vm_compute; reflexivity).
  assert (fs_stale !! (outd ++ ["old.toon"]) = Some (NFile "stale" true)) as Hnd
    by (vm_compute; reflexivity).
  split; [exact Hparse|]. split; [exact Hnd|].
  exact (without_clean_nothing_is_lost (H := Ref.externals) cwd [] defaults fs_stale
           (outd ++ ["old.toon"]) (NFile "stale" true) Hparse eq_refl Hnd).
Defined.

Lemma second_run_changes_nothing_witness :
  @Part000.parseCliOptions Ref.externals [] = inr defaults
  ∧ creatable fs_scenario ind ∧ creatable fs_scenario outd
  ∧ distinct_outputs ind Part000.outputName fs_scenario
  ∧ fs (part000 [] (fs (part000 [] fs_scenario).2)).2 = fs (part000 [] fs_scenario).2.
Proof.
  assert (@Part000.parseCliOptions Ref.externals [] = inr defaults) as Hparse
    by (vm_compute; reflexivity).
  assert (creatable fs_scenario ind) as Hin
    by (apply creatableb_spec; vm_compute; reflexivity).
  assert (creatable fs_scenario outd) as Hout
    by (apply creatableb_spec; vm_compute; reflexivity).
  assert (distinct_outputs ind Part000.outputName fs_scenario) as Hdist
    by (apply distinct_outputsb_spec; vm_compute; reflexivity).
  split; [exact Hparse|]. split; [exact Hin|]. split; [exact Hout|].
  split; [exact Hdist|].
  exact (proj1 (second_run_changes_nothing (H := Ref.externals) cwd [] defaults
                  fs_scenario Hparse Hin Hout (or_intror Hdist))).
Defined.

Lemma script_loses_nothing_witness :
  fs_stale !! (outd ++ ["old.toon"]) = Some (NFile "stale" true)
  ∧ (fs (script fs_stale).2 !! (outd ++ ["old.toon"]) = Some (NFile "stale" true)
     ∨ ∃ n c0 c r c',
         outd ++ ["old.toon"] = outd ++ [Str.basename n ".json" +:+ ".toon"]
         ∧ Str.endsWith n ".json" = true
         ∧ fs_stale !! (ind ++ [n]) = Some (NFile c0 true)
         ∧ NFile "stale" true = NFile c r
         ∧ fs (script fs_stale).2 !! (outd ++ ["old.toon"]) = Some (NFile c' r)).
Proof.
  assert (fs_stale !! (outd ++ ["old.toon"]) = Some (NFile "stale" true)) as Hnd
    by (vm_compute; reflexivity).
  split; [exact Hnd|].
  exact (script_loses_nothing (H := Ref.externals) cwd fs_stale
           (outd ++ ["old.toon"]) (NFile "stale" true) Hnd).
Defined.

(** [Script] from the enumeration on, over [fs_mixed]. *)
Lemma script_results_follow_listing_witness :
  let w : World (list Script.ConversionResult) := mkWorld fs_mixed [] [] in
  ∃ entries,
    Fs.readdir ind fs_mixed = inr entries
    ∧ filter (λ e, Script.json_file e) entries ≠ []
    ∧ ∃ w', Script.inputFile <$> locals w'
            = (λ e, "input_json/" +:+ name e)
                <$> filter (λ e, Script.json_file e) entries.
Proof.
  intros w.
  destruct (Fs.readdir ind fs_mixed) as [e|entries] eqn:Hreaddir.
  { exfalso. vm_compute in Hreaddir. discriminate Hreaddir. }
  assert (filter (λ e, Script.json_file e) entries ≠ []) as Hsome.
  { vm_compute in Hreaddir. injection Hreaddir as <-. vm_compute. discriminate. }
  exists entries. split; [reflexivity|]. split; [exact Hsome|].
  destruct (script_results_follow_listing (H := Ref.externals) cwd w entries
              Hreaddir Hsome)
    as (w' & _ & Hnames & _).
  exists w'. exact Hnames.
Defined.

Lemma script_converted_file_output_witness :
  fs_scenario !! ind = Some NDir
  ∧ fs_scenario !! outd = None ∧ creatable fs_scenario outd
  ∧ @Script.conversion Ref.externals cwd fs_scenario "a.json" = Some "x: 1"
  ∧ distinct_outputs ind Script.outputName fs_scenario
  ∧ fs (script fs_scenario).2 !! (outd ++ ["a.toon"])
    = overwritten "x: 1" (fs_scenario !! (outd ++ ["a.toon"])).
Proof.
  assert (fs_scenario !! ind = Some NDir) as HIN by (vm_compute; reflexivity).
  assert (fs_scenario !! outd = None) as HOUT by (vm_compute; reflexivity).
  assert (creatable fs_scenario outd) as Hc
    by (apply creatableb_spec; vm_compute; reflexivity).
  assert (@Script.conversion Ref.externals cwd fs_scenario "a.json" = Some "x: 1")
    as Hconv by (vm_compute; reflexivity).
  assert (distinct_outputs ind Script.outputName fs_scenario) as Hdist
    by (apply distinct_outputsb_spec; vm_compute; reflexivity).
  split; [exact HIN|]. split; [exact HOUT|]. split; [exact Hc|].
  split; [exact Hconv|]. split; [exact Hdist|].
  apply (script_converted_file_output (H := Ref.externals) cwd fs_scenario
           "a.json" "x: 1" HIN (or_intror (conj HOUT Hc)) Hconv).
  intros m Hm Heq. apply Hdist; [exact Hm| |exact Heq].
  vm_compute. eexists. reflexivity.
Defined.

Lemma script_writes_are_encodings_witness :
  EvWriteFile (outd ++ ["a.toon"]) "x: 1" ∈ trace (script fs_scenario).2
  ∧ ∃ n c d,
      outd ++ ["a.toon"] = outd ++ [Str.basename n ".json" +:+ ".toon"]
      ∧ fs_scenario !! (ind ++ [n]) = Some (NFile c true)
      ∧ Ref.JSON_parse c = inr d
      ∧ Ref.encode d (mkEncodeOptions None (Some 2) (Some "off") None) = inr "x: 1".
Proof.
  assert (EvWriteFile (outd ++ ["a.toon"]) "x: 1" ∈ trace (script fs_scenario).2)
    as Hin.
  { apply list_elem_of_In. vm_compute. tauto. }
  split; [exact Hin|].
  destruct (script_writes_are_encodings (H := Ref.externals) cwd fs_scenario
              (outd ++ ["a.toon"]) "x: 1" Hin)
    as (n & c & d & Hp & Hfile & _ & Hd & He).
  exists n, c, d. split; [exact Hp|]. split; [exact Hfile|]. split; [exact Hd|exact He].
Defined.

Lemma script_second_run_changes_nothing_witness :
  fs_scenario !! ind = Some NDir
  ∧ fs_scenario !! outd = None ∧ creatable fs_scenario outd
  ∧ distinct_outputs ind Script.outputName fs_scenario
  ∧ fs (script (fs (script fs_scenario).2)).2 = fs (script fs_scenario).2.
Proof.
  assert (fs_scenario !! ind = Some NDir) as HIN by (vm_compute; reflexivity).
  assert (fs_scenario !! outd = None) as HOUT by (vm_compute; reflexivity).
  assert (creatable fs_scenario outd) as Hc
    by (apply creatableb_spec; vm_compute; reflexivity).
  assert (distinct_outputs ind Script.outputName fs_scenario) as Hdist
    by (apply distinct_outputsb_spec; vm_compute; reflexivity).
  split; [exact HIN|]. split; [exact HOUT|]. split; [exact Hc|]. split; [exact Hdist|].
  exact (script_second_run_changes_nothing (H := Ref.externals) cwd fs_scenario
           HIN (or_intror (conj HOUT Hc)) Hdist).
Defined.

(** [locked.json] may not be read; [b.json] follows. *)
Lemma unreadable_or_unwritable_entry_fails_alone_witness :
  let w := mkWorld fs_locked [] zero in
  let body := @Part000.process_entry Ref.externals cwd defaults in
  let reason := "EACCES: permission denied, open /work/input_json/locked.json" in
  is_regular fs_locked (ind ++ ["locked.json"]) = true
  ∧ Part000.is_json_name "locked.json" = true
  ∧ Fs.readFile (ind ++ ["locked.json"]) fs_locked = inl reason
  ∧ ∃ w1 w2,
      body (mkDirent "locked.json" true) w = (Ok tt, w1)
      ∧ locals w1 = Part000.mkStats 1 0 0 1
      ∧ for_of [mkDirent "b.json" true] body w1 = (Ok tt, w2).
Proof.
  intros w body reason.
  assert (is_regular fs_locked (ind ++ ["locked.json"]) = true) as Hreg
    by (vm_compute; reflexivity).
  assert (Part000.is_json_name "locked.json" = true) as Hjson
    by (vm_compute; reflexivity).
  assert (Fs.readFile (ind ++ ["locked.json"]) fs_locked = inl reason) as Hread
    by (vm_compute; reflexivity).
  split; [exact Hreg|]. split; [exact Hjson|]. split; [exact Hread|].
  destruct (unreadable_or_unwritable_entry_fails_alone (H := Ref.externals) cwd defaults
              (mkDirent "locked.json" true) [mkDirent "b.json" true] w reason
              Hreg Hjson (or_introl Hread))
    as (w1 & w2 & Hstep & _ & Hlocals & _ & _ & Hrest).
  exists w1, w2. split; [exact Hstep|]. split; [exact Hlocals|exact Hrest].
Defined.

(** The socket of [fs_mixed]. *)
Lemma unreadable_status_is_a_warning_witness :
  let w := mkWorld fs_mixed [] zero in
  let reason := "EACCES: permission denied, stat /work/input_json/sock" in
  Fs.stat_isFile (ind ++ ["sock"]) fs_mixed = inl reason
  ∧ @Part000.process_entry Ref.externals cwd telling (mkDirent "sock" false) w
    = (Ok tt,
       mkWorld fs_mixed
         [EvStat (ind ++ ["sock"]);
          EvConsole LWarn ("Unable to read input_json/sock. " +:+ reason);
          EvAssign (Part000.mkStats 0 0 1 0);
          EvConsole LInfo "Skipping input_json/sock (not a regular file)."]
         (Part000.mkStats 0 0 1 0)).
Proof.
  intros w reason.
  assert (Fs.stat_isFile (ind ++ ["sock"]) fs_mixed = inl reason) as Hstat
    by (vm_compute; reflexivity).
  split; [exact Hstat|].
  exact (unreadable_status_is_a_warning (H := Ref.externals) cwd telling
           (mkDirent "sock" false) w reason Hstat).
Defined.

Lemma summary_reports_the_counters_witness :
  @Part000.parseCliOptions Ref.externals [] = inr defaults
  ∧ creatable fs_mixed ind ∧ creatable fs_mixed outd
  ∧ is_Some (fs_mixed !! (ind ++ ["a.json"]))
  ∧ ∃ entries t,
      trace (part000 [] fs_mixed).2
      = t ++ Part000.summary_lines (locals (part000 [] fs_mixed).2)
      ∧ Part000.processed (locals (part000 [] fs_mixed).2)
        = Part000.count (Part000.regular_entry cwd fs_mixed) entries.
Proof.
  assert (@Part000.parseCliOptions Ref.externals [] = inr defaults) as Hparse
    by (vm_compute; reflexivity).
  assert (creatable fs_mixed ind) as Hin
    by (apply creatableb_spec; vm_compute; reflexivity).
  assert (creatable fs_mixed outd) as Hout
    by (apply creatableb_spec; vm_compute; reflexivity).
  assert (is_Some (fs_mixed !! (ind ++ ["a.json"]))) as Hsome
    by (vm_compute; eexists; reflexivity).
  split; [exact Hparse|]. split; [exact Hin|]. split; [exact Hout|].
  split; [exact Hsome|].
  destruct (summary_reports_the_counters (H := Ref.externals) cwd [] defaults fs_mixed
              "a.json" Hparse Hin Hout Hsome)
    as (entries & t & _ & _ & Htrace & Hp & _).
  exists entries, t. split; [exact Htrace|exact Hp].
Defined.

End MoreWitnesses.
